(** * rpg_vampire: world graph, persistence codec and combat engine

    A shallow embedding of the Python sources [rpg/attackable.py],
    [rpg/door.py], [rpg/room.py] and [rpg/io_utils.py].

    Python objects live in a store ([heap]); a reference is the index of
    the object in the store, so that aliasing (a door listed by two rooms,
    an enemy held both by a room's list and by the combat loop) is kept.
    Methods are state transformers that may raise.  Console output is not
    part of the model; the calls an f-string makes ([get_name], [inspect])
    are kept because they can raise. *)

From Stdlib Require Import ZArith String List Lia Bool.
From Stdlib Require Import Floats.SpecFloat.
From stdpp Require Import base option list strings gmap pretty.

Open Scope string_scope.
Open Scope list_scope.
Open Scope Z_scope.

(** ** Exceptions and outcomes *)

Inductive exn :=
| AttributeError
| KeyError (key : string)
| ValueError
| ValidationError
| OverflowError
| IllFormedStore.
(** [IllFormedStore] is the one outcome that is not a Python exception: a
    reference that is not in the store, or a list item of a class other
    than the one the list is declared for.  No run of the program gets
    there. *)

Inductive outcome (A : Type) :=
| Ok (a : A)
| Raise (e : exn).
Arguments Ok {A} a.
Arguments Raise {A} e.

(** ** The object store *)

Abbreviation addr := nat (only parsing).
Abbreviation ref := (option nat) (only parsing).  (* [None] is Python's None *)

Record NPC := mkNPC { description : string }.

Record Enemy := mkEnemy {
  enemy_description : string;
  enemy_health : Z;
  enemy_damage : Z }.

Record Wizard := mkWizard {
  wizard_description : string;
  bonus_damage : Z;
  healing_power : Z }.

Record Door := mkDoor {
  door_description : string;
  connected_room : ref;
  opposite_room : ref }.

Record Room := mkRoom {
  room_description : string;
  doors : list addr;
  npcs : list addr;
  room_id : Z }.

Record Player := mkPlayer {
  name : string;
  current_room : ref;
  player_health : Z;
  player_damage : Z }.

Inductive obj :=
| ONPC (n : NPC)
| OEnemy (e : Enemy)
| OWizard (z : Wizard)
| ODoor (d : Door)
| ORoom (r : Room)
| OPlayer (p : Player).

Abbreviation heap := (list obj) (only parsing).

(** [random.randint] and [Scanner.read_int] read from the outside world:
    [rand] is the sequence of raw draws of the generator and [stdin] the
    sequence of integers typed by the user, each with its cursor. *)
Record World := mkWorld {
  objects : heap;
  rand : nat -> Z;
  rand_pos : nat;
  stdin : nat -> Z;
  stdin_pos : nat }.

Definition with_objects (h : heap) (w : World) : World :=
  mkWorld h (rand w) (rand_pos w) (stdin w) (stdin_pos w).

(** ** The monad of methods: state and exceptions *)

Definition M (A : Type) : Type := World -> outcome A * World.

Definition ret {A} (a : A) : M A := fun w => (Ok a, w).

Definition raise {A} (e : exn) : M A := fun w => (Raise e, w).

Definition bind {A B} (m : M A) (k : A -> M B) : M B :=
  fun w =>
    match m w with
    | (Ok a, w') => k a w'
    | (Raise e, w') => (Raise e, w')
    end.

Notation "'let*' x ':=' m 'in' k" := (bind m (fun x => k))
  (at level 10, x name, m at level 100, k at level 200).
Notation "'run' m 'then' k" := (bind m (fun _ => k))
  (at level 10, m at level 100, k at level 200).

Definition lift {A} (o : outcome A) : M A := fun w => (o, w).

(** [for x in l: body x] *)
Fixpoint for_each {A} (l : list A) (body : A -> M unit) : M unit :=
  match l with
  | [] => ret tt
  | x :: l' => run body x then for_each l' body
  end.

(** [[f x for x in l]] *)
Fixpoint map_M {A B} (f : A -> M B) (l : list A) : M (list B) :=
  match l with
  | [] => ret []
  | x :: l' => let* y := f x in let* ys := map_M f l' in ret (y :: ys)
  end.

(** Object creation: the new object gets the next free index. *)
Definition alloc (o : obj) : M addr :=
  fun w => (Ok (List.length (objects w)), with_objects (objects w ++ [o]) w).

(** Following a reference; an attribute of None does not exist. *)
Definition deref (r : ref) : M obj :=
  fun w =>
    match r with
    | None => (Raise AttributeError, w)
    | Some a =>
        match objects w !! a with
        | Some o => (Ok o, w)
        | None => (Raise IllFormedStore, w)
        end
    end.

Definition store (a : addr) (o : obj) : M unit :=
  fun w => (Ok tt, with_objects (<[a := o]> (objects w)) w).

(** [id(x)]: the index of the object; None has an identity of its own,
    different from that of every object of the store. *)
Definition id (r : ref) : Z :=
  match r with
  | Some a => Z.of_nat a
  | None => -1
  end.

(** ** Python numbers used by the combat rule *)

Module PyFloat.
(** IEEE 754 binary64, as specified by [SpecFloat]. *)
Definition prec : Z := 53.
Definition emax : Z := 1024.

(** [float(n)] for an int: round to nearest even, OverflowError when the
    result is not finite. *)
Definition of_int (n : Z) : outcome spec_float :=
  match binary_normalize prec emax n 0 false with
  | S754_infinity _ => Raise OverflowError
  | f => Ok f
  end.

Definition mul : spec_float -> spec_float -> spec_float := SFmul prec emax.

(** The literal [0.8], that is 0x1.999999999999ap-1. *)
Definition lit_0_8 : spec_float := S754_finite false 7205759403792794 (-53).

(** [int(x)]: truncation toward zero. *)
Definition to_int (x : spec_float) : outcome Z :=
  match x with
  | S754_zero _ => Ok 0
  | S754_finite s m e =>
      Ok (cond_Zopp s (if 0 <=? e then Zpos m * 2 ^ e else Zpos m / 2 ^ (- e)))
  | S754_infinity _ => Raise OverflowError
  | S754_nan => Raise ValueError
  end.

(** [int(n * 0.8)] for an int [n]. *)
Definition int_times_0_8 (n : Z) : outcome Z :=
  match of_int n with
  | Ok x => to_int (mul x lit_0_8)
  | Raise e => Raise e
  end.
End PyFloat.

Module random.
(** [random.randint(a, b)] is [randrange(a, b + 1)]: ValueError on an
    empty range, else [a + _randbelow(b + 1 - a)]. *)
Definition randint (a b : Z) : M Z :=
  fun w =>
    let width := b + 1 - a in
    if 0 <? width
    then (Ok (a + rand w (rand_pos w) mod width),
          mkWorld (objects w) (rand w) (S (rand_pos w)) (stdin w) (stdin_pos w))
    else (Raise ValueError, w).
End random.

(** ** Attribute access

    [x.health] and [x.damage] exist on Player and Enemy, [x.description] on
    NPC, Enemy, Wizard, Door and Room. *)

Definition obj_health (o : obj) : option Z :=
  match o with
  | OEnemy e => Some (enemy_health e)
  | OPlayer p => Some (player_health p)
  | _ => None
  end.

Definition obj_damage (o : obj) : option Z :=
  match o with
  | OEnemy e => Some (enemy_damage e)
  | OPlayer p => Some (player_damage p)
  | _ => None
  end.

Definition obj_set_health (h : Z) (o : obj) : obj :=
  match o with
  | OEnemy e => OEnemy (mkEnemy (enemy_description e) h (enemy_damage e))
  | OPlayer p => OPlayer (mkPlayer (name p) (current_room p) h (player_damage p))
  | _ => o
  end.

Definition obj_set_damage (d : Z) (o : obj) : obj :=
  match o with
  | OEnemy e => OEnemy (mkEnemy (enemy_description e) (enemy_health e) d)
  | OPlayer p => OPlayer (mkPlayer (name p) (current_room p) (player_health p) d)
  | _ => o
  end.

Definition obj_description (o : obj) : option string :=
  match o with
  | ONPC n => Some (description n)
  | OEnemy e => Some (enemy_description e)
  | OWizard z => Some (wizard_description z)
  | ODoor d => Some (door_description d)
  | ORoom r => Some (room_description r)
  | OPlayer _ => None
  end.

Definition get_health (x : ref) : M Z :=
  let* o := deref x in
  match obj_health o with
  | Some h => ret h
  | None => raise AttributeError
  end.

Definition get_damage (x : ref) : M Z :=
  let* o := deref x in
  match obj_damage o with
  | Some d => ret d
  | None => raise AttributeError
  end.

Definition set_health (x : ref) (h : Z) : M unit :=
  let* o := deref x in
  match x, obj_health o with
  | Some a, Some _ => store a (obj_set_health h o)
  | _, _ => raise AttributeError
  end.

Definition set_damage (x : ref) (d : Z) : M unit :=
  let* o := deref x in
  match x, obj_damage o with
  | Some a, Some _ => store a (obj_set_damage d o)
  | _, _ => raise AttributeError
  end.

Definition get_description (x : ref) : M string :=
  let* o := deref x in
  match obj_description o with
  | Some s => ret s
  | None => raise AttributeError
  end.

Definition get_room (x : ref) : M Room :=
  let* o := deref x in
  match o with
  | ORoom r => ret r
  | _ => raise AttributeError
  end.

Definition get_player (x : ref) : M Player :=
  let* o := deref x in
  match o with
  | OPlayer p => ret p
  | _ => raise AttributeError
  end.

(** ** attackable.py: the Combat mixin *)

Module Combat.
(** [get_name] is abstract in Combat; Enemy and Player define it. *)
Definition get_name (self : ref) : M string :=
  let* o := deref self in
  match o with
  | OEnemy e => ret (enemy_description e)
  | OPlayer p => ret (name p)
  | _ => raise AttributeError
  end.

(** [self.health -= damage], then the message. *)
Definition take_damage (self : ref) (damage : Z) : M unit :=
  let* h := get_health self in
  run set_health self (h - damage) then
  run get_name self then
  ret tt.

Definition is_alive (self : ref) : M bool :=
  let* h := get_health self in
  ret (0 <? h).

Definition attack (self target : ref) : M unit :=
  let* alive := is_alive self in
  if alive then
    let* d := get_damage self in
    let* low := lift (PyFloat.int_times_0_8 d) in
    let* high := get_damage self in
    let* damage_dealt := random.randint low high in
    run get_name self then
    run get_name target then
    take_damage target damage_dealt
  else ret tt.
End Combat.

(** ** Equality of objects: [x == y]

    Room, NPC, Enemy and Wizard are pydantic models: [==] holds between
    two instances of the same class whose fields are equal.  Door is a
    plain class: [==] is identity.  Lists are compared item by item,
    identity first.  The program never compares two players, nor lists
    that hold rooms or players; for those the model keeps identity. *)

Definition model_eq (o1 o2 : obj) : bool :=
  match o1, o2 with
  | ONPC n1, ONPC n2 => String.eqb (description n1) (description n2)
  | OEnemy e1, OEnemy e2 =>
      String.eqb (enemy_description e1) (enemy_description e2)
      && (enemy_health e1 =? enemy_health e2)
      && (enemy_damage e1 =? enemy_damage e2)
  | OWizard z1, OWizard z2 =>
      String.eqb (wizard_description z1) (wizard_description z2)
      && (bonus_damage z1 =? bonus_damage z2)
      && (healing_power z1 =? healing_power z2)
  | _, _ => false
  end.

(** The items of a room's lists: doors and NPCs. *)
Definition item_eq (h : heap) (a b : addr) : bool :=
  Nat.eqb a b
  || match h !! a, h !! b with
     | Some o1, Some o2 => model_eq o1 o2
     | _, _ => false
     end.

Fixpoint list_eq (eq : addr -> addr -> bool) (l1 l2 : list addr) : bool :=
  match l1, l2 with
  | [], [] => true
  | a :: l1', b :: l2' => eq a b && list_eq eq l1' l2'
  | _, _ => false
  end.

Definition room_eq (h : heap) (r1 r2 : Room) : bool :=
  String.eqb (room_description r1) (room_description r2)
  && list_eq (item_eq h) (doors r1) (doors r2)
  && list_eq (item_eq h) (npcs r1) (npcs r2)
  && (room_id r1 =? room_id r2).

Definition py_eq (h : heap) (x y : ref) : bool :=
  match x, y with
  | None, None => true
  | Some a, Some b =>
      Nat.eqb a b
      || match h !! a, h !! b with
         | Some (ORoom r1), Some (ORoom r2) => room_eq h r1 r2
         | Some o1, Some o2 => model_eq o1 o2
         | _, _ => false
         end
  | _, _ => false
  end.

(** [l.remove(x)]: drops the first item equal to [x]; ValueError when
    there is none. *)
Fixpoint list_remove (h : heap) (x : addr) (l : list addr) : option (list addr) :=
  match l with
  | [] => None
  | y :: l' =>
      if py_eq h (Some y) (Some x) then Some l'
      else option_map (cons y) (list_remove h x l')
  end.

(** ** Dictionaries keyed by room id, in insertion order *)

Fixpoint dict_get {V} (k : Z) (d : list (Z * V)) : option V :=
  match d with
  | [] => None
  | (k', v) :: d' => if k' =? k then Some v else dict_get k d'
  end.

Fixpoint dict_set {V} (k : Z) (v : V) (d : list (Z * V)) : list (Z * V) :=
  match d with
  | [] => [(k, v)]
  | (k', v') :: d' => if k' =? k then (k, v) :: d' else (k', v') :: dict_set k v d'
  end.

Definition dict_values {V} (d : list (Z * V)) : list V := map snd d.

(** ** Snapshots

    The dictionaries that [toJSON] builds and [fromJSON] reads.  The
    entries of a room's ["npcs"] list are kept as string-keyed objects
    with integer and string members, since the three NPC classes write
    different members; the other dictionaries have fixed members and are
    records. *)

Inductive jval :=
| JInt (z : Z)
| JStr (s : string).

Abbreviation jobject := (gmap string jval) (only parsing).

Record DoorJSON := mkDoorJSON {
  j_door_description : string;
  connected_room_id : Z;
  opposite_room_id : Z }.

Record RoomJSON := mkRoomJSON {
  j_room_description : string;
  j_room_id : Z;
  j_doors : list DoorJSON;
  j_npcs : list jobject }.

Record PlayerJSON := mkPlayerJSON {
  j_name : string;
  j_current_room : RoomJSON;
  j_health : Z;
  j_damage : Z }.

Record GameJSON := mkGameJSON {
  j_rooms : list (Z * RoomJSON);
  j_player : PlayerJSON }.

(** [json_data[key]] *)
Definition subscript (json_data : jobject) (key : string) : M jval :=
  match json_data !! key with
  | Some v => ret v
  | None => raise (KeyError key)
  end.

(** ** room.py: NPC, Enemy, Wizard *)

(** A field declared [int] is validated by pydantic: an int is taken as
    it is, and a string is converted when the library reads it as an
    integer.  That reading is the library's, not this program's: it is
    the argument [int_of_str] of the decoders that need it. *)
Definition int_field (int_of_str : string -> option Z) (v : jval) : outcome Z :=
  match v with
  | JInt z => Ok z
  | JStr s =>
      match int_of_str s with
      | Some z => Ok z
      | None => Raise ValidationError
      end
  end.

Module NPC.
Definition new (description : string) : M addr :=
  alloc (ONPC (mkNPC description)).

Definition toJSON (self : NPC) : jobject :=
  {[ "description" := JStr (description self) ]}.

Definition inspect (self : NPC) : string := description self.

(** [cls(description=json_data["description"])]; the field is a [str]. *)
Definition fromJSON (json_data : jobject) : M addr :=
  let* d := subscript json_data "description" in
  match d with
  | JStr description => new description
  | JInt _ => raise ValidationError
  end.
End NPC.

Module Enemy.
(** The field validator of [health]. *)
Definition validate_health (value : Z) : outcome Z :=
  if value <=? 0 then Raise ValidationError else Ok value.

Definition new (description : string) (health damage : Z) : M addr :=
  let* health := lift (validate_health health) in
  alloc (OEnemy (mkEnemy description health damage)).

Definition toJSON (self : Enemy) : jobject :=
  {[ "description" := JStr (enemy_description self);
     "health" := JInt (enemy_health self);
     "damage" := JInt (enemy_damage self) ]}.

Definition fromJSON (int_of_str : string -> option Z) (json_data : jobject) : M addr :=
  let* d := subscript json_data "description" in
  let* h := subscript json_data "health" in
  let* dmg := subscript json_data "damage" in
  match d, int_field int_of_str h, int_field int_of_str dmg with
  | JStr description, Ok health, Ok damage => new description health damage
  | _, _, _ => raise ValidationError
  end.

Definition get_name (self : Enemy) : string := enemy_description self.
End Enemy.

Module Wizard.
Definition new (description : string) (bonus_damage healing_power : Z) : M addr :=
  alloc (OWizard (mkWizard description bonus_damage healing_power)).

Definition toJSON (self : Wizard) : jobject :=
  {[ "description" := JStr (wizard_description self);
     "bonus_damage" := JInt (bonus_damage self);
     "healing_power" := JInt (healing_power self) ]}.

Definition fromJSON (int_of_str : string -> option Z) (json_data : jobject) : M addr :=
  let* d := subscript json_data "description" in
  let* b := subscript json_data "bonus_damage" in
  let* hp := subscript json_data "healing_power" in
  match d, int_field int_of_str b, int_field int_of_str hp with
  | JStr description, Ok bonus_damage, Ok healing_power =>
      new description bonus_damage healing_power
  | _, _, _ => raise ValidationError
  end.

(** [player.health += self.healing_power; player.damage += self.bonus_damage] *)
Definition give_bonus (self : ref) (player : ref) : M unit :=
  let* o := deref self in
  match o with
  | OWizard z =>
      let* h := get_health player in
      run set_health player (h + healing_power z) then
      let* d := get_damage player in
      set_damage player (d + bonus_damage z)
  | _ => raise AttributeError
  end.
End Wizard.

(** ** door.py: Door (its [interact] comes after Player, whose
    [change_room] it calls) *)

Module Door.
Definition new (description : string) (connected_room opposite_room : ref) : M addr :=
  alloc (ODoor (mkDoor description connected_room opposite_room)).

Definition inspect (self : Door) : string := door_description self.

(** Rooms are written as ids, not as rooms. *)
Definition toJSON (self : Door) : DoorJSON :=
  {| j_door_description := door_description self;
     connected_room_id := id (connected_room self);
     opposite_room_id := id (opposite_room self) |}.

(** [room_dict.get(...)] gives None for an id that is not a key. *)
Definition fromJSON (json_data : DoorJSON) (room_dict : list (Z * addr)) : M addr :=
  let connected_room := dict_get (connected_room_id json_data) room_dict in
  let opposite_room := dict_get (opposite_room_id json_data) room_dict in
  new (j_door_description json_data) connected_room opposite_room.
End Door.

(** ** room.py: Room and Player *)

Module Room.
(** [Room(description=...)]: empty lists, then [self.room_id = id(self)]. *)
Definition new (description : string) : M addr :=
  let* self := alloc (ORoom (mkRoom description [] [] 0)) in
  run store self (ORoom (mkRoom description [] [] (id (Some self)))) then
  ret self.

(** The method call [item.toJSON()] on the items of the two lists. *)
Definition door_toJSON (door : addr) : M DoorJSON :=
  let* o := deref (Some door) in
  match o with
  | ODoor d => ret (Door.toJSON d)
  | _ => raise IllFormedStore
  end.

Definition npc_toJSON (npc : addr) : M jobject :=
  let* o := deref (Some npc) in
  match o with
  | ONPC n => ret (NPC.toJSON n)
  | OEnemy e => ret (Enemy.toJSON e)
  | OWizard z => ret (Wizard.toJSON z)
  | _ => raise IllFormedStore
  end.

Definition toJSON (self : ref) : M RoomJSON :=
  let* r := get_room self in
  let* ds := map_M door_toJSON (doors r) in
  let* ns := map_M npc_toJSON (npcs r) in
  ret {| j_room_description := room_description r;
         j_room_id := room_id r;
         j_doors := ds;
         j_npcs := ns |}.

Definition add_door (self : ref) (door : addr) : M unit :=
  let* r := get_room self in
  match self with
  | Some a => store a (ORoom (mkRoom (room_description r) (doors r ++ [door]) (npcs r) (room_id r)))
  | None => raise AttributeError
  end.

Definition add_npc (self : ref) (npc : addr) : M unit :=
  let* r := get_room self in
  match self with
  | Some a => store a (ORoom (mkRoom (room_description r) (doors r) (npcs r ++ [npc]) (room_id r)))
  | None => raise AttributeError
  end.

(** The ["doors"] member is not read: the room gets an empty list. *)
Definition fromJSON (json_data : RoomJSON) : M addr :=
  let* room := new (j_room_description json_data) in
  run store room (ORoom (mkRoom (j_room_description json_data) [] [] (j_room_id json_data))) then
  let* ns := map_M NPC.fromJSON (j_npcs json_data) in
  run store room (ORoom (mkRoom (j_room_description json_data) [] ns (j_room_id json_data))) then
  ret room.

Definition inspect (self : Room) : string :=
  room_description self ++ ". The room has " ++ pretty (List.length (doors self))
    ++ " doors and " ++ pretty (List.length (npcs self)) ++ " NPCs.".
End Room.

(** [x.inspect()]: Room, Door and the three NPC classes are Inspectable. *)
Definition inspect (x : ref) : M string :=
  let* o := deref x in
  match o with
  | ORoom r => ret (Room.inspect r)
  | ODoor d => ret (Door.inspect d)
  | ONPC n => ret (NPC.inspect n)
  | OEnemy e => ret (enemy_description e)
  | OWizard z => ret (wizard_description z)
  | OPlayer _ => raise AttributeError
  end.

Module Player.
(** The field [current_room] is declared a Room. *)
Definition new (name : string) (current_room : ref) (health damage : Z) : M addr :=
  fun w =>
    match current_room with
    | Some a =>
        match objects w !! a with
        | Some (ORoom _) => alloc (OPlayer (mkPlayer name current_room health damage)) w
        | Some _ => (Raise ValidationError, w)
        | None => (Raise IllFormedStore, w)
        end
    | None => (Raise ValidationError, w)
    end.

Definition toJSON (self : ref) : M PlayerJSON :=
  let* p := get_player self in
  let* o := deref (current_room p) in
  match o with
  | ORoom _ =>
      let* r := Room.toJSON (current_room p) in
      ret {| j_name := name p;
             j_current_room := r;
             j_health := player_health p;
             j_damage := player_damage p |}
  | _ => raise IllFormedStore
  end.

(** The player's room is decoded from its own embedded snapshot. *)
Definition fromJSON (json_data : PlayerJSON) : M addr :=
  let* room := Room.fromJSON (j_current_room json_data) in
  new (j_name json_data) (Some room) (j_health json_data) (j_damage json_data).

(** The assignment is done before the message is built. *)
Definition change_room (self : ref) (new_room : ref) : M unit :=
  let* p := get_player self in
  match self with
  | Some a =>
      run store a (OPlayer (mkPlayer (name p) new_room (player_health p) (player_damage p))) then
      run inspect new_room then
      ret tt
  | None => raise AttributeError
  end.

Definition get_name (self : Player) : string := name self.
End Player.

(** [Door.interact] *)
Definition Door_interact (self : ref) (player : ref) : M unit :=
  let* o := deref self in
  match o with
  | ODoor d =>
      let* p := get_player player in
      fun w =>
        if py_eq (objects w) (current_room p) (opposite_room d)
        then Player.change_room player (connected_room d) w
        else Player.change_room player (opposite_room d) w
  | _ => raise AttributeError
  end.

(** [x.interact(player)]: Door has its own; NPC, Enemy and Wizard share
    [NPC.interact], which only prints a message; Room and Player have
    none. *)
Definition interact (x : ref) (player : ref) : M unit :=
  let* o := deref x in
  match o with
  | ODoor _ => Door_interact x player
  | ONPC _ | OEnemy _ | OWizard _ => ret tt
  | ORoom _ | OPlayer _ => raise AttributeError
  end.

(** ** io_utils.py: Scanner and Game *)

Module Scanner.
(** The next integer typed by the user. *)
Definition read_int : M Z :=
  fun w =>
    (Ok (stdin w (stdin_pos w)),
     mkWorld (objects w) (rand w) (rand_pos w) (stdin w) (S (stdin_pos w))).
End Scanner.

Record Game := mkGame {
  rooms : list (Z * addr);
  player : addr }.

Module Game.
(** [Game()]: two rooms, two doors seen from both rooms, five NPCs. *)
Definition new : M Game :=
  let* initial_room := Room.new "A dusty room full of old computers." in
  let* second_room := Room.new "A dark room with dark doors." in
  let* r1 := get_room (Some initial_room) in
  let rooms := dict_set (room_id r1) initial_room [] in
  let* r2 := get_room (Some second_room) in
  let rooms := dict_set (room_id r2) second_room rooms in
  let* player := Player.new "Matthew" (Some initial_room) 100 20 in
  let* door1 := Door.new "A mysterious red door." (Some second_room) (Some initial_room) in
  let* door2 := Door.new "A black door with a keypad." (Some second_room) (Some initial_room) in
  run Room.add_door (Some initial_room) door1 then
  run Room.add_door (Some initial_room) door2 then
  run Room.add_door (Some second_room) door1 then
  run Room.add_door (Some second_room) door2 then
  let* npc1 := NPC.new "A suspiciously happy looking orc" in
  let* npc2 := Enemy.new "A fierce goblin" 50 15 in
  let* npc3 := NPC.new "The kerstman" in
  let* npc4 := Enemy.new "A dangerous vampire" 60 100 in
  let* wizard := Wizard.new "A wise old wizard" 10 30 in
  run Room.add_npc (Some initial_room) npc1 then
  run Room.add_npc (Some initial_room) npc2 then
  run Room.add_npc (Some second_room) npc3 then
  run Room.add_npc (Some second_room) npc4 then
  run Room.add_npc (Some second_room) wizard then
  ret (mkGame rooms player).

Definition toJSON (self : Game) : M GameJSON :=
  let* rs := map_M (fun '(room_id, room) =>
                      let* j := Room.toJSON (Some room) in
                      ret (room_id, j))
                   (rooms self) in
  let* p := Player.toJSON (Some (player self)) in
  ret {| j_rooms := rs; j_player := p |}.

(** First loop of [fromJSON]: one room per entry, registered under its
    [room_id]. *)
Fixpoint load_rooms (room_datas : list RoomJSON) (rooms : list (Z * addr))
  : M (list (Z * addr)) :=
  match room_datas with
  | [] => ret rooms
  | room_data :: rest =>
      let* room := Room.fromJSON room_data in
      let* r := get_room (Some room) in
      load_rooms rest (dict_set (room_id r) room rooms)
  end.

(** Second loop: it walks the doors of the decoded rooms and reads
    [door.connected_room_id], an attribute that no object has. *)
Definition resolve_doors (rooms : list (Z * addr)) : M unit :=
  for_each (dict_values rooms) (fun room =>
    let* r := get_room (Some room) in
    for_each (doors r) (fun door =>
      run deref (Some door) then
      raise AttributeError)).

Definition fromJSON (json_data : GameJSON) : M Game :=
  let* rooms := load_rooms (dict_values (j_rooms json_data)) [] in
  run resolve_doors rooms then
  let* player := Player.fromJSON (j_player json_data) in
  ret (mkGame rooms player).

(** [self.player.current_room.npcs.remove(enemy)] *)
Definition remove_npc (self : Game) (enemy : addr) : M unit :=
  let* p := get_player (Some (player self)) in
  let* r := get_room (current_room p) in
  fun w =>
    match current_room p, list_remove (objects w) enemy (npcs r) with
    | Some a, Some l =>
        store a (ORoom (mkRoom (room_description r) (doors r) l (room_id r))) w
    | Some _, None => (Raise ValueError, w)
    | None, _ => (Raise AttributeError, w)
    end.

(** One turn of the loop of [combat]; the result tells whether the loop
    goes on ([false] after [break]). *)
Definition combat_turn (self : Game) (enemy : addr) : M bool :=
  let* choice := Scanner.read_int in
  if choice =? 0 then
    run Combat.attack (Some (player self)) (Some enemy) then
    let* alive := Combat.is_alive (Some enemy) in
    if alive then
      run Combat.attack (Some enemy) (Some (player self)) then
      ret true
    else
      run get_description (Some enemy) then
      run remove_npc self enemy then
      ret true
  else if choice =? 1 then ret false
  else ret true.

(** [while self.player.is_alive() and enemy.is_alive()] *)
Definition combat_guard (self : Game) (enemy : addr) : M bool :=
  let* a := Combat.is_alive (Some (player self)) in
  if a then Combat.is_alive (Some enemy) else ret false.

(** The loop, with a bound on the number of turns; [None] when the
    guard still holds after [fuel] turns. *)
Fixpoint combat_loop (fuel : nat) (self : Game) (enemy : addr) (w : World)
  : option (outcome unit * World) :=
  match combat_guard self enemy w with
  | (Raise e, w1) => Some (Raise e, w1)
  | (Ok false, w1) => Some (Ok tt, w1)
  | (Ok true, w1) =>
      match fuel with
      | O => None
      | S fuel' =>
          match combat_turn self enemy w1 with
          | (Raise e, w2) => Some (Raise e, w2)
          | (Ok false, w2) => Some (Ok tt, w2)
          | (Ok true, w2) => combat_loop fuel' self enemy w2
          end
      end
  end.

Definition combat (fuel : nat) (self : Game) (enemy : addr) (w : World)
  : option (outcome unit * World) :=
  match get_description (Some enemy) w with
  | (Raise e, w1) => Some (Raise e, w1)
  | (Ok _, w1) => combat_loop fuel self enemy w1
  end.

(** [for index, item in enumerate(items): print(... item.inspect() ...)] *)
Definition show_items (items : list addr) : M unit :=
  for_each items (fun item => run inspect (Some item) then ret tt).

(** [0 <= choice < len(items)] *)
Definition in_range (choice : Z) (items : list addr) : bool :=
  (0 <=? choice) && (choice <? Z.of_nat (List.length items)).

(** A room without doors is left before any input is asked for; a choice
    outside of the list only prints a message. *)
Definition look_for_way_out (self : Game) : M unit :=
  let* p := get_player (Some (player self)) in
  let* r := get_room (current_room p) in
  match doors r with
  | [] => ret tt
  | _ :: _ =>
      run show_items (doors r) then
      let* choice := Scanner.read_int in
      if in_range choice (doors r) then
        match doors r !! Z.to_nat choice with
        | Some door => interact (Some door) (Some (player self))
        | None => raise IllFormedStore
        end
      else ret tt
  end.

(** An enemy is fought, a wizard gives its bonus; for an NPC of any other
    class neither branch of the [isinstance] test is taken. *)
Definition look_for_company (fuel : nat) (self : Game) (w : World)
  : option (outcome unit * World) :=
  match (let* p := get_player (Some (player self)) in get_room (current_room p)) w with
  | (Raise e, w1) => Some (Raise e, w1)
  | (Ok r, w1) =>
      match npcs r with
      | [] => Some (Ok tt, w1)
      | _ :: _ =>
          match (run show_items (npcs r) then Scanner.read_int) w1 with
          | (Raise e, w2) => Some (Raise e, w2)
          | (Ok choice, w2) =>
              if in_range choice (npcs r) then
                match npcs r !! Z.to_nat choice with
                | Some npc =>
                    match objects w2 !! npc with
                    | Some (OEnemy _) => combat fuel self npc w2
                    | Some (OWizard _) =>
                        Some ((run Wizard.give_bonus (Some npc) (Some (player self)) then
                               interact (Some npc) (Some (player self))) w2)
                    | Some _ => Some (Ok tt, w2)
                    | None => Some (Raise IllFormedStore, w2)
                    end
                | None => Some (Raise IllFormedStore, w2)
                end
              else Some (Ok tt, w2)
          end
      end
  end.

(** [isinstance(npc, Enemy) and npc.description == "A dangerous vampire"
    and not npc.is_alive()] *)
Definition is_defeated_vampire (o : obj) : bool :=
  match o with
  | OEnemy e =>
      String.eqb (enemy_description e) "A dangerous vampire" && negb (0 <? enemy_health e)
  | _ => false
  end.

(** A loop that sets a flag and breaks at the first item that passes
    the test. *)
Fixpoint any_M {A} (test : A -> M bool) (l : list A) : M bool :=
  match l with
  | [] => ret false
  | x :: l' => let* b := test x in if b then ret true else any_M test l'
  end.

(** The test that [main_loop] makes after each menu action: is a dead
    vampire listed in one of the rooms of the room table? *)
Definition vampire_defeated (self : Game) : M bool :=
  any_M (fun room =>
           let* r := get_room (Some room) in
           any_M (fun npc =>
                    let* o := deref (Some npc) in
                    ret (is_defeated_vampire o))
                 (npcs r))
        (dict_values (rooms self)).
End Game.

(** ** A world to start from *)

Definition empty_world (rnd inp : nat -> Z) : World :=
  mkWorld [] rnd 0 inp 0.

(** The world of the unit tests: Room 1 with a goblin, Room 2 with a
    wizard, and the hero in Room 1. *)
Definition test_objects (enemy_hp enemy_dmg hero_hp hero_dmg : Z) : heap :=
  [ ORoom (mkRoom "Room 1" [] [2%nat] 0);
    ORoom (mkRoom "Room 2" [] [3%nat] 1);
    OEnemy (mkEnemy "Goblin" enemy_hp enemy_dmg);
    OWizard (mkWizard "Old Wizard" 10 30);
    OPlayer (mkPlayer "Hero" (Some 0%nat) hero_hp hero_dmg) ].

Definition test_world (enemy_hp enemy_dmg hero_hp hero_dmg : Z) : World :=
  mkWorld (test_objects enemy_hp enemy_dmg hero_hp hero_dmg) (fun _ => 0) 0 (fun _ => 0) 0.

(** The world right after [Game()], for any random draws and inputs. *)
Definition initial_objects : list obj :=
  Eval vm_compute in objects (snd (Game.new (empty_world (fun _ => 0) (fun _ => 0)))).

Definition initial_world (rnd inp : nat -> Z) : World :=
  mkWorld initial_objects rnd 0 inp 0.

Definition initial_game : Game := mkGame [(0, 0%nat); (1, 1%nat)] 2%nat.

(** ** Observations used to state the properties *)

(** The room a player object is in. *)
Definition player_room (w : World) (player : addr) : option ref :=
  match objects w !! player with
  | Some (OPlayer p) => Some (current_room p)
  | _ => None
  end.

(** The world in which the player [p] stored at [player] has been moved
    to [r] and nothing else has changed. *)
Definition move_player (player : addr) (p : Player) (r : ref) (w : World) : World :=
  with_objects
    (<[player := OPlayer (mkPlayer (name p) r (player_health p) (player_damage p))]> (objects w))
    w.

(** The description that [NPC.fromJSON] accepts from a serialized NPC:
    the member ["description"], when it is there and is a string. *)
Definition npc_description (json_data : jobject) : option string :=
  match json_data !! "description" with
  | Some (JStr s) => Some s
  | _ => None
  end.

(** A serialized room whose NPC entries all carry a description. *)
Definition npcs_well_formed (room_data : RoomJSON) : Prop :=
  Forall (fun j => is_Some (npc_description j)) (j_npcs room_data).

Definition snapshot_well_formed (json_data : GameJSON) : Prop :=
  Forall npcs_well_formed (dict_values (j_rooms json_data))
  /\ npcs_well_formed (j_current_room (j_player json_data)).

(** The decoder only creates objects: the store grows at its end, and
    neither the random draws nor the inputs are consumed. *)
Definition extends (w w' : World) : Prop :=
  objects w `prefix_of` objects w'
  /\ rand w' = rand w /\ rand_pos w' = rand_pos w
  /\ stdin w' = stdin w /\ stdin_pos w' = stdin_pos w.

(** The room that [Room.fromJSON] builds, once its NPCs are at [ns]. *)
Definition decoded_room (room_data : RoomJSON) (ns : list addr) : obj :=
  ORoom (mkRoom (j_room_description room_data) [] ns (j_room_id room_data)).

(** Every room registered in a room table is a room without doors. *)
Definition no_doors (rooms : list (Z * addr)) (w : World) : Prop :=
  forall k a, (k, a) ∈ rooms ->
    exists r, objects w !! a = Some (ORoom r) /\ doors r = [].

(** The ids under which the rooms of a snapshot are registered by the
    decoder: the ["room_id"] of each entry. *)
Definition snapshot_room_ids (json_data : GameJSON) : list Z :=
  map j_room_id (dict_values (j_rooms json_data)).

(** The second room of [Game()], as [Room.toJSON] writes it. *)
Definition second_room_json : RoomJSON :=
  {| j_room_description := "A dark room with dark doors.";
     j_room_id := 1;
     j_doors := [ mkDoorJSON "A mysterious red door." 1 0;
                  mkDoorJSON "A black door with a keypad." 1 0 ];
     j_npcs := [ NPC.toJSON (mkNPC "The kerstman");
                 Enemy.toJSON (mkEnemy "A dangerous vampire" 60 100);
                 Wizard.toJSON (mkWizard "A wise old wizard" 10 30) ] |}.

Definition initial_room_json : RoomJSON :=
  {| j_room_description := "A dusty room full of old computers.";
     j_room_id := 0;
     j_doors := [ mkDoorJSON "A mysterious red door." 1 0;
                  mkDoorJSON "A black door with a keypad." 1 0 ];
     j_npcs := [ NPC.toJSON (mkNPC "A suspiciously happy looking orc");
                 Enemy.toJSON (mkEnemy "A fierce goblin" 50 15) ] |}.

(** The snapshot of [Game()]. *)
Definition initial_snapshot : GameJSON :=
  {| j_rooms := [(0, initial_room_json); (1, second_room_json)];
     j_player := mkPlayerJSON "Matthew" initial_room_json 100 20 |}.

(** The doors of a room, each as the pair of ids that [Door.toJSON]
    writes for its two ends. *)
Definition door_endpoint_pairs (w : World) (room : addr) : option (list (Z * Z)) :=
  match objects w !! room with
  | Some (ORoom r) =>
      mapM (fun door =>
              match objects w !! door with
              | Some (ODoor d) => Some (id (connected_room d), id (opposite_room d))
              | _ => None
              end)
           (doors r)
  | _ => None
  end.

(** A snapshot with one room, whose door leads to a room id (7) that
    the snapshot does not have. *)
Definition dangling_door : DoorJSON := mkDoorJSON "A door to nowhere." 7 0.

Definition dangling_room_json : RoomJSON :=
  {| j_room_description := "A lonely room.";
     j_room_id := 0;
     j_doors := [dangling_door];
     j_npcs := [] |}.

Definition dangling_snapshot : GameJSON :=
  {| j_rooms := [(0, dangling_room_json)];
     j_player := mkPlayerJSON "Matthew" dangling_room_json 100 20 |}.

(** The room that [Door.interact] sends the player [p] to. *)
Definition door_target (w : World) (p : Player) (d : Door) : ref :=
  if py_eq (objects w) (current_room p) (opposite_room d)
  then connected_room d else opposite_room d.

(** Two rooms that are equal without being the same room, the player in
    the second, and a door from the second to the first. *)
Definition twin_rooms_world : World :=
  mkWorld
    [ ORoom (mkRoom "A lonely room." [] [] 0);
      ORoom (mkRoom "A lonely room." [] [] 0);
      OPlayer (mkPlayer "Matthew" (Some 1%nat) 100 20);
      ODoor (mkDoor "A new door." (Some 0%nat) (Some 1%nat)) ]
    (fun _ => 0) 0 (fun _ => 0) 0.

(** ** Observations on one attack *)

(** The world once the generator has been asked for one number. *)
Definition after_draw (w : World) : World :=
  mkWorld (objects w) (rand w) (S (rand_pos w)) (stdin w) (stdin_pos w).

(** The number that [random.randint(low, high)] returns in [w]. *)
Definition drawn (w : World) (low high : Z) : Z :=
  low + rand w (rand_pos w) mod (high + 1 - low).

(** The world after a hit: one number has been drawn and the target
    [ot], stored at [target] with health [ht], has lost [dealt]. *)
Definition after_hit (w : World) (target : addr) (ot : obj) (ht dealt : Z) : World :=
  with_objects (<[target := obj_set_health (ht - dealt) ot]> (objects w)) (after_draw w).

(** The same world with another sequence of random draws. *)
Definition with_rand (rnd : nat -> Z) (w : World) : World :=
  mkWorld (objects w) rnd (rand_pos w) (stdin w) (stdin_pos w).

(** The world once one input has been read. *)
Definition after_input (w : World) : World :=
  mkWorld (objects w) (rand w) (rand_pos w) (stdin w) (S (stdin_pos w)).

(** The world in which the room [r] stored at [room] is left with the
    NPCs [survivors] and nothing else has changed. *)
Definition after_removal (w : World) (room : addr) (r : Room) (survivors : list addr) : World :=
  with_objects
    (<[room := ORoom (mkRoom (room_description r) (doors r) survivors (room_id r))]>
       (objects w))
    w.

(** The world after a turn in which the enemy has survived the player's
    attack and has hit back. *)
Definition after_exchange
  (w : World) (player : addr) (p : Player) (enemy : addr) (e : Enemy)
  (dealt dealt_back : Z) : World :=
  mkWorld
    (<[player := OPlayer (mkPlayer (name p) (current_room p)
                            (player_health p - dealt_back) (player_damage p))]>
       (<[enemy := OEnemy (mkEnemy (enemy_description e) (enemy_health e - dealt)
                             (enemy_damage e))]>
          (objects w)))
    (rand w) (S (S (rand_pos w))) (stdin w) (S (stdin_pos w)).

(** A room with two goblins, the first of which is already dead (it was
    hit outside of any combat, as the unit tests do with [take_damage]). *)
Definition two_goblins_world : World :=
  mkWorld
    [ ORoom (mkRoom "Room 1" [] [1%nat; 2%nat; 3%nat] 0);
      OEnemy (mkEnemy "Goblin" 0 10);
      ONPC (mkNPC "Bystander");
      OEnemy (mkEnemy "Goblin" 16 10);
      OPlayer (mkPlayer "Hero" (Some 0%nat) 100 20) ]
    (fun _ => 0) 0 (fun _ => 0) 0.

(** The world of [Game()] during the fight of the player with the goblin:
    the player has health [hp], the goblin health [he], and the initial
    room lists the goblin or no longer does. *)
Definition fight_objects (hp he : Z) (listed : bool) : list obj :=
  <[0%nat := ORoom (mkRoom "A dusty room full of old computers." [3%nat; 4%nat]
                      (if listed then [5%nat; 6%nat] else [5%nat]) 0)]>
    (<[2%nat := OPlayer (mkPlayer "Matthew" (Some 0%nat) hp 20)]>
       (<[6%nat := OEnemy (mkEnemy "A fierce goblin" he 15)]> initial_objects)).

Definition fight_world (rnd inp : nat -> Z) (hp he : Z) (listed : bool) (i j : nat) : World :=
  mkWorld (fight_objects hp he listed) rnd i inp j.

(** The bound of the scenario: ceil(50/16) + ceil(100/12) rounds. *)
Definition scenario_rounds : nat :=
  Z.to_nat ((50 + 16 - 1) / 16 + (100 + 12 - 1) / 12).

(** ** Observations on a decoded game *)

(** Where [Player.fromJSON] puts the player: after the player's room and
    the NPCs of that room. *)
Definition decoded_player_addr (json_data : PlayerJSON) (w : World) : addr :=
  (S (List.length (objects w)) + List.length (j_npcs (j_current_room json_data)))%nat.

(** The world that [Player.fromJSON] leaves: the room decoded from the
    embedded copy, its NPCs, which carry the descriptions [descs], and
    the player. *)
Definition decoded_player_world (json_data : PlayerJSON) (descs : list string) (w : World)
  : World :=
  with_objects
    (objects w
     ++ decoded_room (j_current_room json_data)
          (seq (S (List.length (objects w)))
               (List.length (j_npcs (j_current_room json_data))))
        :: map (fun d => ONPC (mkNPC d)) descs
     ++ [OPlayer (mkPlayer (j_name json_data) (Some (List.length (objects w)))
                    (j_health json_data) (j_damage json_data))])
    w.

(** ** Observations on signed floats *)

(** The float [f] with the sign [s]. *)
Definition with_sign (s : bool) (f : spec_float) : spec_float :=
  match f with
  | S754_zero _ => S754_zero s
  | S754_infinity _ => S754_infinity s
  | S754_nan => S754_nan
  | S754_finite _ m e => S754_finite s m e
  end.

(** ** Worlds of the properties of the combat loop *)

(** The world of [Game()] once the player has gone to the second room,
    with the vampire down to 16 health. *)
Definition vampire_fight_world : World :=
  mkWorld
    (<[2%nat := OPlayer (mkPlayer "Matthew" (Some 1%nat) 100 20)]>
       (<[8%nat := OEnemy (mkEnemy "A dangerous vampire" 16 100)]> initial_objects))
    (fun _ => 0) 0 (fun _ => 0) 0.

(** The world once a turn has been played in which nobody was hurt: two
    numbers have been drawn and one choice has been read. *)
Definition after_idle_turn (w : World) : World :=
  mkWorld (objects w) (rand w) (S (S (rand_pos w))) (stdin w) (S (stdin_pos w)).

(** The error that [NPC.fromJSON] raises for an entry it cannot read:
    KeyError when the member ["description"] is missing, a validation
    error when it is not a string. *)
Definition unreadable_entry_error (json_data : jobject) : exn :=
  match json_data !! "description" with
  | None => KeyError "description"
  | Some _ => ValidationError
  end.

(** ** Observations on the menus *)

(** The world in which the player [p] stored at [player] has received
    the bonus of the wizard [z]. *)
Definition after_bonus (w : World) (player : addr) (p : Player) (z : Wizard) : World :=
  with_objects
    (<[player := OPlayer (mkPlayer (name p) (current_room p)
                            (player_health p + healing_power z)
                            (player_damage p + bonus_damage z))]> (objects w))
    w.

(** A room that lists an orc that is already dead (1), a bystander (2),
    a goblin with 16 health (3) and a wizard (4); the hero (5) is in that
    room. *)
Definition orc_world : World :=
  mkWorld
    [ ORoom (mkRoom "Room 1" [] [1%nat; 2%nat; 3%nat; 4%nat] 0);
      OEnemy (mkEnemy "Orc" 0 10);
      ONPC (mkNPC "Bystander");
      OEnemy (mkEnemy "Goblin" 16 10);
      OWizard (mkWizard "Old Wizard" 10 30);
      OPlayer (mkPlayer "Hero" (Some 0%nat) 100 20) ]
    (fun _ => 0) 0 (fun _ => 0) 0.

(** * Properties *)

(** ** The monad *)

Lemma Game_new_initial (rnd inp : nat -> Z) :
  Game.new (empty_world rnd inp) = (Ok initial_game, initial_world rnd inp).
Proof. reflexivity. Qed.

Lemma bind_Ok {A B} (m : M A) (k : A -> M B) w a w' :
  m w = (Ok a, w') -> bind m k w = k a w'.
Proof. intros H. unfold bind. now rewrite H. Qed.

Lemma bind_Raise {A B} (m : M A) (k : A -> M B) w e w' :
  m w = (Raise e, w') -> bind m k w = (Raise e, w').
Proof. intros H. unfold bind. now rewrite H. Qed.

Lemma deref_Some w a o :
  objects w !! a = Some o -> deref (Some a) w = (Ok o, w).
Proof. intros H. unfold deref. now rewrite H. Qed.

Lemma get_health_Some w a o h :
  objects w !! a = Some o -> obj_health o = Some h ->
  get_health (Some a) w = (Ok h, w).
Proof.
  intros Ho Hh. unfold get_health.
  rewrite (bind_Ok _ _ _ _ _ (deref_Some _ _ _ Ho)). now rewrite Hh.
Qed.

Lemma get_health_None w a o :
  objects w !! a = Some o -> obj_health o = None ->
  get_health (Some a) w = (Raise AttributeError, w).
Proof.
  intros Ho Hh. unfold get_health.
  rewrite (bind_Ok _ _ _ _ _ (deref_Some _ _ _ Ho)). now rewrite Hh.
Qed.

Lemma get_damage_Some w a o d :
  objects w !! a = Some o -> obj_damage o = Some d ->
  get_damage (Some a) w = (Ok d, w).
Proof.
  intros Ho Hd. unfold get_damage.
  rewrite (bind_Ok _ _ _ _ _ (deref_Some _ _ _ Ho)). now rewrite Hd.
Qed.

Lemma set_health_Some w a o h h' :
  objects w !! a = Some o -> obj_health o = Some h ->
  set_health (Some a) h' w
  = (Ok tt, with_objects (<[a := obj_set_health h' o]> (objects w)) w).
Proof.
  intros Ho Hh. unfold set_health.
  rewrite (bind_Ok _ _ _ _ _ (deref_Some _ _ _ Ho)). now rewrite Hh.
Qed.

Lemma set_damage_Some w a o d d' :
  objects w !! a = Some o -> obj_damage o = Some d ->
  set_damage (Some a) d' w
  = (Ok tt, with_objects (<[a := obj_set_damage d' o]> (objects w)) w).
Proof.
  intros Ho Hd. unfold set_damage.
  rewrite (bind_Ok _ _ _ _ _ (deref_Some _ _ _ Ho)). now rewrite Hd.
Qed.

Lemma get_player_Some w a p :
  objects w !! a = Some (OPlayer p) -> get_player (Some a) w = (Ok p, w).
Proof.
  intros H. unfold get_player. now rewrite (bind_Ok _ _ _ _ _ (deref_Some _ _ _ H)).
Qed.

Lemma get_room_Some w a r :
  objects w !! a = Some (ORoom r) -> get_room (Some a) w = (Ok r, w).
Proof.
  intros H. unfold get_room. now rewrite (bind_Ok _ _ _ _ _ (deref_Some _ _ _ H)).
Qed.

Lemma is_alive_Some w a o h :
  objects w !! a = Some o -> obj_health o = Some h ->
  Combat.is_alive (Some a) w = (Ok (0 <? h), w).
Proof.
  intros Ho Hh. unfold Combat.is_alive.
  now rewrite (bind_Ok _ _ _ _ _ (get_health_Some _ _ _ _ Ho Hh)).
Qed.

(** ** Combat *)

(** C8: a combatant whose health is not positive does nothing when it
    attacks: the world, and with it the target's health, is unchanged and
    no random draw is made.  The test is the first statement of [attack]. *)
Theorem attack_not_alive_no_effect (w : World) (self : addr) (target : ref) (o : obj) (h : Z) :
  objects w !! self = Some o ->
  obj_health o = Some h ->
  h <= 0 ->
  Combat.attack (Some self) target w = (Ok tt, w).
Proof.
  intros Ho Hh Hle. unfold Combat.attack.
  rewrite (bind_Ok _ _ _ _ _ (is_alive_Some _ _ _ _ Ho Hh)).
  destruct (0 <? h) eqn:E; [apply Z.ltb_lt in E; lia | reflexivity].
Qed.

Lemma attack_not_alive_no_effect_witness :
  Combat.attack (Some 2%nat) (Some 4%nat) (test_world 0 10 100 20)
  = (Ok tt, test_world 0 10 100 20).
Proof.
  apply (attack_not_alive_no_effect (test_world 0 10 100 20) 2%nat (Some 4%nat)
           (OEnemy (mkEnemy "Goblin" 0 10)) 0); [reflexivity | reflexivity | lia].
Defined.

(** ** The wizard's buff *)

Lemma give_bonus_once (w : World) (wizard player : addr) (z : Wizard) (p : Player) :
  objects w !! wizard = Some (OWizard z) ->
  objects w !! player = Some (OPlayer p) ->
  Wizard.give_bonus (Some wizard) (Some player) w
  = (Ok tt,
     with_objects
       (<[player := OPlayer (mkPlayer (name p) (current_room p)
                               (player_health p + healing_power z)
                               (player_damage p + bonus_damage z))]> (objects w)) w).
Proof.
  intros Hz Hp. unfold Wizard.give_bonus.
  rewrite (bind_Ok _ _ _ _ _ (deref_Some _ _ _ Hz)).
  rewrite (bind_Ok _ _ _ _ _ (get_health_Some _ _ _ _ Hp eq_refl)).
  rewrite (bind_Ok _ _ _ _ _ (set_health_Some _ _ _ _ _ Hp eq_refl)).
  pose proof (lookup_lt_Some _ _ _ Hp) as Hlt.
  set (w1 := with_objects _ w).
  assert (H1 : objects w1 !! player
               = Some (obj_set_health (player_health p + healing_power z) (OPlayer p))).
  { apply list_lookup_insert_eq, Hlt. }
  rewrite (bind_Ok _ _ _ _ _ (get_damage_Some _ _ _ _ H1 eq_refl)).
  rewrite (set_damage_Some _ _ _ _ _ H1 eq_refl).
  subst w1. unfold with_objects. cbn. now rewrite list_insert_insert_eq.
Qed.

(** C7: the buff is exactly [player.health += healing_power] and
    [player.damage += bonus_damage]: the store after the call is the store
    before it with the player's two fields incremented, so the wizard and
    every other object are as they were; a second call by the same wizard
    adds the increments again. *)
Theorem give_bonus_increments_each_time
  (w : World) (wizard player : addr) (z : Wizard) (p : Player) :
  objects w !! wizard = Some (OWizard z) ->
  objects w !! player = Some (OPlayer p) ->
  let buffed (n : Z) :=
    OPlayer (mkPlayer (name p) (current_room p)
               (player_health p + n * healing_power z)
               (player_damage p + n * bonus_damage z)) in
  let w1 := with_objects (<[player := buffed 1]> (objects w)) w in
  let w2 := with_objects (<[player := buffed 2]> (objects w)) w in
  Wizard.give_bonus (Some wizard) (Some player) w = (Ok tt, w1)
  /\ Wizard.give_bonus (Some wizard) (Some player) w1 = (Ok tt, w2)
  /\ objects w1 !! wizard = Some (OWizard z)
  /\ objects w2 !! wizard = Some (OWizard z).
Proof.
  intros Hz Hp buffed w1 w2.
  pose proof (lookup_lt_Some _ _ _ Hp) as Hlt.
  assert (Hne : player <> wizard) by (intros ->; congruence).
  assert (Hz1 : objects w1 !! wizard = Some (OWizard z)).
  { cbn. now rewrite list_lookup_insert_ne. }
  assert (Hz2 : objects w2 !! wizard = Some (OWizard z)).
  { cbn. now rewrite list_lookup_insert_ne. }
  repeat split; trivial.
  - rewrite (give_bonus_once w wizard player z p Hz Hp).
    subst w1 buffed. cbn. now rewrite !Z.mul_1_l.
  - assert (Hp1 : objects w1 !! player = Some (buffed 1)).
    { cbn. now apply list_lookup_insert_eq. }
    rewrite (give_bonus_once w1 wizard player z _ Hz1 Hp1).
    subst w1 w2 buffed. unfold with_objects. cbn.
    rewrite list_insert_insert_eq.
    replace (player_health p + 1 * healing_power z + healing_power z)
      with (player_health p + 2 * healing_power z) by lia.
    replace (player_damage p + 1 * bonus_damage z + bonus_damage z)
      with (player_damage p + 2 * bonus_damage z) by lia.
    reflexivity.
Qed.

Lemma give_bonus_increments_each_time_witness :
  let hero h d := OPlayer (mkPlayer "Hero" (Some 0%nat) h d) in
  let w := test_world 50 10 100 20 in
  let w1 := with_objects (<[4%nat := hero 130 30]> (objects w)) w in
  let w2 := with_objects (<[4%nat := hero 160 40]> (objects w)) w in
  Wizard.give_bonus (Some 3%nat) (Some 4%nat) w = (Ok tt, w1)
  /\ Wizard.give_bonus (Some 3%nat) (Some 4%nat) w1 = (Ok tt, w2)
  /\ objects w1 !! 3%nat = Some (OWizard (mkWizard "Old Wizard" 10 30))
  /\ objects w2 !! 3%nat = Some (OWizard (mkWizard "Old Wizard" 10 30)).
Proof.
  exact (give_bonus_increments_each_time (test_world 50 10 100 20) 3%nat 4%nat
           (mkWizard "Old Wizard" 10 30) (mkPlayer "Hero" (Some 0%nat) 100 20)
           eq_refl eq_refl).
Defined.

(** ** Construction of an enemy *)

(** C5, as the code has it: the constructor of Enemy validates [health]
    and nothing else.  It fails with a validation error when
    [health <= 0]; when [health > 0] it succeeds and creates the enemy
    with the damage it was given, whatever that damage is. *)
Theorem Enemy_new_validates_health (description : string) (health damage : Z) (w : World) :
  (health <= 0 -> Enemy.new description health damage w = (Raise ValidationError, w))
  /\ (0 < health ->
      Enemy.new description health damage w
      = (Ok (List.length (objects w)),
         with_objects (objects w ++ [OEnemy (mkEnemy description health damage)]) w)).
Proof.
  unfold Enemy.new, Enemy.validate_health, bind, lift, alloc.
  split; intros H.
  - destruct (health <=? 0) eqn:E; [reflexivity | apply Z.leb_gt in E; lia].
  - destruct (health <=? 0) eqn:E; [apply Z.leb_le in E; lia | reflexivity].
Qed.

Lemma Enemy_new_validates_health_witness :
  Enemy.new "Goblin" 0 15 (test_world 50 10 100 20)
  = (Raise ValidationError, test_world 50 10 100 20)
  /\ Enemy.new "Goblin" 50 15 (test_world 50 10 100 20)
     = (Ok 5%nat,
        with_objects (test_objects 50 10 100 20 ++ [OEnemy (mkEnemy "Goblin" 50 15)])
          (test_world 50 10 100 20)).
Proof.
  split.
  - apply (proj1 (Enemy_new_validates_health "Goblin" 0 15 (test_world 50 10 100 20))). lia.
  - apply (proj2 (Enemy_new_validates_health "Goblin" 50 15 (test_world 50 10 100 20))). lia.
Defined.

(** C5 as stated fails: an enemy with [damage = 0] is constructed without
    any error. *)
Lemma Enemy_new_accepts_damage_below_1 :
  Enemy.new "Goblin" 50 0 (test_world 50 10 100 20)
  = (Ok 5%nat,
     with_objects (test_objects 50 10 100 20 ++ [OEnemy (mkEnemy "Goblin" 50 0)])
       (test_world 50 10 100 20))
  /\ ~ (exists e w', Enemy.new "Goblin" 50 0 (test_world 50 10 100 20) = (Raise e, w')).
Proof.
  split; [reflexivity | intros (e & w' & H); discriminate H].
Qed.

(** ** Doors *)

Lemma model_eq_player_r o p : model_eq o (OPlayer p) = false.
Proof. now destruct o. Qed.

Lemma model_eq_player_l o p : model_eq (OPlayer p) o = false.
Proof. reflexivity. Qed.

Lemma list_eq_ext (f g : nat -> nat -> bool) l1 l2 :
  (forall x y, f x y = g x y) -> list_eq f l1 l2 = list_eq g l1 l2.
Proof.
  intros Hfg. revert l2.
  induction l1 as [|a l1 IH]; intros [|b l2]; cbn; trivial.
  now rewrite Hfg, IH.
Qed.

Section PlayerUpdate.
Variables (h : list obj) (pl : nat) (p p' : Player).
Hypothesis Hpl : h !! pl = Some (OPlayer p).

Let h' := <[pl := OPlayer p']> h.

Lemma lookup_insert_player x :
  h' !! x = h !! x \/ (h' !! x = Some (OPlayer p') /\ h !! x = Some (OPlayer p)).
Proof.
  subst h'. destruct (decide (pl = x)) as [<-|Hne].
  - right. split; trivial. apply list_lookup_insert_eq. eapply lookup_lt_Some, Hpl.
  - left. now apply list_lookup_insert_ne.
Qed.

Lemma item_eq_insert_player x y : item_eq h' x y = item_eq h x y.
Proof.
  unfold item_eq. f_equal.
  destruct (lookup_insert_player x) as [-> | [-> ->]];
    destruct (lookup_insert_player y) as [-> | [-> ->]]; trivial;
    destruct (h !! x), (h !! y); trivial; now rewrite !model_eq_player_r.
Qed.

Lemma room_eq_insert_player r1 r2 : room_eq h' r1 r2 = room_eq h r1 r2.
Proof.
  unfold room_eq.
  now rewrite !(list_eq_ext (item_eq h') (item_eq h)) by apply item_eq_insert_player.
Qed.

Lemma py_eq_insert_player x y : py_eq h' x y = py_eq h x y.
Proof.
  destruct x as [a|], y as [b|]; trivial. cbn. f_equal.
  destruct (lookup_insert_player a) as [-> | [-> ->]];
    destruct (lookup_insert_player b) as [-> | [-> ->]]; trivial;
    destruct (h !! a) as [[]|], (h !! b) as [[]|]; trivial;
    apply room_eq_insert_player.
Qed.
End PlayerUpdate.

Lemma py_eq_refl h x : py_eq h x x = true.
Proof. destruct x; cbn; trivial. now rewrite Nat.eqb_refl. Qed.

(** Moving to a room that is in the store. *)
Lemma change_room_to_room w player p a r :
  objects w !! player = Some (OPlayer p) ->
  objects w !! a = Some (ORoom r) ->
  Player.change_room (Some player) (Some a) w = (Ok tt, move_player player p (Some a) w).
Proof.
  intros Hp Hr. unfold Player.change_room.
  rewrite (bind_Ok _ _ _ _ _ (get_player_Some _ _ _ Hp)).
  assert (Hne : player <> a) by (intros ->; congruence).
  assert (Hr' : objects (move_player player p (Some a) w) !! a = Some (ORoom r)).
  { cbn. now rewrite list_lookup_insert_ne. }
  unfold bind at 1. unfold store at 1. fold (move_player player p (Some a) w).
  unfold inspect.
  now rewrite (bind_Ok _ _ _ _ _ (bind_Ok _ _ _ _ _ (deref_Some _ _ _ Hr'))).
Qed.

Lemma player_room_move_player w player p r :
  objects w !! player = Some (OPlayer p) ->
  player_room (move_player player p r w) player = Some r.
Proof.
  intros Hp. unfold player_room, move_player. cbn.
  rewrite list_lookup_insert_eq; [reflexivity | eapply lookup_lt_Some, Hp].
Qed.

Lemma inspect_readonly x w res w' : inspect x w = (res, w') -> w' = w.
Proof.
  unfold inspect, bind, deref. destruct x as [a|]; [|now intros [= _ <-]].
  destruct (objects w !! a) as [[]|]; now intros [= _ <-].
Qed.

(** [change_room] assigns the room, whatever happens to its message. *)
Lemma change_room_moves w player p r :
  objects w !! player = Some (OPlayer p) ->
  exists res,
    Player.change_room (Some player) r w = (res, move_player player p r w)
    /\ (forall a rm, r = Some a -> objects w !! a = Some (ORoom rm) -> res = Ok tt).
Proof.
  intros Hp.
  destruct (Player.change_room (Some player) r w) as [res w'] eqn:E.
  exists res. split.
  - f_equal. unfold Player.change_room in E.
    rewrite (bind_Ok _ _ _ _ _ (get_player_Some _ _ _ Hp)) in E.
    unfold bind at 1 in E. unfold store at 1 in E. fold (move_player player p r w) in E.
    unfold bind at 1 in E.
    destruct (inspect r (move_player player p r w)) as [[msg|e] w2] eqn:Ei;
      apply inspect_readonly in Ei; subst w2; now injection E.
  - intros a rm -> Ha. rewrite (change_room_to_room _ _ _ _ _ Hp Ha) in E. now injection E.
Qed.

Lemma Door_interact_moves w door player d p :
  objects w !! door = Some (ODoor d) ->
  objects w !! player = Some (OPlayer p) ->
  exists res,
    Door_interact (Some door) (Some player) w
    = (res, move_player player p (door_target w p d) w)
    /\ (forall a rm,
          door_target w p d = Some a -> objects w !! a = Some (ORoom rm) -> res = Ok tt).
Proof.
  intros Hd Hp. unfold Door_interact, door_target.
  rewrite (bind_Ok _ _ _ _ _ (deref_Some _ _ _ Hd)).
  rewrite (bind_Ok _ _ _ _ _ (get_player_Some _ _ _ Hp)).
  destruct (py_eq (objects w) (current_room p) (opposite_room d));
    now apply change_room_moves.
Qed.

(** C4, as the code has it: for every door and every player, [interact]
    sets the player's current room to [connected_room] when that room
    equals ([==]) the door's [opposite_room], and to [opposite_room]
    otherwise, changing nothing else; it returns normally when the room
    the player is sent to is a room of the store.  A player who starts in
    [opposite_room] is in [connected_room] after one [interact]; after a
    second one the player is back in [opposite_room] when the two ends of
    the door are not equal ([==]), or are one and the same, and is still in
    [connected_room] when the two ends are distinct rooms that are equal:
    the second [interact] makes the same test as the first. *)
Theorem Door_interact_own_inverse
  (w : World) (door player : addr) (d : Door) (p : Player) :
  objects w !! door = Some (ODoor d) ->
  objects w !! player = Some (OPlayer p) ->
  let interact := Door_interact (Some door) (Some player) in
  (exists res,
      interact w = (res, move_player player p (door_target w p d) w)
      /\ (forall a rm,
            door_target w p d = Some a -> objects w !! a = Some (ORoom rm) -> res = Ok tt))
  /\ (py_eq (objects w) (current_room p) (opposite_room d) = true ->
      exists res1 w1 res2 w2,
        interact w = (res1, w1)
        /\ player_room w1 player = Some (connected_room d)
        /\ interact w1 = (res2, w2)
        /\ player_room w2 player
           = Some (if py_eq (objects w) (connected_room d) (opposite_room d)
                   then connected_room d else opposite_room d)
        /\ (forall c o rc ro,
              connected_room d = Some c -> opposite_room d = Some o ->
              objects w !! c = Some (ORoom rc) -> objects w !! o = Some (ORoom ro) ->
              res1 = Ok tt /\ res2 = Ok tt)).
Proof.
  intros Hd Hp interact.
  destruct (Door_interact_moves w door player d p Hd Hp) as (res1 & Hstep & Hres1).
  split; [exists res1; split; [exact Hstep | exact Hres1]|]. intros Hat.
  assert (Htarget : door_target w p d = connected_room d)
    by (unfold door_target; now rewrite Hat).
  rewrite Htarget in Hstep, Hres1.
  set (w1 := move_player player p (connected_room d) w) in *.
  set (p1 := mkPlayer (name p) (connected_room d) (player_health p) (player_damage p)).
  pose proof (lookup_lt_Some _ _ _ Hp) as Hlt.
  assert (Hnd : player <> door) by (intros ->; congruence).
  assert (Hp1 : objects w1 !! player = Some (OPlayer p1)).
  { cbn. now apply list_lookup_insert_eq. }
  assert (Hd1 : objects w1 !! door = Some (ODoor d)).
  { cbn. now rewrite list_lookup_insert_ne. }
  destruct (Door_interact_moves w1 door player d p1 Hd1 Hp1) as (res2 & Hstep1 & Hres2).
  assert (Htarget1 : door_target w1 p1 d
                     = if py_eq (objects w) (connected_room d) (opposite_room d)
                       then connected_room d else opposite_room d).
  { unfold door_target. cbn [current_room p1 objects w1 move_player with_objects].
    now rewrite (py_eq_insert_player _ _ p _ Hp). }
  rewrite Htarget1 in Hstep1, Hres2.
  exists res1, w1, res2, (move_player player p1
                            (if py_eq (objects w) (connected_room d) (opposite_room d)
                             then connected_room d else opposite_room d) w1).
  split; [exact Hstep|]. split; [now apply player_room_move_player|].
  split; [exact Hstep1|]. split; [now apply player_room_move_player|].
  intros c o rc ro Hc Ho Hrc Hro. split.
  - apply (Hres1 c rc); trivial.
  - assert (Hnc : player <> c) by (intros ->; congruence).
    assert (Hno : player <> o) by (intros ->; congruence).
    rewrite Hc, Ho in Hres2.
    destruct (py_eq (objects w) (Some c) (Some o)).
    + apply (Hres2 c rc); trivial. cbn. now rewrite list_lookup_insert_ne.
    + apply (Hres2 o ro); trivial. cbn. now rewrite list_lookup_insert_ne.
Qed.

Lemma Door_interact_own_inverse_witness :
  let w := initial_world (fun _ => 0) (fun _ => 0) in
  let d := mkDoor "A mysterious red door." (Some 1%nat) (Some 0%nat) in
  let p := mkPlayer "Matthew" (Some 0%nat) 100 20 in
  let interact := Door_interact (Some 3%nat) (Some 2%nat) in
  (exists res,
      interact w = (res, move_player 2%nat p (door_target w p d) w)
      /\ (forall a rm,
            door_target w p d = Some a -> objects w !! a = Some (ORoom rm) -> res = Ok tt))
  /\ exists res1 w1 res2 w2,
       interact w = (res1, w1)
       /\ player_room w1 2%nat = Some (connected_room d)
       /\ interact w1 = (res2, w2)
       /\ player_room w2 2%nat
          = Some (if py_eq (objects w) (connected_room d) (opposite_room d)
                  then connected_room d else opposite_room d)
       /\ (forall c o rc ro,
             connected_room d = Some c -> opposite_room d = Some o ->
             objects w !! c = Some (ORoom rc) -> objects w !! o = Some (ORoom ro) ->
             res1 = Ok tt /\ res2 = Ok tt).
Proof.
  intros w d p interact.
  pose proof (Door_interact_own_inverse w 3%nat 2%nat d p eq_refl eq_refl) as [H1 H2].
  split; [exact H1 | exact (H2 eq_refl)].
Defined.

(** C4 as stated fails when the two ends of the door are distinct rooms
    that are equal.  The store is the one that [Game.fromJSON] builds from
    the snapshot of a game with one room: the room of the table (0) and
    the room of the player (1) are decoded from equal entries.  A door is
    then made from room 1 to room 0.  The player, who is in the door's
    [opposite_room] (1), goes through the door into [connected_room] (0),
    goes through it again, and is still in room 0, not back in room 1. *)
Lemma Door_interact_twin_rooms_no_return :
  (run Game.fromJSON dangling_snapshot then
   Door.new "A new door." (Some 0%nat) (Some 1%nat))
    (empty_world (fun _ => 0) (fun _ => 0))
  = (Ok 3%nat, twin_rooms_world)
  /\ player_room twin_rooms_world 2%nat = Some (Some 1%nat)
  /\ exists w1 w2,
       Door_interact (Some 3%nat) (Some 2%nat) twin_rooms_world = (Ok tt, w1)
       /\ player_room w1 2%nat = Some (Some 0%nat)
       /\ Door_interact (Some 3%nat) (Some 2%nat) w1 = (Ok tt, w2)
       /\ player_room w2 2%nat = Some (Some 0%nat)
       /\ player_room w2 2%nat <> Some (Some 1%nat).
Proof.
  split; [reflexivity|]. split; [reflexivity|].
  eexists _, _. split; [reflexivity|]. split; [reflexivity|].
  split; [reflexivity|]. split; [reflexivity | discriminate].
Qed.

(** ** Decoding *)

Lemma with_objects_id w : with_objects (objects w) w = w.
Proof. now destruct w. Qed.

Lemma extends_refl w : extends w w.
Proof. now repeat split. Qed.

Lemma extends_trans w1 w2 w3 : extends w1 w2 -> extends w2 w3 -> extends w1 w3.
Proof.
  intros (H1 & H2 & H3 & H4 & H5) (K1 & K2 & K3 & K4 & K5).
  repeat split; try congruence. now transitivity (objects w2).
Qed.

Lemma extends_app w l : extends w (with_objects (objects w ++ l) w).
Proof. repeat split. now apply prefix_app_r. Qed.

Lemma extends_lookup w w' a o :
  extends w w' -> objects w !! a = Some o -> objects w' !! a = Some o.
Proof. intros [H _] Ho. eapply prefix_lookup_Some; eauto. Qed.

Lemma NPC_fromJSON_Ok j d w :
  npc_description j = Some d ->
  NPC.fromJSON j w
  = (Ok (List.length (objects w)), with_objects (objects w ++ [ONPC (mkNPC d)]) w).
Proof.
  unfold npc_description, NPC.fromJSON, subscript. intros H.
  destruct (j !! "description") as [[z|s]|]; try discriminate.
  injection H as ->. reflexivity.
Qed.

Lemma NPC_fromJSON_inv j w a w' :
  NPC.fromJSON j w = (Ok a, w') -> exists d, npc_description j = Some d.
Proof.
  unfold npc_description, NPC.fromJSON, subscript.
  destruct (j !! "description") as [[z|s]|]; cbn; try discriminate. eauto.
Qed.

Lemma NPC_fromJSON_extends j w res w' :
  NPC.fromJSON j w = (res, w') -> extends w w'.
Proof.
  unfold NPC.fromJSON, subscript.
  destruct (j !! "description") as [[z|s]|]; cbn; intros [= <- <-];
    auto using extends_refl, extends_app.
Qed.

Lemma map_M_NPC_fromJSON_Ok l descs :
  Forall2 (fun j d => npc_description j = Some d) l descs ->
  forall w,
    map_M NPC.fromJSON l w
    = (Ok (seq (List.length (objects w)) (List.length l)),
       with_objects (objects w ++ map (fun d => ONPC (mkNPC d)) descs) w).
Proof.
  induction 1 as [|j d l descs Hj _ IH]; intros w; cbn [map_M].
  - cbn. now rewrite app_nil_r, with_objects_id.
  - rewrite (bind_Ok _ _ _ _ _ (NPC_fromJSON_Ok _ _ _ Hj)).
    rewrite (bind_Ok _ _ _ _ _ (IH _)). cbn.
    rewrite length_app, Nat.add_1_r. unfold ret, with_objects. cbn.
    now rewrite <- app_assoc.
Qed.

Lemma map_M_NPC_fromJSON_inv l :
  forall w ns w',
    map_M NPC.fromJSON l w = (Ok ns, w') ->
    exists descs, Forall2 (fun j d => npc_description j = Some d) l descs.
Proof.
  induction l as [|j l IH]; intros w ns w'; cbn [map_M].
  - exists []. constructor.
  - unfold bind at 1. destruct (NPC.fromJSON j w) as [[a|e] w1] eqn:Ej; [|discriminate].
    destruct (NPC_fromJSON_inv _ _ _ _ Ej) as [d Hd].
    unfold bind at 1. destruct (map_M NPC.fromJSON l w1) as [[ns'|e] w2] eqn:El; [|discriminate].
    destruct (IH _ _ _ El) as [descs Hdescs]. intros _.
    exists (d :: descs). now constructor.
Qed.

Lemma map_M_NPC_fromJSON_extends l :
  forall w res w', map_M NPC.fromJSON l w = (res, w') -> extends w w'.
Proof.
  induction l as [|j l IH]; intros w res w'; cbn [map_M].
  - intros [= <- <-]. apply extends_refl.
  - unfold bind at 1. destruct (NPC.fromJSON j w) as [[a|e] w1] eqn:Ej.
    + apply NPC_fromJSON_extends in Ej.
      unfold bind at 1. destruct (map_M NPC.fromJSON l w1) as [[ns'|e] w2] eqn:El;
        apply IH in El; intros [= <- <-]; eauto using extends_trans.
    + apply NPC_fromJSON_extends in Ej. now intros [= <- <-].
Qed.

Lemma well_formed_descriptions (l : list (gmap string jval)) :
  Forall (fun j => is_Some (npc_description j)) l ->
  exists descs, Forall2 (fun j d => npc_description j = Some d) l descs.
Proof.
  induction 1 as [|j l [d Hd] _ [descs IH]].
  - exists []. constructor.
  - exists (d :: descs). now constructor.
Qed.

Lemma lookup_map {A B} (f : A -> B) (l : list A) (i : nat) (x : A) :
  l !! i = Some x -> map f l !! i = Some (f x).
Proof.
  revert i. induction l as [|y l IH]; intros [|i]; cbn; try discriminate.
  - now intros [= ->].
  - apply IH.
Qed.

Lemma insert_at_length {A} (l : list A) (x y : A) (t : list A) :
  <[List.length l := x]> (l ++ y :: t) = l ++ x :: t.
Proof.
  rewrite insert_app_r_alt by lia. now rewrite Nat.sub_diag.
Qed.

Lemma prefix_insert_ge {A} (l k : list A) (i : nat) (x : A) :
  l `prefix_of` k -> (List.length l <= i)%nat -> l `prefix_of` <[i := x]> k.
Proof.
  intros [t ->] Hi. rewrite insert_app_r_alt by exact Hi. now apply prefix_app_r.
Qed.

Lemma Room_fromJSON_unfold room_data w :
  Room.fromJSON room_data w
  = let a := List.length (objects w) in
    let w1 := with_objects (objects w ++ [decoded_room room_data []]) w in
    match map_M NPC.fromJSON (j_npcs room_data) w1 with
    | (Ok ns, w2) => (Ok a, with_objects (<[a := decoded_room room_data ns]> (objects w2)) w2)
    | (Raise e, w2) => (Raise e, w2)
    end.
Proof.
  unfold Room.fromJSON, Room.new, bind, alloc, store, ret, with_objects, decoded_room.
  cbn [objects rand rand_pos stdin stdin_pos id].
  rewrite (insert_at_length (objects w) _ _ []).
  rewrite (insert_at_length (objects w) _ _ []).
  now destruct (map_M NPC.fromJSON (j_npcs room_data) _) as [[ns|e] w2].
Qed.

Lemma Room_fromJSON_Ok room_data descs w :
  Forall2 (fun j d => npc_description j = Some d) (j_npcs room_data) descs ->
  Room.fromJSON room_data w
  = (Ok (List.length (objects w)),
     with_objects
       (objects w
        ++ decoded_room room_data
             (seq (S (List.length (objects w))) (List.length (j_npcs room_data)))
           :: map (fun d => ONPC (mkNPC d)) descs) w).
Proof.
  intros Hd. rewrite Room_fromJSON_unfold. cbv zeta.
  rewrite (map_M_NPC_fromJSON_Ok _ _ Hd).
  unfold with_objects. cbn [objects rand rand_pos stdin stdin_pos].
  rewrite length_app, Nat.add_1_r, <- app_assoc. cbn [app].
  now rewrite insert_at_length.
Qed.

Lemma Room_fromJSON_inv room_data w a w' :
  Room.fromJSON room_data w = (Ok a, w') ->
  exists descs, Forall2 (fun j d => npc_description j = Some d) (j_npcs room_data) descs.
Proof.
  rewrite Room_fromJSON_unfold. cbv zeta.
  destruct (map_M NPC.fromJSON _ _) as [[ns|e] w2] eqn:E; [|discriminate].
  intros _. eapply map_M_NPC_fromJSON_inv, E.
Qed.

Lemma Room_fromJSON_extends room_data w res w' :
  Room.fromJSON room_data w = (res, w') -> extends w w'.
Proof.
  rewrite Room_fromJSON_unfold. cbv zeta.
  destruct (map_M NPC.fromJSON _ _) as [[ns|e] w2] eqn:E;
    apply map_M_NPC_fromJSON_extends in E;
    pose proof (extends_trans _ _ _ (extends_app w _) E) as Hext;
    intros [= <- <-]; [|exact Hext].
  destruct Hext as (H1 & H2 & H3 & H4 & H5).
  repeat split; trivial. cbn. now apply prefix_insert_ge.
Qed.

(** C10: whenever [Room.fromJSON] returns a room, each of the room's NPCs
    is a plain NPC whose only content is the ["description"] of the
    corresponding entry of the snapshot: what an Enemy or a Wizard wrote
    besides it is dropped.  Such an NPC has no health to attack with and no
    bonus to give.  The decoder does return a room as soon as every entry
    has a description. *)
Theorem Room_fromJSON_makes_plain_NPCs (room_data : RoomJSON) (w : World) :
  (npcs_well_formed room_data ->
   exists room w', Room.fromJSON room_data w = (Ok room, w'))
  /\ (forall room w',
        Room.fromJSON room_data w = (Ok room, w') ->
        exists r,
          objects w' !! room = Some (ORoom r)
          /\ Forall2
               (fun npc j =>
                  exists d,
                    npc_description j = Some d
                    /\ objects w' !! npc = Some (ONPC (mkNPC d))
                    /\ (forall target,
                          Combat.attack (Some npc) target w' = (Raise AttributeError, w'))
                    /\ (forall player,
                          Wizard.give_bonus (Some npc) player w' = (Raise AttributeError, w')))
               (npcs r) (j_npcs room_data)).
Proof.
  split.
  - intros Hwf. destruct (well_formed_descriptions _ Hwf) as [descs Hd].
    rewrite (Room_fromJSON_Ok _ _ _ Hd). eauto.
  - intros room w' Hdec.
    destruct (Room_fromJSON_inv _ _ _ _ Hdec) as [descs Hd].
    rewrite (Room_fromJSON_Ok _ _ _ Hd) in Hdec. injection Hdec as <- <-.
    eexists. split.
    + cbn. now rewrite list_lookup_middle.
    + cbn [npcs]. set (w' := with_objects _ w).
      assert (Hlook : forall i d, descs !! i = Some d ->
                objects w' !! (S (List.length (objects w)) + i)%nat
                = Some (ONPC (mkNPC d))).
      { intros i d Hi. subst w'. cbn [objects with_objects].
        rewrite lookup_app_r by lia.
        match goal with |- _ !! ?n = _ => replace n with (S i) by lia end.
        cbn. now apply (lookup_map (fun d => ONPC (mkNPC d))). }
      clearbody w'. revert Hlook. generalize (S (List.length (objects w))) as base.
      induction Hd as [|j d l descs Hj _ IH]; intros base Hlook; cbn; constructor.
      * assert (Ho : objects w' !! base = Some (ONPC (mkNPC d))).
        { specialize (Hlook 0%nat d eq_refl). now rewrite Nat.add_0_r in Hlook. }
        exists d. repeat split; trivial.
        -- intros target. unfold Combat.attack, Combat.is_alive.
           now rewrite (bind_Raise _ _ _ _ _
                          (bind_Raise _ _ _ _ _ (get_health_None _ _ _ Ho eq_refl))).
        -- intros player. unfold Wizard.give_bonus.
           now rewrite (bind_Ok _ _ _ _ _ (deref_Some _ _ _ Ho)).
      * apply IH. intros i d' Hi. specialize (Hlook (S i) d' Hi).
        now rewrite Nat.add_succ_r in Hlook.
Qed.

Lemma Room_fromJSON_makes_plain_NPCs_witness :
  exists room w',
    Room.fromJSON second_room_json (initial_world (fun _ => 0) (fun _ => 0)) = (Ok room, w')
    /\ exists r,
         objects w' !! room = Some (ORoom r)
         /\ Forall2
              (fun npc j =>
                 exists d,
                   npc_description j = Some d
                   /\ objects w' !! npc = Some (ONPC (mkNPC d))
                   /\ (forall target,
                         Combat.attack (Some npc) target w' = (Raise AttributeError, w'))
                   /\ (forall player,
                         Wizard.give_bonus (Some npc) player w' = (Raise AttributeError, w')))
              (npcs r) (j_npcs second_room_json).
Proof.
  destruct (Room_fromJSON_makes_plain_NPCs second_room_json
              (initial_world (fun _ => 0) (fun _ => 0))) as [H1 H2].
  assert (Hwf : npcs_well_formed second_room_json).
  { repeat constructor; eexists; vm_compute; reflexivity. }
  destruct (H1 Hwf) as (room & w' & E).
  exists room, w'. split; [exact E | exact (H2 room w' E)].
Defined.

(** *** The room table *)

Lemma dict_get_set {V} (k k' : Z) (v : V) (d : list (Z * V)) :
  dict_get k' (dict_set k v d) = if k =? k' then Some v else dict_get k' d.
Proof.
  induction d as [|[k0 v0] d IH]; cbn.
  - reflexivity.
  - destruct (k0 =? k) eqn:E0; cbn.
    + apply Z.eqb_eq in E0. subst k0. now destruct (k =? k').
    + rewrite IH. destruct (k0 =? k') eqn:E1; trivial.
      apply Z.eqb_eq in E1. subst k0. now rewrite Z.eqb_sym, E0.
Qed.

Lemma elem_of_dict_set {V} (k : Z) (v : V) (d : list (Z * V)) (x : Z * V) :
  x ∈ dict_set k v d -> x = (k, v) \/ x ∈ d.
Proof.
  induction d as [|[k0 v0] d IH]; cbn.
  - intros H. apply list_elem_of_singleton in H. now left.
  - destruct (k0 =? k); intros H; apply elem_of_cons in H as [->|H]; auto.
    + right. now apply elem_of_cons; right.
    + right. now apply elem_of_cons; left.
    + destruct (IH H) as [->|H']; auto. right. now apply elem_of_cons; right.
Qed.

Lemma deref_readonly x w res w' : deref x w = (res, w') -> w' = w.
Proof.
  unfold deref. destruct x as [a|]; [destruct (objects w !! a)|]; now intros [= _ <-].
Qed.

Lemma get_room_readonly x w res w' : get_room x w = (res, w') -> w' = w.
Proof.
  unfold get_room, bind. destruct (deref x w) as [[o|e] w1] eqn:E;
    apply deref_readonly in E; subst w1; [destruct o|]; now intros [= _ <-].
Qed.

Lemma for_each_readonly {A} (body : A -> M unit) (l : list A) :
  (forall x w res w', body x w = (res, w') -> w' = w) ->
  forall w res w', for_each l body w = (res, w') -> w' = w.
Proof.
  intros Hbody. induction l as [|x l IH]; intros w res w'; cbn [for_each].
  - now intros [= _ <-].
  - unfold bind. destruct (body x w) as [[[]|e] w1] eqn:E; apply Hbody in E; subst w1.
    + apply IH.
    + now intros [= _ <-].
Qed.

Lemma resolve_doors_readonly rooms w res w' :
  Game.resolve_doors rooms w = (res, w') -> w' = w.
Proof.
  unfold Game.resolve_doors. apply for_each_readonly.
  intros room w1 res1 w1'. unfold bind at 1.
  destruct (get_room (Some room) w1) as [[r|e] w2] eqn:E;
    apply get_room_readonly in E; subst w2; [|now intros [= _ <-]].
  apply for_each_readonly. intros door w2 res2 w2'. unfold bind, raise.
  destruct (deref (Some door) w2) as [[o|e] w3] eqn:E;
    apply deref_readonly in E; subst w3; now intros [= _ <-].
Qed.

Lemma resolve_doors_no_doors rooms w :
  no_doors rooms w -> Game.resolve_doors rooms w = (Ok tt, w).
Proof.
  unfold Game.resolve_doors, dict_values.
  induction rooms as [|[k a] rooms IH]; intros Hnd; cbn [map for_each snd].
  - reflexivity.
  - destruct (Hnd k a) as (r & Hr & Hdoors); [now left|].
    unfold bind at 1. unfold bind at 1.
    rewrite (get_room_Some _ _ _ Hr), Hdoors. cbn [for_each]. unfold ret at 1.
    apply IH. intros k' a' Hin. apply (Hnd k' a'). now right.
Qed.

Lemma no_doors_extends rooms w w' :
  extends w w' -> no_doors rooms w -> no_doors rooms w'.
Proof.
  intros Hext Hnd k a Hin. destruct (Hnd k a Hin) as (r & Hr & Hdoors).
  exists r. split; [eapply extends_lookup; eauto | exact Hdoors].
Qed.

Lemma load_rooms_extends room_datas :
  forall rooms w res w',
    Game.load_rooms room_datas rooms w = (res, w') -> extends w w'.
Proof.
  induction room_datas as [|rd rest IH]; intros rooms w res w'; cbn [Game.load_rooms].
  - intros [= _ <-]. apply extends_refl.
  - unfold bind at 1.
    destruct (Room.fromJSON rd w) as [[room|e] w1] eqn:E1;
      pose proof (Room_fromJSON_extends _ _ _ _ E1) as Hext1;
      [|now intros [= _ <-]].
    unfold bind at 1.
    destruct (get_room (Some room) w1) as [[r|e] w2] eqn:E2;
      apply get_room_readonly in E2; subst w2; [|now intros [= _ <-]].
    intros Hrest. apply IH in Hrest. eapply extends_trans; eauto.
Qed.

Lemma load_rooms_Ok room_datas :
  Forall npcs_well_formed room_datas ->
  forall rooms w,
    no_doors rooms w ->
    exists rooms' w',
      Game.load_rooms room_datas rooms w = (Ok rooms', w')
      /\ no_doors rooms' w'
      /\ (forall k, dict_get k rooms' = None
                    <-> dict_get k rooms = None /\ k ∉ map j_room_id room_datas).
Proof.
  induction 1 as [|rd rest Hwf _ IH]; intros rooms w Hnd; cbn [Game.load_rooms].
  - exists rooms, w. split; [reflexivity|]. split; [exact Hnd|].
    intros k. cbn. split; [intros Hk; split; [exact Hk | apply not_elem_of_nil] | tauto].
  - destruct (well_formed_descriptions _ Hwf) as [descs Hd].
    pose proof (Room_fromJSON_Ok rd descs w Hd) as E1.
    set (a := List.length (objects w)) in *.
    set (ns := seq (S a) (List.length (j_npcs rd))) in *.
    set (w1 := with_objects _ w) in E1.
    pose proof (Room_fromJSON_extends _ _ _ _ E1) as Hext1.
    assert (Hroom : objects w1 !! a = Some (decoded_room rd ns)).
    { subst w1. cbn [objects with_objects]. now rewrite list_lookup_middle. }
    rewrite (bind_Ok _ _ _ _ _ E1).
    rewrite (bind_Ok _ _ _ _ _ (get_room_Some _ _ _ Hroom)).
    cbn [room_id].
    assert (Hnd1 : no_doors (dict_set (j_room_id rd) a rooms) w1).
    { intros k' a' Hin. apply elem_of_dict_set in Hin as [[= -> ->]|Hin].
      - eexists. split; [exact Hroom | reflexivity].
      - eapply no_doors_extends; eauto. }
    destruct (IH _ _ Hnd1) as (rooms' & w' & E & Hnd' & Hkeys).
    exists rooms', w'. split; [exact E|]. split; [exact Hnd'|].
    intros k. rewrite Hkeys, dict_get_set. cbn [map]. rewrite not_elem_of_cons.
    destruct (j_room_id rd =? k) eqn:Ek.
    + apply Z.eqb_eq in Ek. split; [intros [[=] _] | intros (_ & Hne & _); congruence].
    + apply Z.eqb_neq in Ek. split; [intros [? ?] | intros (? & ? & ?)]; auto.
Qed.

Lemma Player_fromJSON_extends json_data w res w' :
  Player.fromJSON json_data w = (res, w') -> extends w w'.
Proof.
  unfold Player.fromJSON. unfold bind at 1.
  destruct (Room.fromJSON _ w) as [[room|e] w1] eqn:E1;
    pose proof (Room_fromJSON_extends _ _ _ _ E1) as Hext1;
    [|now intros [= _ <-]].
  unfold Player.new, alloc.
  destruct (objects w1 !! room) as [[]|]; intros [= _ <-]; trivial.
  eapply extends_trans; [exact Hext1 | apply extends_app].
Qed.

Lemma Player_fromJSON_Ok json_data w :
  npcs_well_formed (j_current_room json_data) ->
  exists player w', Player.fromJSON json_data w = (Ok player, w').
Proof.
  intros Hwf. destruct (well_formed_descriptions _ Hwf) as [descs Hd].
  unfold Player.fromJSON.
  rewrite (bind_Ok _ _ _ _ _ (Room_fromJSON_Ok _ descs w Hd)).
  unfold Player.new. cbn [objects with_objects].
  rewrite list_lookup_middle by reflexivity. unfold decoded_room, alloc. eauto.
Qed.

(** Decoding never touches what was there: whatever its outcome, the
    store it leaves starts with the store it was given. *)
Lemma Game_fromJSON_extends json_data w res w' :
  Game.fromJSON json_data w = (res, w') -> extends w w'.
Proof.
  unfold Game.fromJSON. unfold bind at 1.
  destruct (Game.load_rooms _ [] w) as [[rooms|e] w1] eqn:E1;
    pose proof (load_rooms_extends _ _ _ _ _ E1) as Hext1;
    [|now intros [= _ <-]].
  unfold bind at 1.
  destruct (Game.resolve_doors rooms w1) as [[[]|e] w2] eqn:E2;
    apply resolve_doors_readonly in E2; subst w2; [|now intros [= _ <-]].
  unfold bind at 1.
  destruct (Player.fromJSON _ w1) as [[player|e] w2] eqn:E3;
    apply Player_fromJSON_extends in E3; intros [= _ <-];
    eapply extends_trans; eauto.
Qed.

Lemma no_doors_nil w : no_doors [] w.
Proof. intros k a Hin. now apply elem_of_nil in Hin. Qed.

Lemma Game_fromJSON_Ok json_data w :
  snapshot_well_formed json_data ->
  exists g w',
    Game.fromJSON json_data w = (Ok g, w')
    /\ no_doors (rooms g) w'
    /\ (forall k, dict_get k (rooms g) = None <-> k ∉ snapshot_room_ids json_data).
Proof.
  intros [Hrooms Hplayer]. unfold Game.fromJSON.
  destruct (load_rooms_Ok _ Hrooms [] w (no_doors_nil w)) as (rooms & w1 & E1 & Hnd & Hkeys).
  rewrite (bind_Ok _ _ _ _ _ E1).
  rewrite (bind_Ok _ _ _ _ _ (resolve_doors_no_doors _ _ Hnd)).
  destruct (Player_fromJSON_Ok (j_player json_data) w1 Hplayer) as (player & w2 & E2).
  rewrite (bind_Ok _ _ _ _ _ E2).
  exists (mkGame rooms player), w2. split; [reflexivity|]. split.
  - eapply no_doors_extends; [eapply Player_fromJSON_extends, E2 | exact Hnd].
  - intros k. rewrite Hkeys. cbn [dict_get]. unfold snapshot_room_ids. tauto.
Qed.

(** C2, as the code has it: a snapshot with a door whose
    [connected_room_id] or [opposite_room_id] is not the id of any of its
    rooms is not refused on that account.  When the NPC entries are well
    formed [Game.fromJSON] returns a game, and [Door.fromJSON], given such
    a door and the decoded room table, returns without raising a door
    whose ends are what [room_dict.get] finds: the unresolved end is None.
    Whatever its outcome, decoding leaves the objects that existed before
    as they were. *)
Theorem Game_fromJSON_dangling_door
  (json_data : GameJSON) (k : Z) (room_data : RoomJSON) (door_data : DoorJSON) (w : World) :
  (k, room_data) ∈ j_rooms json_data ->
  door_data ∈ j_doors room_data ->
  connected_room_id door_data ∉ snapshot_room_ids json_data
  \/ opposite_room_id door_data ∉ snapshot_room_ids json_data ->
  (forall res w', Game.fromJSON json_data w = (res, w') -> extends w w')
  /\ (snapshot_well_formed json_data ->
      exists g w',
        Game.fromJSON json_data w = (Ok g, w')
        /\ Door.fromJSON door_data (rooms g) w'
           = (Ok (List.length (objects w')),
              with_objects
                (objects w'
                 ++ [ODoor (mkDoor (j_door_description door_data)
                              (dict_get (connected_room_id door_data) (rooms g))
                              (dict_get (opposite_room_id door_data) (rooms g)))]) w')
        /\ (dict_get (connected_room_id door_data) (rooms g) = None
            \/ dict_get (opposite_room_id door_data) (rooms g) = None)).
Proof.
  intros _ _ Hdangling. split.
  - intros res w'. apply Game_fromJSON_extends.
  - intros Hwf. destruct (Game_fromJSON_Ok json_data w Hwf) as (g & w' & E & Hnd & Hkeys).
    exists g, w'. repeat split; trivial.
    destruct Hdangling as [H|H]; [left | right]; now apply Hkeys.
Qed.

Lemma Game_fromJSON_dangling_door_witness :
  let w := initial_world (fun _ => 0) (fun _ => 0) in
  (forall res w', Game.fromJSON dangling_snapshot w = (res, w') -> extends w w')
  /\ exists g w',
       Game.fromJSON dangling_snapshot w = (Ok g, w')
       /\ Door.fromJSON dangling_door (rooms g) w'
          = (Ok (List.length (objects w')),
             with_objects
               (objects w'
                ++ [ODoor (mkDoor "A door to nowhere."
                             (dict_get 7 (rooms g)) (dict_get 0 (rooms g)))]) w')
       /\ (dict_get 7 (rooms g) = None \/ dict_get 0 (rooms g) = None).
Proof.
  intros w.
  assert (H1 : (0, dangling_room_json) ∈ j_rooms dangling_snapshot) by (now left).
  assert (H2 : dangling_door ∈ j_doors dangling_room_json) by (now left).
  assert (H3 : connected_room_id dangling_door ∉ snapshot_room_ids dangling_snapshot
               \/ opposite_room_id dangling_door ∉ snapshot_room_ids dangling_snapshot).
  { left. cbn. intros H. apply list_elem_of_singleton in H. discriminate H. }
  assert (H4 : snapshot_well_formed dangling_snapshot).
  { split; repeat constructor. }
  destruct (Game_fromJSON_dangling_door dangling_snapshot 0 dangling_room_json
              dangling_door w H1 H2 H3) as [Hext Hok].
  split; [exact Hext | exact (Hok H4)].
Defined.

(** C2 as stated fails: the snapshot has a door to room id 7, which is
    not one of its rooms, and decoding it succeeds; [Door.fromJSON] on that
    door gives a door whose [connected_room] is None. *)
Lemma Game_fromJSON_accepts_dangling_door :
  (connected_room_id dangling_door ∉ snapshot_room_ids dangling_snapshot)
  /\ Game.fromJSON dangling_snapshot (empty_world (fun _ => 0) (fun _ => 0))
     = (Ok (mkGame [(0, 0%nat)] 2%nat),
        mkWorld [ ORoom (mkRoom "A lonely room." [] [] 0);
                  ORoom (mkRoom "A lonely room." [] [] 0);
                  OPlayer (mkPlayer "Matthew" (Some 1%nat) 100 20) ]
          (fun _ => 0) 0 (fun _ => 0) 0)
  /\ fst (Door.fromJSON dangling_door [(0, 0%nat)]
            (mkWorld [ ORoom (mkRoom "A lonely room." [] [] 0) ]
               (fun _ => 0) 0 (fun _ => 0) 0))
     = Ok 1%nat
  /\ objects (snd (Door.fromJSON dangling_door [(0, 0%nat)]
                     (mkWorld [ ORoom (mkRoom "A lonely room." [] [] 0) ]
                        (fun _ => 0) 0 (fun _ => 0) 0))) !! 1%nat
     = Some (ODoor (mkDoor "A door to nowhere." None (Some 0%nat))).
Proof.
  split; [|repeat split; reflexivity].
  cbn. intros H. apply list_elem_of_singleton in H. discriminate H.
Qed.

(** C1 fails on the world of [Game()]: its snapshot is decoded into rooms
    with the same ids, but the initial room, which had two doors from room
    1 to room 0, has none after the round trip (and so has every decoded
    room, by [Game_fromJSON_Ok]). *)
Theorem roundtrip_loses_doors :
  let w := initial_world (fun _ => 0) (fun _ => 0) in
  Game.toJSON initial_game w = (Ok initial_snapshot, w)
  /\ door_endpoint_pairs w 0%nat = Some [(1, 0); (1, 0)]
  /\ exists g' w' room',
       Game.fromJSON initial_snapshot w = (Ok g', w')
       /\ map fst (rooms g') = map fst (rooms initial_game)
       /\ dict_get 0 (rooms g') = Some room'
       /\ door_endpoint_pairs w' room' = Some [].
Proof.
  cbv zeta. split; [vm_compute; reflexivity|]. split; [reflexivity|].
  destruct (Game.fromJSON initial_snapshot (initial_world (fun _ => 0) (fun _ => 0)))
    as [res w'] eqn:E.
  vm_compute in E. injection E as <- <-.
  eexists _, _, _. repeat split; reflexivity.
Qed.

(** ** [int(n * 0.8)] *)

Lemma digits2_pos_size p : digits2_pos p = Pos.size p.
Proof. induction p; cbn; congruence. Qed.

Lemma digits2_pos_bounds p :
  2 ^ (Zpos (digits2_pos p) - 1) <= Zpos p < 2 ^ Zpos (digits2_pos p).
Proof.
  rewrite digits2_pos_size. split.
  - pose proof (Pos.size_le p) as H.
    apply Pos2Z.pos_le_pos in H. rewrite Pos2Z.inj_pow in H.
    replace (Zpos (Pos.size p)) with (Z.succ (Zpos (Pos.size p) - 1)) in H by lia.
    rewrite Z.pow_succ_r in H by lia. lia.
  - pose proof (Pos.size_gt p) as H.
    apply Pos2Z.pos_lt_pos in H. now rewrite Pos2Z.inj_pow in H.
Qed.

Lemma digits2_pos_unique p n :
  2 ^ (n - 1) <= Zpos p < 2 ^ n -> Zpos (digits2_pos p) = n.
Proof.
  intros [Hlo Hhi]. pose proof (digits2_pos_bounds p) as [Dlo Dhi].
  set (D := Zpos (digits2_pos p)) in *.
  assert (0 < n). { destruct (Z.lt_trichotomy 0 n) as [?|[<-|?]]; trivial.
    - cbn in Hhi. lia. - rewrite Z.pow_neg_r in Hhi by lia. lia. }
  destruct (Z.lt_trichotomy D n) as [Hlt|[Heq|Hgt]]; trivial; exfalso.
  - assert (2 ^ D <= 2 ^ (n - 1)) by (apply Z.pow_le_mono_r; lia). lia.
  - assert (2 ^ n <= 2 ^ (D - 1)) by (apply Z.pow_le_mono_r; lia). lia.
Qed.

Lemma iter_xO p k : Zpos (Pos.iter xO p k) = Zpos p * 2 ^ Zpos k.
Proof.
  induction k as [|k IH] using Pos.peano_ind.
  - cbn. lia.
  - rewrite Pos.iter_succ, Pos2Z.inj_xO, IH, Pos2Z.inj_succ, Z.pow_succ_r by lia. lia.
Qed.

Lemma iter_pos_nat {A} (f : A -> A) (k : positive) (x : A) :
  SpecFloat.iter_pos f k x = Nat.iter (Pos.to_nat k) f x.
Proof.
  revert x. induction k as [k IH|k IH|]; intros x; cbn [SpecFloat.iter_pos].
  - rewrite !IH, Pos2Nat.inj_xI. cbn [Nat.iter Nat.mul].
    rewrite Nat.add_0_r, <- Nat.iter_add. now rewrite <- Nat.iter_succ_r.
  - rewrite !IH, Pos2Nat.inj_xO. cbn [Nat.mul].
    now rewrite Nat.add_0_r, <- Nat.iter_add.
  - reflexivity.
Qed.

Lemma shr_m_shr_1 mrs :
  0 <= shr_m mrs -> shr_m (shr_1 mrs) = shr_m mrs / 2.
Proof.
  destruct mrs as [m r s]. cbn [shr_m]. intros Hm.
  rewrite <- Z.div2_div.
  destruct m as [|[p|p|]|p]; cbn; trivial; lia.
Qed.

Lemma shr_m_iter (n : nat) mrs :
  0 <= shr_m mrs ->
  shr_m (Nat.iter n shr_1 mrs) = shr_m mrs / 2 ^ Z.of_nat n.
Proof.
  intros Hm. induction n as [|n IH].
  - cbn. now rewrite Z.div_1_r.
  - rewrite Nat.iter_succ, shr_m_shr_1, IH.
    + rewrite Nat2Z.inj_succ, Z.pow_succ_r by lia.
      rewrite Z.div_div by lia. f_equal. lia.
    + rewrite IH. apply Z.div_pos; lia.
Qed.

Lemma round_nearest_even_bounds m l :
  m <= round_nearest_even m l <= m + 1.
Proof.
  destruct l as [|[]]; cbn; try lia. destruct (Z.even m); lia.
Qed.

Lemma fexp_normal e : -1021 <= e -> fexp 53 1024 e = e - 53.
Proof. unfold fexp, emin. lia. Qed.

Lemma shr_fexp_exact p e :
  -1021 <= Zpos (digits2_pos p) + e ->
  shr_fexp 53 1024 (Zpos p) e loc_Exact
  = if Zpos (digits2_pos p) <=? 53
    then (Build_shr_record (Zpos p) false false, e)
    else (Nat.iter (Z.to_nat (Zpos (digits2_pos p) - 53)) shr_1
            (Build_shr_record (Zpos p) false false),
          e + (Zpos (digits2_pos p) - 53)).
Proof.
  intros He. unfold shr_fexp. cbn [Zdigits2 shr_record_of_loc].
  rewrite fexp_normal by exact He.
  set (D := Zpos (digits2_pos p)) in *.
  replace (D + e - 53 - e) with (D - 53) by lia.
  unfold shr. destruct (D - 53) as [|n|n] eqn:E.
  - replace (D <=? 53) with true by (symmetry; apply Z.leb_le; lia). reflexivity.
  - replace (D <=? 53) with false by (symmetry; apply Z.leb_gt; lia).
    now rewrite iter_pos_nat.
  - replace (D <=? 53) with true by (symmetry; apply Z.leb_le; lia). reflexivity.
Qed.

(** A mantissa of 53 bits is kept as it is. *)
Lemma binary_round_aux_53 p e :
  Zpos (digits2_pos p) = 53 -> -1074 <= e <= 971 ->
  binary_round_aux 53 1024 false (Zpos p) e loc_Exact = S754_finite false p e.
Proof.
  intros HD He. unfold binary_round_aux.
  rewrite shr_fexp_exact by lia. rewrite HD. cbn [Z.leb Z.compare Pos.compare Pos.compare_cont].
  cbn [shr_m loc_of_shr_record round_nearest_even].
  rewrite shr_fexp_exact by lia. rewrite HD. cbn [Z.leb Z.compare Pos.compare Pos.compare_cont shr_m].
  replace (e <=? 1024 - 53) with true by (symmetry; apply Z.leb_le; lia). reflexivity.
Qed.

(** A longer mantissa is cut to 53 bits and rounded; the integer part
    of the result is the integer part of the rounded mantissa. *)
Lemma binary_round_aux_to_int p e k :
  Zpos (digits2_pos p) = 53 + k -> 1 <= k -> -1074 <= e + k -> e + k + 1 < 0 ->
  exists m1,
    Zpos p / 2 ^ k <= m1 <= Zpos p / 2 ^ k + 1
    /\ PyFloat.to_int (binary_round_aux 53 1024 false (Zpos p) e loc_Exact)
       = Ok (m1 / 2 ^ (- (e + k))).
Proof.
  intros HD Hk Hlo Hhi. unfold binary_round_aux.
  rewrite shr_fexp_exact by lia. rewrite HD.
  replace (53 + k <=? 53) with false by (symmetry; apply Z.leb_gt; lia).
  replace (53 + k - 53) with k by lia.
  set (rec1 := Nat.iter (Z.to_nat k) shr_1 _).
  assert (Hq : shr_m rec1 = Zpos p / 2 ^ k).
  { subst rec1. rewrite shr_m_iter by (cbn; lia). cbn [shr_m]. now rewrite Z2Nat.id by lia. }
  pose proof (digits2_pos_bounds p) as [Dlo Dhi]. rewrite HD in Dlo, Dhi.
  replace (53 + k - 1) with (k + 52) in Dlo by lia.
  rewrite Z.pow_add_r in Dlo by lia.
  replace (53 + k) with (k + 53) in Dhi by lia.
  rewrite Z.pow_add_r in Dhi by lia.
  assert (Hpk : 0 < 2 ^ k) by (apply Z.pow_pos_nonneg; lia).
  assert (Hq52 : 2 ^ 52 <= Zpos p / 2 ^ k) by (apply Z.div_le_lower_bound; lia).
  assert (Hq53 : Zpos p / 2 ^ k < 2 ^ 53) by (apply Z.div_lt_upper_bound; lia).
  pose proof (round_nearest_even_bounds (shr_m rec1) (loc_of_shr_record rec1)) as Hm1.
  set (m1 := round_nearest_even _ _) in *. rewrite Hq in Hm1.
  exists m1. split; [exact Hm1|].
  destruct m1 as [|pm|pm] eqn:Em1; try lia.
  assert (Hcases : Zpos pm < 2 ^ 53 \/ Zpos pm = 2 ^ 53) by lia.
  destruct Hcases as [Hlt | Heq].
  - assert (HD1 : Zpos (digits2_pos pm) = 53).
    { apply digits2_pos_unique. change (53 - 1) with 52. lia. }
    rewrite shr_fexp_exact by (rewrite HD1; lia). rewrite HD1.
    cbn [Z.leb Z.compare Pos.compare Pos.compare_cont shr_m].
    replace (e + k <=? 1024 - 53) with true by (symmetry; apply Z.leb_le; lia).
    cbn [PyFloat.to_int cond_Zopp].
    replace (0 <=? e + k) with false by (symmetry; apply Z.leb_gt; lia). reflexivity.
  - assert (Hpm : pm = 9007199254740992%positive) by lia. subst pm.
    assert (HD1 : Zpos (digits2_pos 9007199254740992) = 54) by reflexivity.
    rewrite shr_fexp_exact by (rewrite HD1; lia). rewrite HD1.
    change (54 <=? 53) with false. change (Z.to_nat (54 - 53)) with 1%nat.
    cbn [Nat.iter nat_rect shr_1 shr_m].
    replace (e + k + (54 - 53) <=? 1024 - 53) with true by (symmetry; apply Z.leb_le; lia).
    cbn [PyFloat.to_int cond_Zopp].
    replace (0 <=? e + k + (54 - 53)) with false by (symmetry; apply Z.leb_gt; lia).
    f_equal.
    replace (- (e + k)) with (1 + - (e + k + (54 - 53))) by lia.
    rewrite Z.pow_add_r by lia. rewrite <- Z.div_div by (try apply Z.pow_pos_nonneg; lia).
    reflexivity.
Qed.

Lemma digits2_pos_range p lo hi :
  2 ^ lo <= Zpos p < 2 ^ hi -> 0 <= lo -> lo < Zpos (digits2_pos p) <= hi.
Proof.
  intros [Hlo Hhi] H0. pose proof (digits2_pos_bounds p) as [Dlo Dhi].
  set (D := Zpos (digits2_pos p)) in *. split.
  - destruct (Z.le_gt_cases D lo) as [Hle|]; [|lia].
    assert (2 ^ D <= 2 ^ lo) by (apply Z.pow_le_mono_r; lia). lia.
  - destruct (Z.le_gt_cases D hi) as [|Hgt]; [lia|].
    assert (2 ^ hi <= 2 ^ (D - 1)) by (apply Z.pow_le_mono_r; lia). lia.
Qed.

(** [float(n)] for a positive [n] below 2^53 is exact: the mantissa is
    [n] shifted to 53 bits. *)
Lemma of_int_exact p :
  Zpos p < 2 ^ 53 ->
  let a := 53 - Zpos (digits2_pos p) in
  exists mz,
    Zpos mz = Zpos p * 2 ^ a
    /\ 2 ^ 52 <= Zpos mz < 2 ^ 53
    /\ PyFloat.of_int (Zpos p) = Ok (S754_finite false mz (- a)).
Proof.
  intros Hp a. pose proof (digits2_pos_bounds p) as [Dlo Dhi].
  assert (Hn : 0 < Zpos (digits2_pos p) <= 53).
  { split; [lia|]. apply (digits2_pos_range p 0 53); [cbn; lia | lia]. }
  set (n := Zpos (digits2_pos p)) in *.
  assert (Hpa : 0 < 2 ^ a) by (apply Z.pow_pos_nonneg; lia).
  assert (Hmant : 2 ^ 52 <= Zpos p * 2 ^ a < 2 ^ 53).
  { assert (E52 : 2 ^ 52 = 2 ^ (n - 1) * 2 ^ a).
    { rewrite <- Z.pow_add_r by lia. f_equal. lia. }
    assert (E53 : 2 ^ 53 = 2 ^ n * 2 ^ a).
    { rewrite <- Z.pow_add_r by lia. f_equal. lia. }
    rewrite E52, E53. split.
    - apply Z.mul_le_mono_nonneg_r; lia.
    - apply Zmult_lt_compat_r; lia. }
  unfold PyFloat.of_int, PyFloat.prec, PyFloat.emax. cbn [binary_normalize].
  unfold binary_round. rewrite Z.add_0_r. fold n.
  rewrite fexp_normal by lia. unfold shl_align.
  destruct (n - 53 - 0) as [|x|x] eqn:Ex.
  - (* already 53 bits *)
    assert (Ha : a = 0) by lia. rewrite Ha, Z.mul_1_r in Hmant.
    exists p. rewrite Ha. cbn [Z.pow Z.opp]. rewrite Z.mul_1_r.
    repeat split; try lia.
    rewrite binary_round_aux_53; [reflexivity | apply digits2_pos_unique; cbn; lia | lia].
  - lia.
  - assert (Ha : a = Zpos x) by lia.
    pose proof (iter_xO p x) as Hmz. rewrite <- Ha in Hmz.
    set (mz := Pos.iter xO p x) in *.
    exists mz. split; [exact Hmz|]. split; [lia|].
    rewrite binary_round_aux_53.
    + replace (n - 53) with (- a) by lia. reflexivity.
    + apply digits2_pos_unique. change (53 - 1) with 52. lia.
    + lia.
Qed.

(** Below 2^50 the float product, truncated, is the integer part of
    four fifths. *)
Lemma int_times_0_8_exact d :
  0 <= d < 2 ^ 50 -> PyFloat.int_times_0_8 d = Ok (4 * d / 5).
Proof.
  intros [H0 Hd]. destruct d as [|p|p]; [reflexivity | | lia].
  destruct (of_int_exact p) as (mz & Hmz & Hmant & Hof); [lia|].
  assert (Hn : Zpos (digits2_pos p) <= 50).
  { apply (digits2_pos_range p 0 50); [cbn; lia | lia]. }
  set (a := 53 - Zpos (digits2_pos p)) in *.
  assert (Ha : 3 <= a <= 52) by lia.
  assert (HA : 8 <= 2 ^ a).
  { change 8 with (2 ^ 3). apply Z.pow_le_mono_r; lia. }
  unfold PyFloat.int_times_0_8. rewrite Hof.
  unfold PyFloat.mul, PyFloat.lit_0_8, PyFloat.prec, PyFloat.emax, SFmul.
  cbv beta iota. cbn [xorb].
  set (M := 7205759403792794%positive).
  (* the product has 105 or 106 bits *)
  assert (HP : 2 ^ 104 <= Zpos (mz * M) < 2 ^ 106).
  { rewrite Pos2Z.inj_mul. subst M. lia. }
  pose proof (digits2_pos_range _ 104 106 HP ltac:(lia)) as HD.
  set (k := Zpos (digits2_pos (mz * M)) - 53).
  assert (Hk : k = 52 \/ k = 53) by lia.
  destruct (binary_round_aux_to_int (mz * M) (- a + -53) k) as (m1 & Hm1 & Hint);
    [lia | lia | lia | lia |].
  rewrite Hint. f_equal.
  (* arithmetic *)
  rewrite Pos2Z.inj_mul in Hm1. rewrite Hmz in Hm1, Hmant.
  set (A := 2 ^ a) in *. set (X := Zpos p * A) in *.
  set (t := 4 * Zpos p / 5).
  assert (Ht : 5 * t <= 4 * Zpos p <= 5 * t + 4).
  { pose proof (Z.mul_div_le (4 * Zpos p) 5 eq_refl) as Ht1.
    pose proof (Z.mul_succ_div_gt (4 * Zpos p) 5 eq_refl) as Ht2.
    fold t in Ht1, Ht2. clearbody t. clear - Ht1 Ht2. lia. }
  set (T := t * A).
  assert (HT : 5 * T <= 4 * X <= 5 * T + 4 * A) by (subst T X; nia).
  replace (- (- a + -53 + k)) with (a + (53 - k)) by lia.
  rewrite Z.pow_add_r by lia. fold A.
  symmetry. apply Z.div_unique with (r := m1 - A * 2 ^ (53 - k) * t).
  - left.
    destruct Hk as [-> | ->].
    + change (2 ^ (53 - 52)) with 2. change (2 ^ 52) with 4503599627370496 in *.
      pose proof (Z.mul_div_le (X * Zpos M) 4503599627370496 ltac:(lia)) as Hq1.
      pose proof (Z.mul_succ_div_gt (X * Zpos M) 4503599627370496 ltac:(lia)) as Hq2.
      set (q := X * Zpos M / 4503599627370496) in *. clearbody q.
      replace (A * 2 * t) with (2 * T) by (subst T; lia).
      subst M. change (2 ^ 53) with 9007199254740992 in *. clearbody T X A. lia.
    + change (2 ^ (53 - 53)) with 1. change (2 ^ 53) with 9007199254740992 in *.
      pose proof (Z.mul_div_le (X * Zpos M) 9007199254740992 ltac:(lia)) as Hq1.
      pose proof (Z.mul_succ_div_gt (X * Zpos M) 9007199254740992 ltac:(lia)) as Hq2.
      set (q := X * Zpos M / 9007199254740992) in *. clearbody q.
      replace (A * 1 * t) with T by (subst T; lia).
      subst M. change (2 ^ 52) with 4503599627370496 in *. clearbody T X A. lia.
  - lia.
Qed.

(** ** One attack *)

Lemma get_name_combatant w a o h :
  objects w !! a = Some o -> obj_health o = Some h ->
  exists s, Combat.get_name (Some a) w = (Ok s, w).
Proof.
  intros Ho Hh. unfold Combat.get_name.
  rewrite (bind_Ok _ _ _ _ _ (deref_Some _ _ _ Ho)).
  destruct o; try discriminate; eauto.
Qed.

Lemma obj_health_set_health o h h' :
  obj_health o = Some h -> obj_health (obj_set_health h' o) = Some h'.
Proof. destruct o; now try discriminate. Qed.

Lemma take_damage_Some w a o h dmg :
  objects w !! a = Some o -> obj_health o = Some h ->
  Combat.take_damage (Some a) dmg w
  = (Ok tt, with_objects (<[a := obj_set_health (h - dmg) o]> (objects w)) w).
Proof.
  intros Ho Hh. unfold Combat.take_damage.
  rewrite (bind_Ok _ _ _ _ _ (get_health_Some _ _ _ _ Ho Hh)).
  rewrite (bind_Ok _ _ _ _ _ (set_health_Some _ _ _ _ _ Ho Hh)).
  set (w1 := with_objects _ w).
  assert (Ho1 : objects w1 !! a = Some (obj_set_health (h - dmg) o)).
  { cbn. apply list_lookup_insert_eq. eapply lookup_lt_Some, Ho. }
  destruct (get_name_combatant w1 a _ _ Ho1 (obj_health_set_health _ _ _ Hh)) as [s Hs].
  now rewrite (bind_Ok _ _ _ _ _ Hs).
Qed.

Lemma randint_Ok w low high :
  low <= high ->
  random.randint low high w = (Ok (drawn w low high), after_draw w).
Proof.
  intros Hle. unfold random.randint.
  replace (0 <? high + 1 - low) with true by (symmetry; apply Z.ltb_lt; lia).
  reflexivity.
Qed.

Lemma drawn_range w low high :
  low <= high -> low <= drawn w low high <= high.
Proof.
  intros Hle. unfold drawn.
  pose proof (Z.mod_pos_bound (rand w (rand_pos w)) (high + 1 - low)). lia.
Qed.

(** What [attack] does when the attacker is alive and the range of the
    draw is not empty. *)
Lemma attack_alive w self target os ot hs ds ht low :
  objects w !! self = Some os ->
  obj_health os = Some hs ->
  0 < hs ->
  obj_damage os = Some ds ->
  PyFloat.int_times_0_8 ds = Ok low ->
  low <= ds ->
  objects w !! target = Some ot ->
  obj_health ot = Some ht ->
  Combat.attack (Some self) (Some target) w
  = (Ok tt, after_hit w target ot ht (drawn w low ds)).
Proof.
  intros Hs Hhs Halive Hds Hlow Hle Ht Hht. unfold Combat.attack.
  rewrite (bind_Ok _ _ _ _ _ (is_alive_Some _ _ _ _ Hs Hhs)).
  replace (0 <? hs) with true by (symmetry; apply Z.ltb_lt; lia).
  rewrite (bind_Ok _ _ _ _ _ (get_damage_Some _ _ _ _ Hs Hds)).
  unfold lift at 1. rewrite Hlow. unfold bind at 1.
  rewrite (bind_Ok _ _ _ _ _ (get_damage_Some _ _ _ _ Hs Hds)).
  rewrite (bind_Ok _ _ _ _ _ (randint_Ok _ _ _ Hle)).
  destruct (get_name_combatant (after_draw w) self os hs Hs Hhs) as [s1 Hs1].
  rewrite (bind_Ok _ _ _ _ _ Hs1).
  destruct (get_name_combatant (after_draw w) target ot ht Ht Hht) as [s2 Hs2].
  rewrite (bind_Ok _ _ _ _ _ Hs2).
  now rewrite (take_damage_Some (after_draw w) target ot ht _ Ht Hht).
Qed.

(** C3, as the code has it: for an alive attacker whose damage is at
    least 1 and below 2^50, one attack never raises and takes from the
    target's health an integer [dealt] with
    [floor(0.8 * damage) <= dealt <= damage]; every integer of that range
    is dealt for some outcome of the random draw.  For [damage = 1] the
    range is [0, 1]. *)
Theorem attack_damage_range
  (w : World) (self target : addr) (os ot : obj) (hs ds ht : Z) :
  objects w !! self = Some os ->
  obj_health os = Some hs ->
  0 < hs ->
  obj_damage os = Some ds ->
  1 <= ds < 2 ^ 50 ->
  objects w !! target = Some ot ->
  obj_health ot = Some ht ->
  (exists dealt,
      4 * ds / 5 <= dealt <= ds
      /\ Combat.attack (Some self) (Some target) w
         = (Ok tt, after_hit w target ot ht dealt))
  /\ (forall dealt,
        4 * ds / 5 <= dealt <= ds ->
        exists rnd,
          Combat.attack (Some self) (Some target) (with_rand rnd w)
          = (Ok tt, after_hit (with_rand rnd w) target ot ht dealt)).
Proof.
  intros Hs Hhs Halive Hds Hrange Ht Hht.
  assert (Hlow : PyFloat.int_times_0_8 ds = Ok (4 * ds / 5))
    by (apply int_times_0_8_exact; lia).
  assert (Hle : 4 * ds / 5 <= ds).
  { pose proof (Z.mul_div_le (4 * ds) 5 eq_refl). lia. }
  split.
  - exists (drawn w (4 * ds / 5) ds). split; [now apply drawn_range|].
    now apply attack_alive with (os := os) (hs := hs).
  - intros dealt Hdealt. exists (fun _ => dealt - 4 * ds / 5).
    rewrite (attack_alive (with_rand _ w) self target os ot hs ds ht (4 * ds / 5));
      trivial.
    do 2 f_equal. unfold drawn, with_rand. cbn [rand rand_pos].
    rewrite Z.mod_small by lia. lia.
Qed.

Lemma attack_damage_range_witness :
  let w := test_world 50 10 100 1 in
  let goblin := OEnemy (mkEnemy "Goblin" 50 10) in
  (exists dealt,
      4 * 1 / 5 <= dealt <= 1
      /\ Combat.attack (Some 4%nat) (Some 2%nat) w
         = (Ok tt, after_hit w 2%nat goblin 50 dealt))
  /\ (forall dealt,
        4 * 1 / 5 <= dealt <= 1 ->
        exists rnd,
          Combat.attack (Some 4%nat) (Some 2%nat) (with_rand rnd w)
          = (Ok tt, after_hit (with_rand rnd w) 2%nat goblin 50 dealt)).
Proof.
  intros w goblin.
  apply (attack_damage_range w 4%nat 2%nat
           (OPlayer (mkPlayer "Hero" (Some 0%nat) 100 1)) goblin 100 1 50);
    try reflexivity; lia.
Defined.

(** C3 as stated fails for a very large damage: with
    [damage = 2^55 + 4] and a draw of 0 the attack deals
    28823037615171176, which is below
    [floor(0.8 * damage) = 28823037615171177]. *)
Lemma attack_damage_below_floor :
  Combat.attack (Some 4%nat) (Some 2%nat) (test_world 50 10 100 36028797018963972)
  = (Ok tt,
     after_hit (test_world 50 10 100 36028797018963972) 2%nat
       (OEnemy (mkEnemy "Goblin" 50 10)) 50 28823037615171176)
  /\ 28823037615171176 < 4 * 36028797018963972 / 5.
Proof.
  split; [vm_compute; reflexivity | reflexivity].
Qed.

(** ** One turn of combat *)

Lemma list_remove_first h x l1 l2 :
  (forall a, a ∈ l1 -> py_eq h (Some a) (Some x) = false) ->
  list_remove h x (l1 ++ x :: l2) = Some (l1 ++ l2).
Proof.
  induction l1 as [|a l1 IH]; intros Hne; cbn [app list_remove].
  - now rewrite py_eq_refl.
  - rewrite (Hne a) by now left.
    rewrite IH; [reflexivity|]. intros b Hb. apply Hne. now right.
Qed.

(** A defeated enemy is equal to no object other than itself, except an
    enemy that is not alive either. *)
Lemma py_eq_defeated h a x e :
  a <> x ->
  h !! x = Some (OEnemy e) ->
  enemy_health e <= 0 ->
  (forall e', h !! a = Some (OEnemy e') -> 0 < enemy_health e') ->
  py_eq h (Some a) (Some x) = false.
Proof.
  intros Hne Hx Hdead Halive. cbn [py_eq].
  replace (Nat.eqb a x) with false by (symmetry; now apply Nat.eqb_neq).
  rewrite Hx. destruct (h !! a) as [[n|e'|z|d|r|p]|]; cbn; trivial.
  specialize (Halive e' eq_refl).
  replace (enemy_health e' =? enemy_health e) with false
    by (symmetry; apply Z.eqb_neq; lia).
  now rewrite andb_false_r.
Qed.

Lemma read_int_Ok w :
  Scanner.read_int w = (Ok (stdin w (stdin_pos w)), after_input w).
Proof. reflexivity. Qed.

Lemma combat_turn_defeat g w w1 enemy room p e1 r l1 l2 :
  stdin w (stdin_pos w) = 0 ->
  Combat.attack (Some (player g)) (Some enemy) (after_input w) = (Ok tt, w1) ->
  objects w1 !! enemy = Some (OEnemy e1) ->
  enemy_health e1 <= 0 ->
  objects w1 !! player g = Some (OPlayer p) ->
  current_room p = Some room ->
  objects w1 !! room = Some (ORoom r) ->
  npcs r = l1 ++ enemy :: l2 ->
  enemy ∉ l1 ->
  (forall a e', a ∈ l1 -> objects w1 !! a = Some (OEnemy e') -> 0 < enemy_health e') ->
  Game.combat_turn g enemy w = (Ok true, after_removal w1 room r (l1 ++ l2)).
Proof.
  intros Hin Hatt He1 Hdead Hp1 Hcur Hr1 Hnpcs Hnotin Hothers.
  unfold Game.combat_turn.
  rewrite (bind_Ok _ _ _ _ _ (read_int_Ok w)). rewrite Hin. cbn [Z.eqb].
  rewrite (bind_Ok _ _ _ _ _ Hatt).
  rewrite (bind_Ok _ _ _ _ _ (is_alive_Some _ _ _ _ He1 eq_refl)).
  replace (0 <? enemy_health e1) with false by (symmetry; apply Z.ltb_ge; lia).
  assert (Hdesc : get_description (Some enemy) w1 = (Ok (enemy_description e1), w1)).
  { unfold get_description. now rewrite (bind_Ok _ _ _ _ _ (deref_Some _ _ _ He1)). }
  rewrite (bind_Ok _ _ _ _ _ Hdesc).
  assert (Hrem : Game.remove_npc g enemy w1 = (Ok tt, after_removal w1 room r (l1 ++ l2))).
  { unfold Game.remove_npc.
    rewrite (bind_Ok _ _ _ _ _ (get_player_Some _ _ _ Hp1)). rewrite Hcur.
    rewrite (bind_Ok _ _ _ _ _ (get_room_Some _ _ _ Hr1)). rewrite Hnpcs.
    rewrite list_remove_first; [reflexivity|].
    intros a Ha. apply py_eq_defeated with (e := e1); trivial.
    - intros ->. contradiction.
    - intros e' He'. now apply (Hothers a e' Ha). }
  now rewrite (bind_Ok _ _ _ _ _ Hrem).
Qed.

(** *** What an attack can change *)

Lemma get_health_readonly x w res w' : get_health x w = (res, w') -> w' = w.
Proof.
  unfold get_health, bind. destruct (deref x w) as [[o|e] w1] eqn:E;
    apply deref_readonly in E; subst w1; [destruct (obj_health o)|]; now intros [= _ <-].
Qed.

Lemma get_damage_readonly x w res w' : get_damage x w = (res, w') -> w' = w.
Proof.
  unfold get_damage, bind. destruct (deref x w) as [[o|e] w1] eqn:E;
    apply deref_readonly in E; subst w1; [destruct (obj_damage o)|]; now intros [= _ <-].
Qed.

Lemma get_name_readonly x w res w' : Combat.get_name x w = (res, w') -> w' = w.
Proof.
  unfold Combat.get_name, bind. destruct (deref x w) as [[o|e] w1] eqn:E;
    apply deref_readonly in E; subst w1; [destruct o|]; now intros [= _ <-].
Qed.

Lemma is_alive_readonly x w res w' : Combat.is_alive x w = (res, w') -> w' = w.
Proof.
  unfold Combat.is_alive, bind. destruct (get_health x w) as [[h|e] w1] eqn:E;
    apply get_health_readonly in E; subst w1; now intros [= _ <-].
Qed.

Lemma take_damage_inv t dmg w w' :
  Combat.take_damage (Some t) dmg w = (Ok tt, w') ->
  exists ot ht,
    objects w !! t = Some ot /\ obj_health ot = Some ht
    /\ w' = with_objects (<[t := obj_set_health (ht - dmg) ot]> (objects w)) w.
Proof.
  intros H. destruct (objects w !! t) as [ot|] eqn:Ho.
  - destruct (obj_health ot) as [ht|] eqn:Hh.
    + rewrite (take_damage_Some w t ot ht dmg Ho Hh) in H. injection H as <-. eauto.
    + unfold Combat.take_damage in H.
      rewrite (bind_Raise _ _ _ _ _ (get_health_None _ _ _ Ho Hh)) in H. discriminate.
  - unfold Combat.take_damage, get_health, bind, deref in H. rewrite Ho in H. discriminate.
Qed.

(** An attack that returns has either done nothing or hit the target. *)
Lemma attack_inv s t w w' :
  Combat.attack (Some s) (Some t) w = (Ok tt, w') ->
  w' = w
  \/ exists ot ht dealt,
       objects w !! t = Some ot /\ obj_health ot = Some ht
       /\ w' = after_hit w t ot ht dealt.
Proof.
  unfold Combat.attack. unfold bind at 1.
  destruct (Combat.is_alive (Some s) w) as [[alive|e] w1] eqn:E1;
    apply is_alive_readonly in E1; subst w1; [|discriminate].
  destruct alive; [|intros [= <-]; now left].
  unfold bind at 1.
  destruct (get_damage (Some s) w) as [[d|e] w1] eqn:E2;
    apply get_damage_readonly in E2; subst w1; [|discriminate].
  unfold bind at 1. unfold lift at 1.
  destruct (PyFloat.int_times_0_8 d) as [low|e]; [|discriminate].
  unfold bind at 1.
  destruct (get_damage (Some s) w) as [[d'|e] w1] eqn:E3;
    apply get_damage_readonly in E3; subst w1; [|discriminate].
  unfold bind at 1. unfold random.randint.
  destruct (0 <? d' + 1 - low); [|discriminate].
  fold (after_draw w). set (dealt := low + _).
  unfold bind at 1.
  destruct (Combat.get_name (Some s) (after_draw w)) as [[n1|e] w1] eqn:E4;
    apply get_name_readonly in E4; subst w1; [|discriminate].
  unfold bind at 1.
  destruct (Combat.get_name (Some t) (after_draw w)) as [[n2|e] w1] eqn:E5;
    apply get_name_readonly in E5; subst w1; [|discriminate].
  intros H. apply take_damage_inv in H as (ot & ht & Ho & Hh & ->).
  right. exists ot, ht, dealt. auto.
Qed.

Lemma attack_frame s t w w' :
  Combat.attack (Some s) (Some t) w = (Ok tt, w') ->
  forall a, a <> t -> objects w' !! a = objects w !! a.
Proof.
  intros H a Hne. apply attack_inv in H as [-> | (ot & ht & dealt & _ & _ & ->)]; trivial.
  cbn. now rewrite list_lookup_insert_ne.
Qed.

(** C6 fails on the code: the comment of the removal says that the enemy
    is removed from the NPC list, but [npcs.remove(enemy)] drops the first
    item that is equal ([==]) to the enemy, and two enemies with the same
    description, health and damage are equal.  The room lists a goblin
    that is already dead (1), a bystander (2) and a goblin with 16 health
    (3).  The player defeats the goblin 3 with a hit of 16; the list that
    remains is [2; 3]: the goblin 1 has been removed and the defeated
    goblin 3 is still there. *)
Theorem combat_turn_removes_equal_enemy_instead :
  exists w',
    Game.combat_turn (mkGame [(0, 0%nat)] 4%nat) 3%nat two_goblins_world = (Ok true, w')
    /\ objects w' !! 3%nat = Some (OEnemy (mkEnemy "Goblin" 0 10))
    /\ objects w' !! 0%nat = Some (ORoom (mkRoom "Room 1" [] [2%nat; 3%nat] 0)).
Proof.
  eexists. split; [vm_compute; reflexivity|]. split; reflexivity.
Qed.

(** ** The combat loop *)

Lemma combat_turn_exchange g w enemy p e low low_e :
  objects w !! player g = Some (OPlayer p) ->
  0 < player_health p ->
  objects w !! enemy = Some (OEnemy e) ->
  stdin w (stdin_pos w) = 0 ->
  PyFloat.int_times_0_8 (player_damage p) = Ok low ->
  low <= player_damage p ->
  0 < enemy_health e - drawn w low (player_damage p) ->
  PyFloat.int_times_0_8 (enemy_damage e) = Ok low_e ->
  low_e <= enemy_damage e ->
  Game.combat_turn g enemy w
  = (Ok true,
     after_exchange w (player g) p enemy e
       (drawn w low (player_damage p))
       (drawn (after_draw w) low_e (enemy_damage e))).
Proof.
  intros Hp Halive He Hin Hlow Hle Hsurv Hlow_e Hle_e.
  unfold Game.combat_turn.
  rewrite (bind_Ok _ _ _ _ _ (read_int_Ok w)). rewrite Hin. cbn [Z.eqb].
  set (dealt := drawn w low (player_damage p)) in *.
  assert (Hatt : Combat.attack (Some (player g)) (Some enemy) (after_input w)
                 = (Ok tt, after_hit (after_input w) enemy (OEnemy e) (enemy_health e)
                             (drawn (after_input w) low (player_damage p)))).
  { now apply attack_alive with (os := OPlayer p) (hs := player_health p). }
  change (drawn (after_input w) low (player_damage p)) with dealt in Hatt.
  rewrite (bind_Ok _ _ _ _ _ Hatt).
  set (w1 := after_hit (after_input w) enemy (OEnemy e) (enemy_health e) dealt).
  set (e1 := mkEnemy (enemy_description e) (enemy_health e - dealt) (enemy_damage e)).
  assert (Hne : enemy <> player g) by (intros E; rewrite E in He; congruence).
  assert (He1 : objects w1 !! enemy = Some (OEnemy e1)).
  { cbn. apply list_lookup_insert_eq. eapply lookup_lt_Some, He. }
  assert (Hp1 : objects w1 !! player g = Some (OPlayer p)).
  { cbn. now rewrite list_lookup_insert_ne. }
  rewrite (bind_Ok _ _ _ _ _ (is_alive_Some _ _ _ _ He1 eq_refl)).
  cbn [enemy_health e1].
  replace (0 <? enemy_health e - dealt) with true by (symmetry; apply Z.ltb_lt; lia).
  rewrite (bind_Ok _ _ _ _ _
             (attack_alive w1 enemy (player g) (OEnemy e1) (OPlayer p)
                (enemy_health e - dealt) (enemy_damage e) (player_health p) low_e
                He1 eq_refl Hsurv eq_refl Hlow_e Hle_e Hp1 eq_refl)).
  reflexivity.
Qed.

Lemma combat_loop_more_fuel g enemy n :
  forall w res m,
    Game.combat_loop n g enemy w = Some res -> (n <= m)%nat ->
    Game.combat_loop m g enemy w = Some res.
Proof.
  induction n as [|n IH]; intros w res m H Hle.
  - destruct m as [|m]; [exact H|]. cbn [Game.combat_loop] in *.
    destruct (Game.combat_guard g enemy w) as [[[]|e] w1]; trivial. discriminate.
  - destruct m as [|m]; [lia|]. cbn [Game.combat_loop] in *.
    destruct (Game.combat_guard g enemy w) as [[[]|e] w1]; trivial.
    destruct (Game.combat_turn g enemy w1) as [[[]|e] w2]; trivial.
    apply IH; [exact H | lia].
Qed.

Section GoblinFight.
Variables rnd inp : nat -> Z.
Hypothesis attack_each_round : forall n, inp n = 0.

Lemma fight_guard hp he listed i j :
  Game.combat_guard initial_game 6%nat (fight_world rnd inp hp he listed i j)
  = (Ok ((0 <? hp) && (0 <? he)), fight_world rnd inp hp he listed i j).
Proof.
  unfold Game.combat_guard.
  rewrite (bind_Ok _ _ _ _ _
             (is_alive_Some (fight_world rnd inp hp he listed i j) 2%nat
                (OPlayer (mkPlayer "Matthew" (Some 0%nat) hp 20)) hp eq_refl eq_refl)).
  destruct (0 <? hp); [|reflexivity].
  apply (is_alive_Some (fight_world rnd inp hp he listed i j) 6%nat
           (OEnemy (mkEnemy "A fierce goblin" he 15)) he eq_refl eq_refl).
Qed.

Lemma fight_turn hp he i j :
  0 < hp ->
  let d1 := 16 + rnd i mod 5 in
  let d2 := 12 + rnd (S i) mod 4 in
  Game.combat_turn initial_game 6%nat (fight_world rnd inp hp he true i j)
  = (Ok true,
     if 0 <? he - d1
     then fight_world rnd inp (hp - d2) (he - d1) true (S (S i)) (S j)
     else fight_world rnd inp hp (he - d1) false (S i) (S j)).
Proof.
  intros Hhp d1 d2. set (w := fight_world rnd inp hp he true i j).
  assert (Hlow : PyFloat.int_times_0_8 20 = Ok 16) by (vm_compute; reflexivity).
  assert (Hlow_e : PyFloat.int_times_0_8 15 = Ok 12) by (vm_compute; reflexivity).
  destruct (0 <? he - d1) eqn:E.
  - apply Z.ltb_lt in E.
    rewrite (combat_turn_exchange initial_game w 6%nat
               (mkPlayer "Matthew" (Some 0%nat) hp 20)
               (mkEnemy "A fierce goblin" he 15) 16 12);
      try reflexivity; trivial; try (cbn; lia).
  - apply Z.ltb_ge in E.
    rewrite (combat_turn_defeat initial_game w
               (after_hit (after_input w) 6%nat (OEnemy (mkEnemy "A fierce goblin" he 15))
                  he d1)
               6%nat 0%nat (mkPlayer "Matthew" (Some 0%nat) hp 20)
               (mkEnemy "A fierce goblin" (he - d1) 15)
               (mkRoom "A dusty room full of old computers." [3%nat; 4%nat]
                  [5%nat; 6%nat] 0)
               [5%nat] []);
      try reflexivity; trivial.
    + assert (Hle : 16 <= 20) by lia.
      exact (attack_alive (after_input w) 2%nat 6%nat
               (OPlayer (mkPlayer "Matthew" (Some 0%nat) hp 20))
               (OEnemy (mkEnemy "A fierce goblin" he 15)) hp 20 he 16
               eq_refl eq_refl Hhp eq_refl Hlow Hle eq_refl eq_refl).
    + intros H. apply list_elem_of_singleton in H. discriminate H.
    + intros a e' Ha. apply list_elem_of_singleton in Ha. subst a. discriminate.
Qed.

Lemma fight_loop fuel :
  forall hp he i j,
    0 < he <= 16 * Z.of_nat fuel ->
    15 * Z.of_nat fuel < hp ->
    exists hp' he' i' j',
      Game.combat_loop fuel initial_game 6%nat (fight_world rnd inp hp he true i j)
      = Some (Ok tt, fight_world rnd inp hp' he' false i' j')
      /\ he' <= 0 /\ 0 < hp' /\ (j' <= j + fuel)%nat.
Proof.
  induction fuel as [|fuel IH]; intros hp he i j Hhe Hhp; [lia|].
  cbn [Game.combat_loop]. rewrite fight_guard.
  replace (0 <? hp) with true by (symmetry; apply Z.ltb_lt; lia).
  replace (0 <? he) with true by (symmetry; apply Z.ltb_lt; lia).
  cbn [andb]. rewrite fight_turn by lia.
  pose proof (Z.mod_pos_bound (rnd i) 5 eq_refl) as Hd1.
  pose proof (Z.mod_pos_bound (rnd (S i)) 4 eq_refl) as Hd2.
  set (d1 := 16 + rnd i mod 5) in *. set (d2 := 12 + rnd (S i) mod 4) in *.
  destruct (0 <? he - d1) eqn:E.
  - apply Z.ltb_lt in E.
    destruct (IH (hp - d2) (he - d1) (S (S i)) (S j)) as (hp' & he' & i' & j' & H & ? & ? & ?);
      [lia | lia |].
    exists hp', he', i', j'. repeat split; trivial. lia.
  - apply Z.ltb_ge in E.
    exists hp, (he - d1), (S i), (S j). repeat split; try lia.
    destruct fuel; cbn [Game.combat_loop]; rewrite fight_guard;
      replace (0 <? hp) with true by (symmetry; apply Z.ltb_lt; lia);
      replace (0 <? he - d1) with false by (symmetry; apply Z.ltb_ge; lia);
      reflexivity.
Qed.
End GoblinFight.

(** C9: in the world of [Game()], when the player (health 100, damage
    20) fights the goblin (health 50, damage 15) and chooses to attack at
    every turn, the combat loop ends, whatever the random draws, within
    ceil(50/16) + ceil(100/12) = 13 turns (in fact within 4).  It ends
    because the goblin's health has reached 0 or less; the player's health
    is still positive, and the goblin has been removed from the room. *)
Theorem combat_with_goblin_terminates (rnd inp : nat -> Z) :
  (forall n, inp n = 0) ->
  exists hp' he' i' j',
    Game.combat scenario_rounds initial_game 6%nat (initial_world rnd inp)
    = Some (Ok tt, fight_world rnd inp hp' he' false i' j')
    /\ he' <= 0 /\ 0 < hp'
    /\ (j' <= 4)%nat /\ (j' <= scenario_rounds)%nat.
Proof.
  intros Hinp.
  destruct (fight_loop rnd inp Hinp 4 100 50 0 0) as (hp' & he' & i' & j' & H & ? & ? & ?);
    [lia | lia |].
  exists hp', he', i', j'. repeat split; trivial.
  - unfold Game.combat.
    change (get_description (Some 6%nat) (initial_world rnd inp))
      with (Ok "A fierce goblin", initial_world rnd inp).
    apply combat_loop_more_fuel with (n := 4%nat); [exact H|].
    vm_compute. lia.
  - change scenario_rounds with 13%nat. lia.
Qed.

Lemma combat_with_goblin_terminates_witness :
  exists hp' he' i' j',
    Game.combat scenario_rounds initial_game 6%nat
      (initial_world (fun _ => 0) (fun _ => 0))
    = Some (Ok tt, fight_world (fun _ => 0) (fun _ => 0) hp' he' false i' j')
    /\ he' <= 0 /\ 0 < hp'
    /\ (j' <= 4)%nat /\ (j' <= scenario_rounds)%nat.
Proof.
  apply (combat_with_goblin_terminates (fun _ => 0) (fun _ => 0)). reflexivity.
Defined.

(** * Further properties *)

(** ** Encoding *)

Lemma map_M_readonly {A B} (f : A -> M B) (l : list A) :
  (forall x w res w', f x w = (res, w') -> w' = w) ->
  forall w res w', map_M f l w = (res, w') -> w' = w.
Proof.
  intros Hf. induction l as [|x l IH]; intros w res w'; cbn [map_M].
  - now intros [= _ <-].
  - unfold bind at 1. destruct (f x w) as [[y|e] w1] eqn:E; apply Hf in E; subst w1;
      [|now intros [= _ <-]].
    unfold bind at 1. destruct (map_M f l w) as [[ys|e] w1] eqn:El; apply IH in El; subst w1;
      now intros [= _ <-].
Qed.

Lemma map_M_inv {A B} (f : A -> M B) (P : A -> B -> Prop) (w : World) :
  (forall x y w', f x w = (Ok y, w') -> w' = w /\ P x y) ->
  forall l ys w', map_M f l w = (Ok ys, w') -> w' = w /\ Forall2 P l ys.
Proof.
  intros Hf. induction l as [|x l IH]; intros ys w'; cbn [map_M].
  - intros [= <- <-]. split; [reflexivity | constructor].
  - unfold bind at 1. destruct (f x w) as [[y|e] w1] eqn:E; [|discriminate].
    apply Hf in E as [-> Hxy].
    unfold bind at 1. destruct (map_M f l w) as [[ys'|e] w1] eqn:El; [|discriminate].
    destruct (IH _ _ eq_refl) as [-> Hl]. intros [= <- <-].
    split; [reflexivity | now constructor].
Qed.

Lemma door_toJSON_readonly door w res w' : Room.door_toJSON door w = (res, w') -> w' = w.
Proof.
  unfold Room.door_toJSON, bind. destruct (deref (Some door) w) as [[o|e] w1] eqn:E;
    apply deref_readonly in E; subst w1; [destruct o|]; now intros [= _ <-].
Qed.

Lemma npc_toJSON_readonly npc w res w' : Room.npc_toJSON npc w = (res, w') -> w' = w.
Proof.
  unfold Room.npc_toJSON, bind. destruct (deref (Some npc) w) as [[o|e] w1] eqn:E;
    apply deref_readonly in E; subst w1; [destruct o|]; now intros [= _ <-].
Qed.

Lemma Room_toJSON_readonly x w res w' : Room.toJSON x w = (res, w') -> w' = w.
Proof.
  unfold Room.toJSON. unfold bind at 1.
  destruct (get_room x w) as [[r|e] w1] eqn:E; apply get_room_readonly in E; subst w1;
    [|now intros [= _ <-]].
  unfold bind at 1.
  destruct (map_M Room.door_toJSON (doors r) w) as [[ds|e] w1] eqn:Ed;
    apply (map_M_readonly _ _ door_toJSON_readonly) in Ed; subst w1; [|now intros [= _ <-]].
  unfold bind at 1.
  destruct (map_M Room.npc_toJSON (npcs r) w) as [[ns|e] w1] eqn:En;
    apply (map_M_readonly _ _ npc_toJSON_readonly) in En; subst w1; now intros [= _ <-].
Qed.

Lemma Player_toJSON_readonly x w res w' : Player.toJSON x w = (res, w') -> w' = w.
Proof.
  unfold Player.toJSON. unfold bind at 1.
  destruct (get_player x w) as [[p|e] w1] eqn:E.
  - assert (w1 = w) as ->.
    { unfold get_player, bind in E. destruct (deref x w) as [[o|e] w2] eqn:E';
        apply deref_readonly in E'; subst w2; [destruct o|]; now injection E. }
    unfold bind at 1.
    destruct (deref (current_room p) w) as [[o|e] w1] eqn:E1;
      apply deref_readonly in E1; subst w1; [|now intros [= _ <-]].
    destruct o; try now intros [= _ <-].
    unfold bind at 1.
    destruct (Room.toJSON (current_room p) w) as [[j|e] w1] eqn:E2;
      apply Room_toJSON_readonly in E2; subst w1; now intros [= _ <-].
  - unfold get_player, bind in E. destruct (deref x w) as [[o|e'] w2] eqn:E';
      apply deref_readonly in E'; subst w2; [destruct o|]; injection E as _ <-;
      now intros [= _ <-].
Qed.

(** The description that a serialized NPC carries is the description of
    the NPC, whatever its class. *)
Lemma npc_toJSON_description npc w j w' :
  Room.npc_toJSON npc w = (Ok j, w') ->
  w' = w
  /\ exists o d,
       objects w !! npc = Some o /\ obj_description o = Some d
       /\ npc_description j = Some d.
Proof.
  unfold Room.npc_toJSON, bind, deref.
  destruct (objects w !! npc) as [[n|e|z|d|r|p]|] eqn:Ho; cbn; try discriminate;
    intros [= <- <-]; (split; [reflexivity|]); eexists _, _;
    (split; [reflexivity|]); (split; [reflexivity|]); reflexivity.
Qed.

Lemma Room_toJSON_inv x w j w' :
  Room.toJSON x w = (Ok j, w') ->
  w' = w
  /\ exists a r,
       x = Some a /\ objects w !! a = Some (ORoom r)
       /\ j_room_description j = room_description r
       /\ j_room_id j = room_id r
       /\ Forall2 (fun n jn => exists o d,
                      objects w !! n = Some o /\ obj_description o = Some d
                      /\ npc_description jn = Some d)
                  (npcs r) (j_npcs j).
Proof.
  intros H. pose proof (Room_toJSON_readonly _ _ _ _ H) as ->. split; [reflexivity|].
  unfold Room.toJSON in H. unfold bind at 1 in H.
  destruct (get_room x w) as [[r|e] w1] eqn:E; [|discriminate].
  pose proof (get_room_readonly _ _ _ _ E) as ->.
  unfold get_room, bind, deref in E. destruct x as [a|]; [|discriminate].
  destruct (objects w !! a) as [[]|] eqn:Ha; try discriminate. injection E as ->.
  exists a, r. split; [reflexivity|]. split; [exact Ha|].
  unfold bind at 1 in H.
  destruct (map_M Room.door_toJSON (doors r) w) as [[ds|e] w1] eqn:Ed; [|discriminate].
  apply (map_M_readonly _ _ door_toJSON_readonly) in Ed. subst w1.
  unfold bind at 1 in H.
  destruct (map_M Room.npc_toJSON (npcs r) w) as [[ns|e] w1] eqn:En; [|discriminate].
  apply (map_M_inv _ _ w (fun n jn w' => npc_toJSON_description n w jn w')) in En as [-> Hn].
  injection H as <-. cbn. auto.
Qed.

Lemma Forall2_descriptions w (l : list nat) (js : list (gmap string jval)) :
  Forall2 (fun n jn => exists o d,
              objects w !! n = Some o /\ obj_description o = Some d
              /\ npc_description jn = Some d) l js ->
  exists descs,
    Forall2 (fun n d => exists o, objects w !! n = Some o /\ obj_description o = Some d)
            l descs
    /\ Forall2 (fun jn d => npc_description jn = Some d) js descs.
Proof.
  induction 1 as [|n jn l js (o & d & Ho & Hd & Hj) _ (descs & IH1 & IH2)].
  - exists []. split; constructor.
  - exists (d :: descs). split; constructor; eauto.
Qed.

(** X1: a room that has been encoded by [Room.toJSON] is decoded by
    [Room.fromJSON], in any store, into a new room with the same
    description and the same [room_id], no door, and as many NPCs as the
    room had: new plain NPCs that carry, in order, the descriptions of the
    NPCs of the room.  Encoding changes nothing. *)
Theorem Room_roundtrip_keeps_descriptions
  (w w' : World) (room : addr) (json_data : RoomJSON) :
  Room.toJSON (Some room) w = (Ok json_data, w') ->
  w' = w
  /\ exists r descs,
       objects w !! room = Some (ORoom r)
       /\ Forall2 (fun n d => exists o, objects w !! n = Some o /\ obj_description o = Some d)
                  (npcs r) descs
       /\ forall w0,
            Room.fromJSON json_data w0
            = (Ok (List.length (objects w0)),
               with_objects
                 (objects w0
                  ++ ORoom (mkRoom (room_description r) []
                              (seq (S (List.length (objects w0))) (List.length (npcs r)))
                              (room_id r))
                     :: map (fun d => ONPC (mkNPC d)) descs)
                 w0).
Proof.
  intros H. apply Room_toJSON_inv in H as (-> & a & r & [= <-] & Hr & Hdesc & Hid & Hn).
  split; [reflexivity|].
  destruct (Forall2_descriptions _ _ _ Hn) as (descs & H1 & H2).
  exists r, descs. split; [exact Hr|]. split; [exact H1|].
  intros w0. rewrite (Room_fromJSON_Ok json_data descs w0 H2).
  unfold decoded_room. rewrite Hdesc, Hid.
  now rewrite <- (Forall2_length _ _ _ Hn).
Qed.

Lemma Room_roundtrip_keeps_descriptions_witness :
  exists json_data,
    Room.toJSON (Some 1%nat) (initial_world (fun _ => 0) (fun _ => 0))
    = (Ok json_data, initial_world (fun _ => 0) (fun _ => 0))
    /\ Room.fromJSON json_data (empty_world (fun _ => 0) (fun _ => 0))
       = (Ok 0%nat,
          with_objects
            [ ORoom (mkRoom "A dark room with dark doors." [] [1%nat; 2%nat; 3%nat] 1);
              ONPC (mkNPC "The kerstman");
              ONPC (mkNPC "A dangerous vampire");
              ONPC (mkNPC "A wise old wizard") ]
            (empty_world (fun _ => 0) (fun _ => 0))).
Proof.
  set (w := initial_world (fun _ => 0) (fun _ => 0)).
  exists second_room_json.
  assert (E : Room.toJSON (Some 1%nat) w = (Ok second_room_json, w)) by reflexivity.
  split; [exact E|].
  destruct (Room_roundtrip_keeps_descriptions w w 1%nat second_room_json E)
    as (_ & r & descs & Hr & Hd & Hdec).
  injection Hr as <-. cbn [npcs] in Hd.
  rewrite (Hdec (empty_world (fun _ => 0) (fun _ => 0))).
  repeat match goal with
         | H : Forall2 _ (_ :: _) _ |- _ =>
             apply Forall2_cons_inv_l in H as (? & ? & (? & [= <-] & [= <-]) & H & ->)
         | H : Forall2 _ [] _ |- _ => apply Forall2_nil_inv_l in H as ->
         end.
  reflexivity.
Defined.

Lemma get_player_inv x w p w' :
  get_player x w = (Ok p, w') ->
  w' = w /\ exists a, x = Some a /\ objects w !! a = Some (OPlayer p).
Proof.
  unfold get_player, bind, deref. destruct x as [a|]; [|discriminate].
  destruct (objects w !! a) as [[]|] eqn:Ha; try discriminate.
  intros [= <- <-]. eauto.
Qed.

Lemma Player_toJSON_inv x w j w' :
  Player.toJSON x w = (Ok j, w') ->
  w' = w
  /\ exists a p,
       x = Some a /\ objects w !! a = Some (OPlayer p)
       /\ j_name j = name p /\ j_health j = player_health p
       /\ j_damage j = player_damage p
       /\ Room.toJSON (current_room p) w = (Ok (j_current_room j), w).
Proof.
  intros H. pose proof (Player_toJSON_readonly _ _ _ _ H) as ->. split; [reflexivity|].
  unfold Player.toJSON in H. unfold bind at 1 in H.
  destruct (get_player x w) as [[p|e] w1] eqn:E; [|discriminate].
  apply get_player_inv in E as (-> & a & -> & Ha).
  unfold bind at 1 in H.
  destruct (deref (current_room p) w) as [[o|e] w1] eqn:E1; [|discriminate].
  apply deref_readonly in E1 as ->. destruct o; try discriminate.
  unfold bind at 1 in H.
  destruct (Room.toJSON (current_room p) w) as [[jr|e] w1] eqn:E2; [|discriminate].
  pose proof (Room_toJSON_readonly _ _ _ _ E2) as ->.
  injection H as <-. exists a, p. cbn. auto 10.
Qed.

Lemma Game_toJSON_inv g w j w' :
  Game.toJSON g w = (Ok j, w') ->
  w' = w
  /\ Forall2 (fun ka kj => fst kj = fst ka /\ Room.toJSON (Some (snd ka)) w = (Ok (snd kj), w))
             (rooms g) (j_rooms j)
  /\ Player.toJSON (Some (player g)) w = (Ok (j_player j), w).
Proof.
  unfold Game.toJSON. unfold bind at 1.
  destruct (map_M _ (rooms g) w) as [[rs|e] w1] eqn:E; [|discriminate].
  apply (map_M_inv _
           (fun ka kj => fst kj = fst ka /\ Room.toJSON (Some (snd ka)) w = (Ok (snd kj), w)) w)
    in E as [-> Hrs].
  - unfold bind at 1.
    destruct (Player.toJSON (Some (player g)) w) as [[jp|e] w1] eqn:Ep; [|discriminate].
    pose proof (Player_toJSON_readonly _ _ _ _ Ep) as ->.
    intros [= <- <-]. cbn. auto.
  - intros [k a] [k' jr] w2. unfold bind at 1.
    destruct (Room.toJSON (Some a) w) as [[jr'|e] w3] eqn:Er; [|discriminate].
    pose proof (Room_toJSON_readonly _ _ _ _ Er) as ->.
    intros [= <- <- <-]. cbn. auto.
Qed.

Lemma Room_toJSON_well_formed x w j w' :
  Room.toJSON x w = (Ok j, w') -> npcs_well_formed j.
Proof.
  intros H. apply Room_toJSON_inv in H as (_ & a & r & _ & _ & _ & _ & Hn).
  unfold npcs_well_formed. clear -Hn.
  induction Hn as [|n jn l js (o & d & _ & _ & Hj) _ IH]; constructor; eauto.
Qed.

(** What [Game.toJSON] writes can be read back: every NPC entry of every
    room has its description. *)
Lemma Game_toJSON_well_formed g w j w' :
  Game.toJSON g w = (Ok j, w') -> snapshot_well_formed j.
Proof.
  intros H. apply Game_toJSON_inv in H as (_ & Hrs & Hp). split.
  - unfold dict_values. induction Hrs as [|ka kj l js [_ Hr] _ IH]; cbn; constructor; trivial.
    eapply Room_toJSON_well_formed, Hr.
  - apply Player_toJSON_inv in Hp as (_ & a & p & _ & _ & _ & _ & _ & Hr).
    eapply Room_toJSON_well_formed, Hr.
Qed.

(** ** Decoding a game *)

Lemma Player_fromJSON_result json_data descs w :
  Forall2 (fun j d => npc_description j = Some d) (j_npcs (j_current_room json_data)) descs ->
  Player.fromJSON json_data w
  = (Ok (decoded_player_addr json_data w), decoded_player_world json_data descs w).
Proof.
  intros Hd. unfold Player.fromJSON.
  rewrite (bind_Ok _ _ _ _ _ (Room_fromJSON_Ok _ descs w Hd)).
  unfold Player.new. cbn [objects with_objects].
  rewrite list_lookup_middle by reflexivity. unfold decoded_room, alloc.
  unfold decoded_player_addr, decoded_player_world, with_objects, decoded_room.
  cbn [objects rand rand_pos stdin stdin_pos].
  rewrite length_app. cbn [List.length]. rewrite length_map, <- (Forall2_length _ _ _ Hd).
  rewrite <- app_assoc. cbn [app]. do 2 f_equal. lia.
Qed.

Lemma no_doors_allocated rooms w k a :
  no_doors rooms w -> (k, a) ∈ rooms -> (a < List.length (objects w))%nat.
Proof.
  intros Hnd Hin. destruct (Hnd k a Hin) as (r & Hr & _). eapply lookup_lt_Some, Hr.
Qed.

Lemma Game_fromJSON_result json_data w :
  snapshot_well_formed json_data ->
  exists rooms w1 descs,
    Forall2 (fun j d => npc_description j = Some d)
            (j_npcs (j_current_room (j_player json_data))) descs
    /\ extends w w1
    /\ no_doors rooms w1
    /\ (forall k, dict_get k rooms = None <-> k ∉ snapshot_room_ids json_data)
    /\ Game.fromJSON json_data w
       = (Ok (mkGame rooms (decoded_player_addr (j_player json_data) w1)),
          decoded_player_world (j_player json_data) descs w1).
Proof.
  intros [Hrooms Hplayer]. unfold Game.fromJSON.
  destruct (load_rooms_Ok _ Hrooms [] w (no_doors_nil w)) as (rooms & w1 & E1 & Hnd & Hkeys).
  destruct (well_formed_descriptions _ Hplayer) as [descs Hd].
  exists rooms, w1, descs. split; [exact Hd|].
  split; [eapply load_rooms_extends, E1|]. split; [exact Hnd|]. split.
  - intros k. rewrite Hkeys. cbn [dict_get]. unfold snapshot_room_ids. tauto.
  - rewrite (bind_Ok _ _ _ _ _ E1).
    rewrite (bind_Ok _ _ _ _ _ (resolve_doors_no_doors _ _ Hnd)).
    now rewrite (bind_Ok _ _ _ _ _ (Player_fromJSON_result _ _ _ Hd)).
Qed.

Lemma decoded_player_world_player json_data descs w :
  List.length descs = List.length (j_npcs (j_current_room json_data)) ->
  objects (decoded_player_world json_data descs w) !! decoded_player_addr json_data w
  = Some (OPlayer (mkPlayer (j_name json_data) (Some (List.length (objects w)))
                     (j_health json_data) (j_damage json_data))).
Proof.
  intros Hlen. unfold decoded_player_world, decoded_player_addr. cbn [objects with_objects].
  rewrite lookup_app_r by lia.
  replace (S (List.length (objects w)) + _ - _)%nat
    with (S (List.length (map (fun d => ONPC (mkNPC d)) descs)))
    by (rewrite length_map; lia).
  cbn [lookup list_lookup]. now apply list_lookup_middle.
Qed.

Lemma decoded_player_world_room json_data descs w :
  objects (decoded_player_world json_data descs w) !! List.length (objects w)
  = Some (decoded_room (j_current_room json_data)
            (seq (S (List.length (objects w)))
                 (List.length (j_npcs (j_current_room json_data))))).
Proof.
  unfold decoded_player_world. cbn [objects with_objects].
  now rewrite list_lookup_middle.
Qed.

Lemma decoded_player_world_npc json_data descs w n :
  n ∈ seq (S (List.length (objects w))) (List.length descs) ->
  exists d, objects (decoded_player_world json_data descs w) !! n = Some (ONPC (mkNPC d)).
Proof.
  intros Hn. apply elem_of_seq in Hn.
  unfold decoded_player_world. cbn [objects with_objects].
  rewrite lookup_app_r by lia.
  destruct (n - List.length (objects w))%nat as [|i] eqn:Ei; [lia|].
  match goal with
  | |- context [(?x :: ?l) !! S ?i] => change ((x :: l) !! S i) with (l !! i)
  end.
  destruct (descs !! i) as [d|] eqn:Hd.
  - exists d. rewrite lookup_app_l by (rewrite length_map; lia).
    now apply (lookup_map (fun d => ONPC (mkNPC d))).
  - apply lookup_ge_None in Hd. lia.
Qed.

Lemma decoded_player_world_extends json_data descs w :
  extends w (decoded_player_world json_data descs w).
Proof. apply extends_app. Qed.

(** X2: decoding a snapshot whose NPC entries are well formed gives a
    player with the name, health and damage of the snapshot, in a room of
    its own: the room is decoded from the copy embedded in the player's
    entry, so it is none of the rooms of the decoded room table, not even
    the one with the same [room_id].  That room has the description and
    the id of the embedded copy and no door. *)
Theorem Game_fromJSON_player_room_is_separate (json_data : GameJSON) (w : World) :
  snapshot_well_formed json_data ->
  exists g w' room r,
    Game.fromJSON json_data w = (Ok g, w')
    /\ objects w' !! player g
       = Some (OPlayer (mkPlayer (j_name (j_player json_data)) (Some room)
                          (j_health (j_player json_data)) (j_damage (j_player json_data))))
    /\ objects w' !! room = Some (ORoom r)
    /\ room_description r = j_room_description (j_current_room (j_player json_data))
    /\ room_id r = j_room_id (j_current_room (j_player json_data))
    /\ doors r = []
    /\ room ∉ dict_values (rooms g).
Proof.
  intros Hwf.
  destruct (Game_fromJSON_result json_data w Hwf)
    as (table & w1 & descs & Hd & Hext & Hnd & Hkeys & E).
  eexists _, _, (List.length (objects w1)), _. split; [exact E|].
  cbn [player rooms]. split; [|split; [|split; [|split; [|split]]]].
  - apply decoded_player_world_player. symmetry. eapply Forall2_length, Hd.
  - apply decoded_player_world_room.
  - reflexivity.
  - reflexivity.
  - reflexivity.
  - unfold dict_values. intros Hin. apply list_elem_of_fmap in Hin as ([k a] & Ha & Hin).
    cbn in Ha. subst a.
    pose proof (no_doors_allocated _ _ _ _ Hnd Hin). lia.
Qed.

Lemma Game_fromJSON_player_room_is_separate_witness :
  exists g w' room r,
    Game.fromJSON initial_snapshot (initial_world (fun _ => 0) (fun _ => 0)) = (Ok g, w')
    /\ objects w' !! player g = Some (OPlayer (mkPlayer "Matthew" (Some room) 100 20))
    /\ objects w' !! room = Some (ORoom r)
    /\ room_description r = "A dusty room full of old computers."
    /\ room_id r = 0
    /\ doors r = []
    /\ room ∉ dict_values (rooms g).
Proof.
  apply (Game_fromJSON_player_room_is_separate initial_snapshot
           (initial_world (fun _ => 0) (fun _ => 0))).
  split; repeat constructor; eexists; vm_compute; reflexivity.
Defined.

Lemma load_rooms_inv room_datas :
  forall rooms w rooms' w',
    Game.load_rooms room_datas rooms w = (Ok rooms', w') ->
    Forall npcs_well_formed room_datas.
Proof.
  induction room_datas as [|rd rest IH]; intros rooms w rooms' w'; cbn [Game.load_rooms].
  - constructor.
  - unfold bind at 1.
    destruct (Room.fromJSON rd w) as [[room|e] w1] eqn:E1; [|discriminate].
    unfold bind at 1.
    destruct (get_room (Some room) w1) as [[r|e] w2] eqn:E2; [|discriminate].
    intros Hrest. constructor; [|eapply IH, Hrest].
    destruct (Room_fromJSON_inv _ _ _ _ E1) as [descs Hd].
    unfold npcs_well_formed. clear -Hd. induction Hd; constructor; eauto.
Qed.

(** [Game.fromJSON] returns a game only for a snapshot whose NPC entries
    all have a description. *)
Lemma Game_fromJSON_inv json_data w g w' :
  Game.fromJSON json_data w = (Ok g, w') -> snapshot_well_formed json_data.
Proof.
  unfold Game.fromJSON. unfold bind at 1.
  destruct (Game.load_rooms _ [] w) as [[table|e] w1] eqn:E1; [|discriminate].
  unfold bind at 1.
  destruct (Game.resolve_doors table w1) as [[[]|e] w2] eqn:E2; [|discriminate].
  unfold bind at 1.
  destruct (Player.fromJSON _ w2) as [[pl|e] w3] eqn:E3; [|discriminate].
  intros _. split; [eapply load_rooms_inv, E1|].
  unfold Player.fromJSON in E3. unfold bind at 1 in E3.
  destruct (Room.fromJSON _ w2) as [[room|e] w4] eqn:E4; [|discriminate].
  destruct (Room_fromJSON_inv _ _ _ _ E4) as [descs Hd].
  unfold npcs_well_formed. clear -Hd. induction Hd; constructor; eauto.
Qed.

Lemma snapshot_room_ids_toJSON (table : list (Z * nat)) (jrooms : list (Z * RoomJSON)) w k :
  Forall2 (fun ka kj => fst kj = fst ka /\ Room.toJSON (Some (snd ka)) w = (Ok (snd kj), w))
          table jrooms ->
  k ∈ map j_room_id (dict_values jrooms)
  <-> exists k0 a r, (k0, a) ∈ table /\ objects w !! a = Some (ORoom r) /\ room_id r = k.
Proof.
  unfold dict_values.
  induction 1 as [|[k0 a] [k1 jr] l js [_ Hr] _ IH]; cbn [map snd].
  - split; [intros H; now apply elem_of_nil in H|].
    intros (k0 & a & r & H & _). now apply elem_of_nil in H.
  - cbn [snd] in Hr.
    apply Room_toJSON_inv in Hr as (_ & a' & r & [= <-] & Ha & _ & Hid & _).
    rewrite elem_of_cons, IH. split.
    + intros [-> | (k2 & a2 & r2 & Hin & Ha2 & Hk)].
      * exists k0, a, r. split; [now left | auto].
      * exists k2, a2, r2. split; [now right | auto].
    + intros (k2 & a2 & r2 & Hin & Ha2 & Hk). apply elem_of_cons in Hin as [[= -> ->] | Hin].
      * left. congruence.
      * right. exists k2, a2, r2. auto.
Qed.

(** X3: a game that [Game.toJSON] has encoded is decoded again by
    [Game.fromJSON], without raising.  Encoding changes nothing and
    decoding only adds objects.  The decoded player is a new object with
    the name, the health and the damage of the player, and stands in a new
    room (an object that the store did not have) with the description,
    the id and the number of NPCs of the player's current room.  The decoded room table has a room under the key [k]
    exactly when a room of the table of the game has [room_id = k]. *)
Theorem Game_roundtrip_keeps_player (g : Game) (w w' : World) (json_data : GameJSON) :
  Game.toJSON g w = (Ok json_data, w') ->
  w' = w
  /\ exists p room r g' w2 room' r',
       objects w !! player g = Some (OPlayer p)
       /\ current_room p = Some room
       /\ objects w !! room = Some (ORoom r)
       /\ Game.fromJSON json_data w = (Ok g', w2)
       /\ extends w w2
       /\ objects w2 !! player g'
          = Some (OPlayer (mkPlayer (name p) (Some room') (player_health p) (player_damage p)))
       /\ objects w2 !! room' = Some (ORoom r')
       /\ objects w !! player g' = None
       /\ objects w !! room' = None
       /\ room_description r' = room_description r
       /\ room_id r' = room_id r
       /\ List.length (npcs r') = List.length (npcs r)
       /\ (forall k,
             is_Some (dict_get k (rooms g'))
             <-> exists k0 a r0,
                   (k0, a) ∈ rooms g /\ objects w !! a = Some (ORoom r0) /\ room_id r0 = k).
Proof.
  intros H. pose proof (Game_toJSON_well_formed _ _ _ _ H) as Hwf.
  apply Game_toJSON_inv in H as (-> & Hrs & Hp). split; [reflexivity|].
  apply Player_toJSON_inv in Hp as (_ & a & p & [= <-] & Hpl & Hname & Hhealth & Hdamage & Hr).
  apply Room_toJSON_inv in Hr as (_ & room & r & Hcur & Hroom & Hdesc & Hid & Hn).
  destruct (Game_fromJSON_result json_data w Hwf)
    as (table & w1 & descs & Hd & Hext & Hnd & Hkeys & E).
  exists p, room, r. eexists _, _, (List.length (objects w1)), _.
  split; [exact Hpl|]. split; [exact Hcur|]. split; [exact Hroom|]. split; [exact E|].
  split; [eapply extends_trans; [exact Hext | apply decoded_player_world_extends]|].
  split.
  { cbn [player].
    rewrite decoded_player_world_player by (symmetry; eapply Forall2_length, Hd).
    now rewrite Hname, Hhealth, Hdamage. }
  split; [apply decoded_player_world_room|].
  pose proof (prefix_length _ _ (proj1 Hext)) as Hgrow.
  split; [apply lookup_ge_None; cbn [player]; unfold decoded_player_addr; lia|].
  split; [apply lookup_ge_None; lia|].
  split; [exact Hdesc|]. split; [exact Hid|].
  split; [cbn [npcs]; rewrite length_seq; symmetry; eapply Forall2_length, Hn|].
  intros k. cbn [rooms].
  rewrite <- (snapshot_room_ids_toJSON _ _ _ _ Hrs). fold (snapshot_room_ids json_data).
  rewrite <- not_eq_None_Some, Hkeys.
  destruct (decide (k ∈ snapshot_room_ids json_data)); tauto.
Qed.

Lemma Game_roundtrip_keeps_player_witness :
  let w := initial_world (fun _ => 0) (fun _ => 0) in
  exists p room r g' w2 room' r',
    objects w !! player initial_game = Some (OPlayer p)
    /\ current_room p = Some room
    /\ objects w !! room = Some (ORoom r)
    /\ Game.fromJSON initial_snapshot w = (Ok g', w2)
    /\ extends w w2
    /\ objects w2 !! player g'
       = Some (OPlayer (mkPlayer (name p) (Some room') (player_health p) (player_damage p)))
    /\ objects w2 !! room' = Some (ORoom r')
    /\ objects w !! player g' = None
    /\ objects w !! room' = None
    /\ room_description r' = room_description r
    /\ room_id r' = room_id r
    /\ List.length (npcs r') = List.length (npcs r)
    /\ (forall k,
          is_Some (dict_get k (rooms g'))
          <-> exists k0 a r0,
                (k0, a) ∈ rooms initial_game /\ objects w !! a = Some (ORoom r0)
                /\ room_id r0 = k).
Proof.
  intros w.
  assert (E : Game.toJSON initial_game w = (Ok initial_snapshot, w)) by reflexivity.
  exact (proj2 (Game_roundtrip_keeps_player initial_game w w initial_snapshot E)).
Defined.

(** ** The menus, in a game that has been loaded *)

Lemma show_items_Ok (items : list nat) w :
  Forall (fun a => exists o s, objects w !! a = Some o /\ obj_description o = Some s) items ->
  Game.show_items items w = (Ok tt, w).
Proof.
  unfold Game.show_items.
  induction 1 as [|a items (o & s & Ho & Hs) _ IH]; cbn [for_each]; [reflexivity|].
  unfold bind at 1. unfold bind at 1. unfold inspect.
  rewrite (bind_Ok _ _ _ _ _ (deref_Some _ _ _ Ho)).
  destruct o; try discriminate; exact IH.
Qed.

Lemma look_for_way_out_no_doors g w p room r :
  objects w !! player g = Some (OPlayer p) ->
  current_room p = Some room ->
  objects w !! room = Some (ORoom r) ->
  doors r = [] ->
  Game.look_for_way_out g w = (Ok tt, w).
Proof.
  intros Hp Hcur Hr Hd. unfold Game.look_for_way_out.
  rewrite (bind_Ok _ _ _ _ _ (get_player_Some _ _ _ Hp)). rewrite Hcur.
  rewrite (bind_Ok _ _ _ _ _ (get_room_Some _ _ _ Hr)). now rewrite Hd.
Qed.

(** X4: in a game that [Game.fromJSON] has returned, the player cannot
    leave the room: [look_for_way_out] finds no door, so it returns at
    once, without asking for a choice and without changing anything. *)
Theorem look_for_way_out_after_load (json_data : GameJSON) (w w' : World) (g : Game) :
  Game.fromJSON json_data w = (Ok g, w') ->
  Game.look_for_way_out g w' = (Ok tt, w').
Proof.
  intros E. pose proof (Game_fromJSON_inv _ _ _ _ E) as Hwf.
  destruct (Game_fromJSON_result json_data w Hwf)
    as (table & w1 & descs & Hd & Hext & Hnd & Hkeys & E').
  rewrite E' in E. injection E as <- <-.
  eapply look_for_way_out_no_doors.
  - cbn [player]. apply decoded_player_world_player. symmetry. eapply Forall2_length, Hd.
  - reflexivity.
  - apply decoded_player_world_room.
  - reflexivity.
Qed.

Lemma look_for_way_out_after_load_witness :
  exists g w',
    Game.fromJSON initial_snapshot (initial_world (fun _ => 0) (fun _ => 0)) = (Ok g, w')
    /\ Game.look_for_way_out g w' = (Ok tt, w').
Proof.
  eexists _, _. split; [vm_compute; reflexivity|].
  eapply (look_for_way_out_after_load initial_snapshot
            (initial_world (fun _ => 0) (fun _ => 0))).
  vm_compute. reflexivity.
Defined.

(** X5: in a game that [Game.fromJSON] has returned, [look_for_company]
    has no effect besides reading one choice when the room is not empty:
    the NPCs of the player's room are plain NPCs, so whatever the choice
    no combat is started and no bonus is given; no object changes and no
    random number is drawn. *)
Theorem look_for_company_after_load
  (json_data : GameJSON) (w w' : World) (g : Game) (fuel : nat) :
  Game.fromJSON json_data w = (Ok g, w') ->
  Game.look_for_company fuel g w'
  = Some (Ok tt,
          match j_npcs (j_current_room (j_player json_data)) with
          | [] => w'
          | _ :: _ => after_input w'
          end).
Proof.
  intros E. pose proof (Game_fromJSON_inv _ _ _ _ E) as Hwf.
  destruct (Game_fromJSON_result json_data w Hwf)
    as (table & w1 & descs & Hd & Hext & Hnd & Hkeys & E').
  rewrite E' in E. injection E as <- <-.
  pose proof (Forall2_length _ _ _ Hd) as Hlen.
  set (w2 := decoded_player_world (j_player json_data) descs w1).
  remember (seq (S (List.length (objects w1)))
                (List.length (j_npcs (j_current_room (j_player json_data))))) as ns eqn:Hseq.
  assert (Hns : forall n, n ∈ ns -> exists d, objects w2 !! n = Some (ONPC (mkNPC d))).
  { intros n Hn. apply decoded_player_world_npc. now rewrite <- Hlen, <- Hseq. }
  unfold Game.look_for_company. cbn [player].
  rewrite (bind_Ok _ _ _ _ _
             (get_player_Some _ _ _ (decoded_player_world_player _ descs w1 (eq_sym Hlen)))).
  cbn [current_room].
  rewrite (get_room_Some _ _ _ (decoded_player_world_room (j_player json_data) descs w1)).
  cbn [npcs]. rewrite <- Hseq.
  destruct (j_npcs (j_current_room (j_player json_data))) as [|j js] eqn:Ej;
    cbn [List.length seq] in Hseq; subst ns; [reflexivity|].
  set (ns := S _ :: _) in *.
  assert (Hshow : Game.show_items ns w2 = (Ok tt, w2)).
  { apply show_items_Ok. apply Forall_forall. intros n Hn.
    destruct (Hns n Hn) as [d Hn']. eexists _, _. split; [exact Hn' | reflexivity]. }
  change (match ns with [] => ?x | _ :: _ => ?y end) with y.
  rewrite (bind_Ok _ _ _ _ _ Hshow). rewrite read_int_Ok.
  destruct (Game.in_range _ ns) eqn:Hrange; [|reflexivity].
  destruct (ns !! Z.to_nat (stdin w2 (stdin_pos w2))) as [n|] eqn:En.
  - destruct (Hns n) as [d Hn']; [eapply list_elem_of_lookup_2, En|].
    cbn [objects after_input]. now rewrite Hn'.
  - apply lookup_ge_None in En. unfold Game.in_range in Hrange.
    apply andb_true_iff in Hrange as [H0 H1].
    apply Z.leb_le in H0. apply Z.ltb_lt in H1. lia.
Qed.

Lemma look_for_company_after_load_witness :
  exists g w',
    Game.fromJSON initial_snapshot (initial_world (fun _ => 0) (fun _ => 0)) = (Ok g, w')
    /\ Game.look_for_company 5 g w' = Some (Ok tt, after_input w').
Proof.
  eexists _, _. split; [vm_compute; reflexivity|].
  eapply (look_for_company_after_load initial_snapshot
            (initial_world (fun _ => 0) (fun _ => 0))).
  vm_compute. reflexivity.
Defined.

(** ** Attacks outside of the usual range *)

(** Rounding does not look at the sign. *)
Lemma binary_round_aux_sign s m e l :
  binary_round_aux 53 1024 s m e l = with_sign s (binary_round_aux 53 1024 false m e l).
Proof.
  unfold binary_round_aux.
  destruct (shr_fexp 53 1024 m e l) as [mrs' e'].
  destruct (shr_fexp 53 1024 _ e' loc_Exact) as [mrs'' e''].
  destruct (shr_m mrs'') as [|p|p]; trivial.
  now destruct (e'' <=? 1024 - 53).
Qed.

Lemma to_int_with_sign f :
  PyFloat.to_int (with_sign true f)
  = match PyFloat.to_int (with_sign false f) with
    | Ok z => Ok (- z)
    | Raise e => Raise e
    end.
Proof. destruct f as [s|s| |s m e]; reflexivity. Qed.

(** [int(-n * 0.8)] is the opposite of [int(n * 0.8)]. *)
Lemma int_times_0_8_opp p :
  PyFloat.int_times_0_8 (Zneg p)
  = match PyFloat.int_times_0_8 (Zpos p) with
    | Ok z => Ok (- z)
    | Raise e => Raise e
    end.
Proof.
  unfold PyFloat.int_times_0_8, PyFloat.of_int, PyFloat.prec, PyFloat.emax,
    binary_normalize, binary_round.
  destruct (shl_align p 0 _) as [mz ez].
  rewrite (binary_round_aux_sign true), (binary_round_aux_sign false).
  destruct (binary_round_aux 53 1024 false (Zpos mz) ez loc_Exact) as [s|s| |s m e];
    try reflexivity.
  cbn [with_sign]. unfold PyFloat.mul, PyFloat.lit_0_8, PyFloat.prec, PyFloat.emax, SFmul.
  cbn [xorb].
  rewrite (binary_round_aux_sign true), to_int_with_sign.
  now rewrite <- binary_round_aux_sign.
Qed.

Lemma int_times_0_8_negative d :
  - 2 ^ 50 < d < 0 -> PyFloat.int_times_0_8 d = Ok (- (4 * (- d) / 5)).
Proof.
  intros Hd. destruct d as [|p|p]; try lia.
  rewrite int_times_0_8_opp, int_times_0_8_exact by lia. reflexivity.
Qed.

Lemma attack_empty_range w self target os hs ds :
  objects w !! self = Some os ->
  obj_health os = Some hs ->
  0 < hs ->
  obj_damage os = Some ds ->
  - 2 ^ 50 < ds < 0 ->
  Combat.attack (Some self) target w = (Raise ValueError, w).
Proof.
  intros Hs Hhs Halive Hds Hrange. unfold Combat.attack.
  rewrite (bind_Ok _ _ _ _ _ (is_alive_Some _ _ _ _ Hs Hhs)).
  replace (0 <? hs) with true by (symmetry; apply Z.ltb_lt; lia).
  rewrite (bind_Ok _ _ _ _ _ (get_damage_Some _ _ _ _ Hs Hds)).
  unfold lift at 1. rewrite (int_times_0_8_negative ds Hrange). unfold bind at 1.
  rewrite (bind_Ok _ _ _ _ _ (get_damage_Some _ _ _ _ Hs Hds)).
  unfold bind, random.randint.
  assert (Hq : 4 * (- ds) / 5 < - ds).
  { apply Z.div_lt_upper_bound; lia. }
  replace (0 <? ds + 1 - - (4 * - ds / 5)) with false
    by (symmetry; apply Z.ltb_ge; lia).
  reflexivity.
Qed.

(** X6: an attacker that is alive but whose damage is negative (no
    constructor refuses it) cannot attack: the lower end of the range,
    [int(damage * 0.8)], is above [damage], so [random.randint] raises
    ValueError.  Nothing has changed by then and no number has been
    drawn.  The bound on the damage is that of the float product. *)
Theorem attack_negative_damage_raises
  (w : World) (self : addr) (target : ref) (os : obj) (hs ds : Z) :
  objects w !! self = Some os ->
  obj_health os = Some hs ->
  0 < hs ->
  obj_damage os = Some ds ->
  - 2 ^ 50 < ds < 0 ->
  Combat.attack (Some self) target w = (Raise ValueError, w).
Proof. apply attack_empty_range. Qed.

Lemma attack_negative_damage_raises_witness :
  Combat.attack (Some 2%nat) (Some 4%nat) (test_world 50 (-5) 100 20)
  = (Raise ValueError, test_world 50 (-5) 100 20).
Proof.
  apply (attack_negative_damage_raises (test_world 50 (-5) 100 20) 2%nat (Some 4%nat)
           (OEnemy (mkEnemy "Goblin" 50 (-5))) 50 (-5));
    try reflexivity; lia.
Defined.

Lemma obj_set_health_same o h : obj_health o = Some h -> obj_set_health h o = o.
Proof. destruct o as [n|[]|z|d|r|[]]; cbn; intros [= <-]; trivial; discriminate. Qed.

(** X7: an attacker that is alive and whose damage is 0 draws a number
    and deals 0: the target and every other object are as before. *)
Theorem attack_zero_damage_deals_nothing
  (w : World) (self target : addr) (os ot : obj) (hs ht : Z) :
  objects w !! self = Some os ->
  obj_health os = Some hs ->
  0 < hs ->
  obj_damage os = Some 0 ->
  objects w !! target = Some ot ->
  obj_health ot = Some ht ->
  Combat.attack (Some self) (Some target) w = (Ok tt, after_draw w).
Proof.
  intros Hs Hhs Halive Hds Ht Hht.
  rewrite (attack_alive w self target os ot hs 0 ht 0 Hs Hhs Halive Hds eq_refl
             ltac:(lia) Ht Hht).
  unfold after_hit, drawn. change (0 + 1 - 0) with 1. rewrite Z.mod_1_r, Z.sub_0_r.
  rewrite (obj_set_health_same _ _ Hht).
  unfold with_objects, after_draw. cbn [objects rand rand_pos stdin stdin_pos].
  now rewrite (list_insert_id _ _ _ Ht).
Qed.

Lemma attack_zero_damage_deals_nothing_witness :
  Combat.attack (Some 2%nat) (Some 4%nat) (test_world 50 0 100 20)
  = (Ok tt, after_draw (test_world 50 0 100 20)).
Proof.
  apply (attack_zero_damage_deals_nothing (test_world 50 0 100 20) 2%nat 4%nat
           (OEnemy (mkEnemy "Goblin" 50 0))
           (OPlayer (mkPlayer "Hero" (Some 0%nat) 100 20)) 50 100);
    try reflexivity; lia.
Defined.

(** X8: an attack on something that has no health (an NPC, a wizard, a
    door, a room) raises AttributeError, when the attacker is alive and
    its damage is in the range where the draw succeeds.  The exception
    comes from the message, which asks the target for its name: the number
    has been drawn by then, and no object has changed. *)
Theorem attack_target_without_health
  (w : World) (self target : addr) (os ot : obj) (hs ds : Z) :
  objects w !! self = Some os ->
  obj_health os = Some hs ->
  0 < hs ->
  obj_damage os = Some ds ->
  0 <= ds < 2 ^ 50 ->
  objects w !! target = Some ot ->
  obj_health ot = None ->
  Combat.attack (Some self) (Some target) w = (Raise AttributeError, after_draw w).
Proof.
  intros Hs Hhs Halive Hds Hrange Ht Hht. unfold Combat.attack.
  rewrite (bind_Ok _ _ _ _ _ (is_alive_Some _ _ _ _ Hs Hhs)).
  replace (0 <? hs) with true by (symmetry; apply Z.ltb_lt; lia).
  rewrite (bind_Ok _ _ _ _ _ (get_damage_Some _ _ _ _ Hs Hds)).
  unfold lift at 1. rewrite (int_times_0_8_exact ds Hrange). unfold bind at 1.
  rewrite (bind_Ok _ _ _ _ _ (get_damage_Some _ _ _ _ Hs Hds)).
  assert (Hle : 4 * ds / 5 <= ds).
  { pose proof (Z.mul_div_le (4 * ds) 5 eq_refl). lia. }
  rewrite (bind_Ok _ _ _ _ _ (randint_Ok _ _ _ Hle)).
  destruct (get_name_combatant (after_draw w) self os hs Hs Hhs) as [s1 Hs1].
  rewrite (bind_Ok _ _ _ _ _ Hs1).
  apply bind_Raise. unfold Combat.get_name.
  rewrite (bind_Ok _ _ _ _ _ (deref_Some (after_draw w) _ _ Ht)).
  destruct ot; try reflexivity; discriminate.
Qed.

Lemma attack_target_without_health_witness :
  Combat.attack (Some 4%nat) (Some 3%nat) (test_world 50 10 100 20)
  = (Raise AttributeError, after_draw (test_world 50 10 100 20)).
Proof.
  apply (attack_target_without_health (test_world 50 10 100 20) 4%nat 3%nat
           (OPlayer (mkPlayer "Hero" (Some 0%nat) 100 20))
           (OWizard (mkWizard "Old Wizard" 10 30)) 100 20);
    try reflexivity; lia.
Defined.

(** ** A door with an end that is None *)

(** X9: when the end of the door that the player is sent to is None (a
    door decoded by [Door.fromJSON] from an id that is not in the room
    table has such an end), [interact] raises AttributeError, and the
    player is left with no current room: [change_room] assigns the room
    before it builds its message. *)
Theorem Door_interact_None_end
  (w : World) (door player : addr) (d : Door) (p : Player) :
  objects w !! door = Some (ODoor d) ->
  objects w !! player = Some (OPlayer p) ->
  (if py_eq (objects w) (current_room p) (opposite_room d)
   then connected_room d else opposite_room d) = None ->
  Door_interact (Some door) (Some player) w
  = (Raise AttributeError, move_player player p None w)
  /\ player_room (move_player player p None w) player = Some None.
Proof.
  intros Hd Hp Hend. split; [|now apply player_room_move_player].
  unfold Door_interact.
  rewrite (bind_Ok _ _ _ _ _ (deref_Some _ _ _ Hd)).
  rewrite (bind_Ok _ _ _ _ _ (get_player_Some _ _ _ Hp)).
  assert (Hchange : Player.change_room (Some player) None w
                    = (Raise AttributeError, move_player player p None w)).
  { unfold Player.change_room.
    now rewrite (bind_Ok _ _ _ _ _ (get_player_Some _ _ _ Hp)). }
  destruct (py_eq (objects w) (current_room p) (opposite_room d));
    rewrite Hend; exact Hchange.
Qed.

Lemma Door_interact_None_end_witness :
  let w := mkWorld [ ORoom (mkRoom "A lonely room." [] [] 0);
                     ODoor (mkDoor "A door to nowhere." None (Some 0%nat));
                     OPlayer (mkPlayer "Matthew" (Some 0%nat) 100 20) ]
                   (fun _ => 0) 0 (fun _ => 0) 0 in
  let p := mkPlayer "Matthew" (Some 0%nat) 100 20 in
  Door_interact (Some 1%nat) (Some 2%nat) w
  = (Raise AttributeError, move_player 2%nat p None w)
  /\ player_room (move_player 2%nat p None w) 2%nat = Some None.
Proof.
  intros w p.
  apply (Door_interact_None_end w 1%nat 2%nat
           (mkDoor "A door to nowhere." None (Some 0%nat)) p); reflexivity.
Defined.

(** ** The combat loop, whatever the fighters *)

Lemma combat_guard_alive g enemy w op oe hp he :
  objects w !! player g = Some op -> obj_health op = Some hp ->
  objects w !! enemy = Some oe -> obj_health oe = Some he ->
  Game.combat_guard g enemy w = (Ok ((0 <? hp) && (0 <? he)), w).
Proof.
  intros Hp Hhp He Hhe. unfold Game.combat_guard.
  rewrite (bind_Ok _ _ _ _ _ (is_alive_Some _ _ _ _ Hp Hhp)).
  destruct (0 <? hp); [|reflexivity].
  exact (is_alive_Some _ _ _ _ He Hhe).
Qed.

Lemma get_description_enemy w enemy e :
  objects w !! enemy = Some (OEnemy e) ->
  get_description (Some enemy) w = (Ok (enemy_description e), w).
Proof.
  intros He. unfold get_description. now rewrite (bind_Ok _ _ _ _ _ (deref_Some _ _ _ He)).
Qed.

(** X10: running away ends the combat at once: when both fighters are
    alive and the player's choice is 1, [combat] returns after that one
    choice; no number is drawn and no object changes. *)
Theorem combat_run_away
  (g : Game) (enemy : addr) (w : World) (p : Player) (e : Enemy) (fuel : nat) :
  objects w !! player g = Some (OPlayer p) ->
  0 < player_health p ->
  objects w !! enemy = Some (OEnemy e) ->
  0 < enemy_health e ->
  stdin w (stdin_pos w) = 1 ->
  Game.combat (S fuel) g enemy w = Some (Ok tt, after_input w).
Proof.
  intros Hp Hhp He Hhe Hin. unfold Game.combat.
  rewrite (get_description_enemy _ _ _ He). cbn [Game.combat_loop].
  rewrite (combat_guard_alive g enemy w _ _ _ _ Hp eq_refl He eq_refl).
  cbn [obj_health].
  replace (0 <? player_health p) with true by (symmetry; apply Z.ltb_lt; lia).
  replace (0 <? enemy_health e) with true by (symmetry; apply Z.ltb_lt; lia).
  cbn [andb]. unfold Game.combat_turn.
  rewrite (bind_Ok _ _ _ _ _ (read_int_Ok w)). now rewrite Hin.
Qed.

Lemma combat_run_away_witness :
  Game.combat 1 (mkGame [(0, 0%nat); (1, 1%nat)] 4%nat) 2%nat
    (mkWorld (test_objects 50 10 100 20) (fun _ => 0) 0 (fun _ => 1) 0)
  = Some (Ok tt,
          after_input (mkWorld (test_objects 50 10 100 20) (fun _ => 0) 0 (fun _ => 1) 0)).
Proof.
  apply (combat_run_away (mkGame [(0, 0%nat); (1, 1%nat)] 4%nat) 2%nat
           (mkWorld (test_objects 50 10 100 20) (fun _ => 0) 0 (fun _ => 1) 0)
           (mkPlayer "Hero" (Some 0%nat) 100 20) (mkEnemy "Goblin" 50 10) 0);
    try reflexivity; cbn; lia.
Defined.

Lemma combat_loop_invalid_choices g enemy op oe hp he fuel :
  obj_health op = Some hp -> 0 < hp ->
  obj_health oe = Some he -> 0 < he ->
  forall w,
    objects w !! player g = Some op ->
    objects w !! enemy = Some oe ->
    (forall n, (stdin_pos w <= n)%nat -> stdin w n <> 0 /\ stdin w n <> 1) ->
    Game.combat_loop fuel g enemy w = None.
Proof.
  intros Hhp Hp_alive Hhe He_alive.
  induction fuel as [|fuel IH]; intros w Hp He Hin; cbn [Game.combat_loop];
    rewrite (combat_guard_alive g enemy w _ _ _ _ Hp Hhp He Hhe);
    replace (0 <? hp) with true by (symmetry; apply Z.ltb_lt; lia);
    replace (0 <? he) with true by (symmetry; apply Z.ltb_lt; lia);
    cbn [andb]; [reflexivity|].
  unfold Game.combat_turn. rewrite (bind_Ok _ _ _ _ _ (read_int_Ok w)).
  destruct (Hin (stdin_pos w)) as [H0 H1]; [lia|].
  apply Z.eqb_neq in H0, H1. rewrite H0, H1. unfold ret.
  apply IH; trivial.
  intros n Hn. apply Hin. cbn in Hn. lia.
Qed.

(** X11: a choice that is neither 0 nor 1 changes nothing and the loop
    asks again.  So when both fighters are alive and no choice that the
    user will ever type is 0 or 1, the combat does not end: after any
    number of turns the loop is still running. *)
Theorem combat_invalid_choices_never_end
  (g : Game) (enemy : addr) (w : World) (p : Player) (e : Enemy) :
  objects w !! player g = Some (OPlayer p) ->
  0 < player_health p ->
  objects w !! enemy = Some (OEnemy e) ->
  0 < enemy_health e ->
  (forall n, (stdin_pos w <= n)%nat -> stdin w n <> 0 /\ stdin w n <> 1) ->
  forall fuel, Game.combat fuel g enemy w = None.
Proof.
  intros Hp Hhp He Hhe Hin fuel. unfold Game.combat.
  rewrite (get_description_enemy _ _ _ He).
  now apply combat_loop_invalid_choices
    with (op := OPlayer p) (oe := OEnemy e) (hp := player_health p) (he := enemy_health e).
Qed.

Lemma combat_invalid_choices_never_end_witness :
  Game.combat 1000 (mkGame [(0, 0%nat); (1, 1%nat)] 4%nat) 2%nat
    (mkWorld (test_objects 50 10 100 20) (fun _ => 0) 0 (fun _ => 7) 0)
  = None.
Proof.
  apply (combat_invalid_choices_never_end (mkGame [(0, 0%nat); (1, 1%nat)] 4%nat) 2%nat
           (mkWorld (test_objects 50 10 100 20) (fun _ => 0) 0 (fun _ => 7) 0)
           (mkPlayer "Hero" (Some 0%nat) 100 20) (mkEnemy "Goblin" 50 10));
    try reflexivity; cbn; lia.
Defined.

Lemma four_fifths_le d : 0 <= d -> 0 <= 4 * d / 5 <= d.
Proof.
  intros Hd. pose proof (Z.mul_div_le (4 * d) 5 eq_refl).
  pose proof (Z.div_pos (4 * d) 5). lia.
Qed.

(** X12: a turn in which the player attacks and the enemy survives is one
    exchange of blows: the enemy loses what the player deals, the player
    loses what the enemy deals back, each amount within the range of its
    attacker; two numbers are drawn, one choice is read, nothing else
    changes and the loop goes on.  The enemy hits back once, and only
    after it has been found alive. *)
Theorem combat_turn_counter_attack
  (g : Game) (w : World) (enemy : addr) (p : Player) (e : Enemy) :
  objects w !! player g = Some (OPlayer p) ->
  0 < player_health p ->
  objects w !! enemy = Some (OEnemy e) ->
  stdin w (stdin_pos w) = 0 ->
  0 <= player_damage p < 2 ^ 50 ->
  0 <= enemy_damage e < 2 ^ 50 ->
  0 < enemy_health e - drawn w (4 * player_damage p / 5) (player_damage p) ->
  exists dealt dealt_back,
    Game.combat_turn g enemy w
    = (Ok true, after_exchange w (player g) p enemy e dealt dealt_back)
    /\ 4 * player_damage p / 5 <= dealt <= player_damage p
    /\ 4 * enemy_damage e / 5 <= dealt_back <= enemy_damage e.
Proof.
  intros Hp Hhp He Hin Hdp Hde Hsurv.
  exists (drawn w (4 * player_damage p / 5) (player_damage p)),
         (drawn (after_draw w) (4 * enemy_damage e / 5) (enemy_damage e)).
  split; [|split].
  - apply combat_turn_exchange; trivial;
      try (apply int_times_0_8_exact; lia); apply four_fifths_le; lia.
  - apply drawn_range, four_fifths_le; lia.
  - apply drawn_range, four_fifths_le; lia.
Qed.

Lemma combat_turn_counter_attack_witness :
  exists dealt dealt_back,
    Game.combat_turn (mkGame [(0, 0%nat); (1, 1%nat)] 4%nat) 2%nat (test_world 50 10 100 20)
    = (Ok true,
       after_exchange (test_world 50 10 100 20) 4%nat
         (mkPlayer "Hero" (Some 0%nat) 100 20) 2%nat (mkEnemy "Goblin" 50 10)
         dealt dealt_back)
    /\ 4 * 20 / 5 <= dealt <= 20
    /\ 4 * 10 / 5 <= dealt_back <= 10.
Proof.
  apply (combat_turn_counter_attack (mkGame [(0, 0%nat); (1, 1%nat)] 4%nat)
           (test_world 50 10 100 20) 2%nat
           (mkPlayer "Hero" (Some 0%nat) 100 20) (mkEnemy "Goblin" 50 10));
    try reflexivity; cbn; lia.
Defined.

Lemma list_remove_is_Some h x l : x ∈ l -> is_Some (list_remove h x l).
Proof.
  induction l as [|y l IH]; intros Hin; [now apply elem_of_nil in Hin|].
  cbn [list_remove]. destruct (py_eq h (Some y) (Some x)) eqn:E; [eauto|].
  apply elem_of_cons in Hin as [->|Hin]; [now rewrite py_eq_refl in E|].
  destruct (IH Hin) as [l' ->]. cbn. eauto.
Qed.

(** A turn in which the player attacks an enemy of the player's room: it
    costs the enemy at least one point of health and leaves the fighters
    and the room in place, with the enemy listed as long as it lives. *)
Lemma combat_turn_attack g enemy w p e room r :
  objects w !! player g = Some (OPlayer p) ->
  0 < player_health p ->
  2 <= player_damage p < 2 ^ 50 ->
  objects w !! enemy = Some (OEnemy e) ->
  0 <= enemy_damage e < 2 ^ 50 ->
  current_room p = Some room ->
  objects w !! room = Some (ORoom r) ->
  enemy ∈ npcs r ->
  stdin w (stdin_pos w) = 0 ->
  exists w' p' e' r',
    Game.combat_turn g enemy w = (Ok true, w')
    /\ objects w' !! player g = Some (OPlayer p')
    /\ player_damage p' = player_damage p
    /\ current_room p' = Some room
    /\ objects w' !! enemy = Some (OEnemy e')
    /\ enemy_damage e' = enemy_damage e
    /\ enemy_health e' <= enemy_health e - 1
    /\ objects w' !! room = Some (ORoom r')
    /\ (0 < enemy_health e' -> enemy ∈ npcs r')
    /\ stdin w' = stdin w /\ stdin_pos w' = S (stdin_pos w).
Proof.
  intros Hp Hhp Hdp He Hde Hcur Hr Hlisted Hin.
  assert (Hne : enemy <> player g) by (intros E; rewrite E in He; congruence).
  assert (Hnr_p : room <> player g) by (intros E; rewrite E in Hr; congruence).
  assert (Hnr_e : room <> enemy) by (intros E; rewrite E in Hr; congruence).
  destruct (four_fifths_le (player_damage p)) as [_ Hle]; [lia|].
  assert (Hlow : 1 <= 4 * player_damage p / 5) by (apply Z.div_le_lower_bound; lia).
  set (dealt := drawn (after_input w) (4 * player_damage p / 5) (player_damage p)).
  assert (Hdealt : 1 <= dealt)
    by (pose proof (drawn_range (after_input w) _ _ Hle); fold dealt in H; lia).
  assert (Hatt : Combat.attack (Some (player g)) (Some enemy) (after_input w)
                 = (Ok tt, after_hit (after_input w) enemy (OEnemy e) (enemy_health e) dealt)).
  { apply attack_alive with (os := OPlayer p) (hs := player_health p); trivial.
    apply int_times_0_8_exact. lia. }
  set (w1 := after_hit (after_input w) enemy (OEnemy e) (enemy_health e) dealt) in *.
  set (e1 := mkEnemy (enemy_description e) (enemy_health e - dealt) (enemy_damage e)).
  assert (He1 : objects w1 !! enemy = Some (OEnemy e1)).
  { cbn. apply list_lookup_insert_eq. eapply lookup_lt_Some, He. }
  assert (Hp1 : objects w1 !! player g = Some (OPlayer p)).
  { cbn. now rewrite list_lookup_insert_ne. }
  assert (Hr1 : objects w1 !! room = Some (ORoom r)).
  { cbn. now rewrite list_lookup_insert_ne. }
  unfold Game.combat_turn.
  rewrite (bind_Ok _ _ _ _ _ (read_int_Ok w)). rewrite Hin. cbn [Z.eqb].
  rewrite (bind_Ok _ _ _ _ _ Hatt).
  rewrite (bind_Ok _ _ _ _ _ (is_alive_Some _ _ _ _ He1 eq_refl)).
  cbn [enemy_health e1].
  destruct (0 <? enemy_health e - dealt) eqn:Halive.
  - apply Z.ltb_lt in Halive.
    destruct (four_fifths_le (enemy_damage e)) as [_ Hle_e]; [lia|].
    assert (Hlow_e : PyFloat.int_times_0_8 (enemy_damage e)
                     = Ok (4 * enemy_damage e / 5))
      by (apply int_times_0_8_exact; lia).
    rewrite (bind_Ok _ _ _ _ _
               (attack_alive w1 enemy (player g) (OEnemy e1) (OPlayer p)
                  (enemy_health e - dealt) (enemy_damage e) (player_health p)
                  (4 * enemy_damage e / 5)
                  He1 eq_refl Halive eq_refl Hlow_e Hle_e Hp1 eq_refl)).
    eexists _, _, e1, r. split; [reflexivity|]. split.
    { cbn. apply list_lookup_insert_eq. rewrite length_insert.
      eapply lookup_lt_Some, Hp. }
    split; [reflexivity|]. split; [exact Hcur|]. split.
    { cbn. rewrite list_lookup_insert_ne by congruence.
      apply list_lookup_insert_eq. eapply lookup_lt_Some, He. }
    split; [reflexivity|]. split; [cbn; lia|]. split.
    { cbn. rewrite !list_lookup_insert_ne by congruence. exact Hr. }
    split; [intros _; exact Hlisted|]. split; reflexivity.
  - apply Z.ltb_ge in Halive.
    rewrite (bind_Ok _ _ _ _ _ (get_description_enemy _ _ _ He1)).
    destruct (list_remove_is_Some (objects w1) enemy (npcs r) Hlisted) as [l Hl].
    assert (Hrem : Game.remove_npc g enemy w1 = (Ok tt, after_removal w1 room r l)).
    { unfold Game.remove_npc.
      rewrite (bind_Ok _ _ _ _ _ (get_player_Some _ _ _ Hp1)). rewrite Hcur.
      rewrite (bind_Ok _ _ _ _ _ (get_room_Some _ _ _ Hr1)). now rewrite Hl. }
    rewrite (bind_Ok _ _ _ _ _ Hrem).
    eexists _, p, e1, _. split; [reflexivity|].
    split; [cbn; now rewrite list_lookup_insert_ne|]. split; [reflexivity|].
    split; [exact Hcur|].
    split; [cbn -[w1]; now rewrite list_lookup_insert_ne|]. split; [reflexivity|].
    split; [cbn; lia|].
    split; [cbn -[w1]; apply list_lookup_insert_eq; eapply lookup_lt_Some, Hr1|].
    split; [cbn [enemy_health e1]; lia|]. split; reflexivity.
Qed.

Lemma combat_loop_attack_ends g enemy room dp de :
  2 <= dp < 2 ^ 50 ->
  0 <= de < 2 ^ 50 ->
  forall fuel w p e r,
    objects w !! player g = Some (OPlayer p) -> player_damage p = dp ->
    current_room p = Some room ->
    objects w !! enemy = Some (OEnemy e) -> enemy_damage e = de ->
    objects w !! room = Some (ORoom r) ->
    (0 < enemy_health e -> enemy ∈ npcs r) ->
    (forall n, (stdin_pos w <= n)%nat -> stdin w n = 0) ->
    enemy_health e <= Z.of_nat fuel ->
    exists w' p' e',
      Game.combat_loop fuel g enemy w = Some (Ok tt, w')
      /\ objects w' !! player g = Some (OPlayer p')
      /\ objects w' !! enemy = Some (OEnemy e')
      /\ (player_health p' <= 0 \/ enemy_health e' <= 0)
      /\ (stdin_pos w <= stdin_pos w' <= stdin_pos w + fuel)%nat.
Proof.
  intros Hdp Hde.
  induction fuel as [|fuel IH]; intros w p e r Hp Hpd Hcur He Hed Hr Hlisted Hin Hfuel;
    cbn [Game.combat_loop];
    rewrite (combat_guard_alive g enemy w _ _ _ _ Hp eq_refl He eq_refl);
    cbn [obj_health];
    destruct (0 <? player_health p) eqn:Ep; cbn [andb];
    try (apply Z.ltb_ge in Ep; exists w, p, e; repeat split; auto; lia);
    destruct (0 <? enemy_health e) eqn:Ee;
    try (apply Z.ltb_ge in Ee; exists w, p, e; repeat split; auto; lia);
    apply Z.ltb_lt in Ep, Ee; [lia|].
  destruct (combat_turn_attack g enemy w p e room r)
    as (w1 & p1 & e1 & r1 & -> & Hp1 & Hpd1 & Hcur1 & He1 & Hed1 & Hh & Hr1 & Hl1 & Hs & Hpos);
    trivial; try lia; [now apply Hlisted | apply Hin; lia |].
  destruct (IH w1 p1 e1 r1) as (w' & p' & e' & Hloop & Hp' & He' & Hdead & Hcount);
    trivial; try congruence; [|lia|].
  { intros n Hn. rewrite Hs. apply Hin. lia. }
  exists w', p', e'. repeat split; trivial; lia.
Qed.

(** X13: a combat with an enemy of the player's room in which the player
    attacks at every turn ends, whoever the fighters are, as soon as the
    player's damage is at least 2 (and within the bounds of the float
    product, like the enemy's, which is not negative): each of the
    player's hits then takes at least one point.  [combat] returns
    normally after at most as many turns as the enemy has health, and
    when it returns the player or the enemy is not alive. *)
Theorem combat_terminates
  (g : Game) (enemy room : addr) (w : World) (p : Player) (e : Enemy) (r : Room)
  (fuel : nat) :
  objects w !! player g = Some (OPlayer p) ->
  2 <= player_damage p < 2 ^ 50 ->
  current_room p = Some room ->
  objects w !! room = Some (ORoom r) ->
  enemy ∈ npcs r ->
  objects w !! enemy = Some (OEnemy e) ->
  0 <= enemy_damage e < 2 ^ 50 ->
  (forall n, (stdin_pos w <= n)%nat -> stdin w n = 0) ->
  enemy_health e <= Z.of_nat fuel ->
  exists w' p' e',
    Game.combat fuel g enemy w = Some (Ok tt, w')
    /\ objects w' !! player g = Some (OPlayer p')
    /\ objects w' !! enemy = Some (OEnemy e')
    /\ (player_health p' <= 0 \/ enemy_health e' <= 0)
    /\ (stdin_pos w <= stdin_pos w' <= stdin_pos w + fuel)%nat.
Proof.
  intros Hp Hdp Hcur Hr Hlisted He Hde Hin Hfuel. unfold Game.combat.
  rewrite (get_description_enemy _ _ _ He).
  now apply combat_loop_attack_ends
    with (room := room) (dp := player_damage p) (de := enemy_damage e)
         (p := p) (e := e) (r := r).
Qed.

Lemma combat_terminates_witness :
  let w := mkWorld
             (<[2%nat := OPlayer (mkPlayer "Matthew" (Some 1%nat) 100 20)]> initial_objects)
             (fun _ => 0) 0 (fun _ => 0) 0 in
  exists w' p' e',
    Game.combat 60 initial_game 8%nat w = Some (Ok tt, w')
    /\ objects w' !! player initial_game = Some (OPlayer p')
    /\ objects w' !! 8%nat = Some (OEnemy e')
    /\ (player_health p' <= 0 \/ enemy_health e' <= 0)
    /\ (stdin_pos w <= stdin_pos w' <= stdin_pos w + 60)%nat.
Proof.
  intros w.
  apply (combat_terminates initial_game 8%nat 1%nat w
           (mkPlayer "Matthew" (Some 1%nat) 100 20)
           (mkEnemy "A dangerous vampire" 60 100)
           (mkRoom "A dark room with dark doors." [3%nat; 4%nat] [7%nat; 8%nat; 9%nat] 1)
           60);
    try reflexivity; try (cbn; lia).
  apply elem_of_cons. right. now left.
Defined.

Lemma after_exchange_idle w pl p en e :
  objects w !! pl = Some (OPlayer p) ->
  objects w !! en = Some (OEnemy e) ->
  after_exchange w pl p en e 0 0 = after_idle_turn w.
Proof.
  intros Hp He. unfold after_exchange, after_idle_turn. rewrite !Z.sub_0_r.
  destruct p as [n c hp dp], e as [d he de]. cbn [name current_room player_health
    player_damage enemy_description enemy_health enemy_damage].
  now rewrite (list_insert_id _ _ _ He), (list_insert_id _ _ _ Hp).
Qed.

Lemma combat_loop_stalemate g enemy p e fuel :
  0 < player_health p -> player_damage p = 1 ->
  0 < enemy_health e -> enemy_damage e = 1 ->
  forall w,
    objects w !! player g = Some (OPlayer p) ->
    objects w !! enemy = Some (OEnemy e) ->
    (forall n, (stdin_pos w <= n)%nat -> stdin w n = 0) ->
    (forall n, (rand_pos w <= n)%nat -> rand w n mod 2 = 0) ->
    Game.combat_loop fuel g enemy w = None.
Proof.
  intros Hhp Hdp Hhe Hde.
  induction fuel as [|fuel IH]; intros w Hp He Hin Hrand; cbn [Game.combat_loop];
    rewrite (combat_guard_alive g enemy w _ _ _ _ Hp eq_refl He eq_refl);
    cbn [obj_health];
    replace (0 <? player_health p) with true by (symmetry; apply Z.ltb_lt; lia);
    replace (0 <? enemy_health e) with true by (symmetry; apply Z.ltb_lt; lia);
    cbn [andb]; [reflexivity|].
  assert (Hd1 : drawn w 0 (player_damage p) = 0).
  { unfold drawn. rewrite Hdp. change (1 + 1 - 0) with 2. rewrite Hrand; lia. }
  assert (Hd2 : drawn (after_draw w) 0 (enemy_damage e) = 0).
  { unfold drawn. rewrite Hde. change (1 + 1 - 0) with 2. cbn [rand rand_pos after_draw].
    rewrite Hrand; lia. }
  rewrite (combat_turn_exchange g w enemy p e 0 0); trivial;
    try (rewrite ?Hdp, ?Hde; reflexivity); try lia; try (apply Hin; lia).
  rewrite Hd1, Hd2, (after_exchange_idle _ _ _ _ _ Hp He).
  apply IH; trivial.
  - intros n Hn. apply Hin. cbn in Hn. lia.
  - intros n Hn. apply Hrand. cbn in Hn. lia.
Qed.

(** X14: with a damage of 1 the range of a hit is [0, 1], and a combat
    may go on for ever: when the player and the enemy both have damage 1
    and every draw gives the lower end, no attack takes anything, and
    after any number of turns in which the player attacks the loop is
    still running. *)
Theorem combat_with_damage_1_may_never_end
  (g : Game) (enemy : addr) (w : World) (p : Player) (e : Enemy) :
  objects w !! player g = Some (OPlayer p) ->
  0 < player_health p ->
  player_damage p = 1 ->
  objects w !! enemy = Some (OEnemy e) ->
  0 < enemy_health e ->
  enemy_damage e = 1 ->
  (forall n, (stdin_pos w <= n)%nat -> stdin w n = 0) ->
  (forall n, (rand_pos w <= n)%nat -> rand w n mod 2 = 0) ->
  forall fuel, Game.combat fuel g enemy w = None.
Proof.
  intros Hp Hhp Hdp He Hhe Hde Hin Hrand fuel. unfold Game.combat.
  rewrite (get_description_enemy _ _ _ He).
  now apply combat_loop_stalemate with (p := p) (e := e).
Qed.

Lemma combat_with_damage_1_may_never_end_witness :
  Game.combat 1000 (mkGame [(0, 0%nat); (1, 1%nat)] 4%nat) 2%nat (test_world 50 1 100 1)
  = None.
Proof.
  apply (combat_with_damage_1_may_never_end (mkGame [(0, 0%nat); (1, 1%nat)] 4%nat) 2%nat
           (test_world 50 1 100 1)
           (mkPlayer "Hero" (Some 0%nat) 100 1) (mkEnemy "Goblin" 50 1));
    try reflexivity; cbn; lia.
Defined.

(** ** The class decoders *)

(** X15: [Enemy.fromJSON] reads back what [Enemy.toJSON] has written, as
    an enemy with the same description, health and damage, when the
    health is positive; the snapshot of a defeated enemy is refused by the
    validator of [health], and nothing is created.  What [toJSON] writes
    for the int fields are ints, so the reading of strings plays no part. *)
Theorem Enemy_roundtrip (int_of_str : string -> option Z) (e : Enemy) (w : World) :
  Enemy.fromJSON int_of_str (Enemy.toJSON e) w
  = if 0 <? enemy_health e
    then (Ok (List.length (objects w)), with_objects (objects w ++ [OEnemy e]) w)
    else (Raise ValidationError, w).
Proof.
  destruct e as [d h dmg]. unfold Enemy.fromJSON, Enemy.toJSON, subscript.
  cbn [enemy_description enemy_health enemy_damage].
  rewrite lookup_insert_eq. unfold bind at 1. unfold ret at 1.
  rewrite lookup_insert_ne, lookup_insert_eq by discriminate.
  unfold bind at 1. unfold ret at 1.
  rewrite lookup_insert_ne, lookup_insert_ne, lookup_singleton_eq by discriminate.
  unfold bind at 1. unfold ret at 1. cbn [int_field].
  unfold Enemy.new, Enemy.validate_health, lift, bind.
  rewrite Z.leb_antisym. now destruct (0 <? h).
Qed.

(** X16: [NPC.fromJSON] and [Wizard.fromJSON] read back what the
    [toJSON] of their class has written: the new object has the same
    fields.  Used on the snapshot of a wizard, [NPC.fromJSON] keeps the
    description only. *)
Theorem NPC_Wizard_roundtrip
  (int_of_str : string -> option Z) (n : NPC) (z : Wizard) (w : World) :
  NPC.fromJSON (NPC.toJSON n) w
  = (Ok (List.length (objects w)), with_objects (objects w ++ [ONPC n]) w)
  /\ Wizard.fromJSON int_of_str (Wizard.toJSON z) w
     = (Ok (List.length (objects w)), with_objects (objects w ++ [OWizard z]) w)
  /\ NPC.fromJSON (Wizard.toJSON z) w
     = (Ok (List.length (objects w)),
        with_objects (objects w ++ [ONPC (mkNPC (wizard_description z))]) w).
Proof.
  destruct n as [d], z as [dz b hp]. split; [|split].
  - unfold NPC.fromJSON, NPC.toJSON, subscript. cbn [description].
    now rewrite lookup_singleton_eq.
  - unfold Wizard.fromJSON, Wizard.toJSON, subscript.
    cbn [wizard_description bonus_damage healing_power].
    rewrite lookup_insert_eq. unfold bind at 1. unfold ret at 1.
    rewrite lookup_insert_ne, lookup_insert_eq by discriminate.
    unfold bind at 1. unfold ret at 1.
    rewrite lookup_insert_ne, lookup_insert_ne, lookup_singleton_eq by discriminate.
    reflexivity.
  - unfold NPC.fromJSON, Wizard.toJSON, subscript. cbn [wizard_description].
    now rewrite lookup_insert_eq.
Qed.

(** X17: [Door.fromJSON] reads back what [Door.toJSON] has written, as a
    door with the same description and the same two ends, when the room
    table it is given maps the id of each end to that end (as the table
    of [Game()] does, whose keys are the [id] of the rooms). *)
Theorem Door_roundtrip (d : Door) (room_dict : list (Z * addr)) (w : World) :
  dict_get (id (connected_room d)) room_dict = connected_room d ->
  dict_get (id (opposite_room d)) room_dict = opposite_room d ->
  Door.fromJSON (Door.toJSON d) room_dict w
  = (Ok (List.length (objects w)), with_objects (objects w ++ [ODoor d]) w).
Proof.
  intros Hc Ho. destruct d as [s c o]. unfold Door.fromJSON, Door.toJSON, Door.new, alloc.
  cbn [j_door_description connected_room_id opposite_room_id door_description
       connected_room opposite_room] in *.
  now rewrite Hc, Ho.
Qed.

Lemma Door_roundtrip_witness :
  Door.fromJSON (Door.toJSON (mkDoor "A mysterious red door." (Some 1%nat) (Some 0%nat)))
    (rooms initial_game) (initial_world (fun _ => 0) (fun _ => 0))
  = (Ok 10%nat,
     with_objects
       (initial_objects ++ [ODoor (mkDoor "A mysterious red door." (Some 1%nat) (Some 0%nat))])
       (initial_world (fun _ => 0) (fun _ => 0))).
Proof.
  apply (Door_roundtrip (mkDoor "A mysterious red door." (Some 1%nat) (Some 0%nat))
           (rooms initial_game) (initial_world (fun _ => 0) (fun _ => 0)));
    reflexivity.
Defined.

(** ** A snapshot with an NPC entry that cannot be read *)

Lemma NPC_fromJSON_Raise j w :
  npc_description j = None ->
  NPC.fromJSON j w = (Raise (unreadable_entry_error j), w).
Proof.
  unfold npc_description, unreadable_entry_error, NPC.fromJSON, subscript.
  destruct (j !! "description") as [[z|s]|]; try discriminate; reflexivity.
Qed.

Lemma map_M_NPC_fromJSON_Raise good descs bad rest :
  Forall2 (fun j d => npc_description j = Some d) good descs ->
  npc_description bad = None ->
  forall w,
    map_M NPC.fromJSON (good ++ bad :: rest) w
    = (Raise (unreadable_entry_error bad),
       with_objects (objects w ++ map (fun d => ONPC (mkNPC d)) descs) w).
Proof.
  intros Hgood Hbad. induction Hgood as [|j d good descs Hj _ IH]; intros w;
    cbn [app map_M map].
  - rewrite (bind_Raise _ _ _ _ _ (NPC_fromJSON_Raise _ _ Hbad)).
    now rewrite app_nil_r, with_objects_id.
  - rewrite (bind_Ok _ _ _ _ _ (NPC_fromJSON_Ok _ _ _ Hj)).
    rewrite (bind_Raise _ _ _ _ _ (IH _)). unfold with_objects.
    cbn [objects rand rand_pos stdin stdin_pos]. now rewrite <- app_assoc.
Qed.

(** X18: when the NPC entries of a serialized room are readable up to
    one that has no ["description"] or whose description is not a string,
    [Room.fromJSON] raises the error of that entry: KeyError for a
    missing member, a validation error for a member of the wrong type.
    The objects that existed are untouched, but the room and the NPCs
    decoded before the error have been created. *)
Theorem Room_fromJSON_unreadable_entry
  (room_data : RoomJSON) (good rest : list jobject) (bad : jobject)
  (descs : list string) (w : World) :
  j_npcs room_data = good ++ bad :: rest ->
  Forall2 (fun j d => npc_description j = Some d) good descs ->
  npc_description bad = None ->
  Room.fromJSON room_data w
  = (Raise (unreadable_entry_error bad),
     with_objects
       (objects w ++ decoded_room room_data [] :: map (fun d => ONPC (mkNPC d)) descs) w).
Proof.
  intros Hnpcs Hgood Hbad. rewrite Room_fromJSON_unfold. cbv zeta. rewrite Hnpcs.
  rewrite (map_M_NPC_fromJSON_Raise _ _ _ _ Hgood Hbad). unfold with_objects.
  cbn [objects rand rand_pos stdin stdin_pos]. now rewrite <- app_assoc.
Qed.

Lemma Room_fromJSON_unreadable_entry_witness :
  let bad : gmap string jval := {[ "health" := JInt 5 ]} in
  let room_data :=
    mkRoomJSON "A lonely room." 0 [] [ NPC.toJSON (mkNPC "The kerstman"); bad ] in
  let w := empty_world (fun _ => 0) (fun _ => 0) in
  Room.fromJSON room_data w
  = (Raise (unreadable_entry_error bad),
     with_objects
       (objects w
        ++ decoded_room room_data [] :: map (fun d => ONPC (mkNPC d)) [ "The kerstman" ])
       w)
  /\ unreadable_entry_error bad = KeyError "description".
Proof.
  intros bad room_data w. split; [|vm_compute; reflexivity].
  apply (Room_fromJSON_unreadable_entry room_data
           [ NPC.toJSON (mkNPC "The kerstman") ] [] bad [ "The kerstman" ] w);
    [reflexivity | repeat constructor | vm_compute; reflexivity].
Defined.

(** ** The test for victory *)

Lemma any_M_false {A} (test : A -> M bool) (l : list A) w :
  (forall x, x ∈ l -> test x w = (Ok false, w)) ->
  Game.any_M test l w = (Ok false, w).
Proof.
  induction l as [|x l IH]; intros H; cbn [Game.any_M]; [reflexivity|].
  rewrite (bind_Ok _ _ _ _ _ (H x ltac:(now left))).
  apply IH. intros y Hy. apply H. now right.
Qed.

Lemma vampire_defeated_false g w :
  (forall k a, (k, a) ∈ rooms g ->
     exists r, objects w !! a = Some (ORoom r)
       /\ forall n, n ∈ npcs r ->
            exists o, objects w !! n = Some o /\ Game.is_defeated_vampire o = false) ->
  Game.vampire_defeated g w = (Ok false, w).
Proof.
  intros H. unfold Game.vampire_defeated, dict_values. apply any_M_false.
  intros a Ha. apply list_elem_of_fmap in Ha as ([k a'] & -> & Hin). cbn [snd].
  destruct (H k a' Hin) as (r & Hr & Hn).
  rewrite (bind_Ok _ _ _ _ _ (get_room_Some _ _ _ Hr)).
  apply any_M_false. intros n Hin'. destruct (Hn n Hin') as (o & Ho & Hdv).
  rewrite (bind_Ok _ _ _ _ _ (deref_Some _ _ _ Ho)). unfold ret. now rewrite Hdv.
Qed.

(** *** The NPC that a defeat removes *)

Lemma list_remove_first_equal h x l1 y l2 :
  (forall a, a ∈ l1 -> py_eq h (Some a) (Some x) = false) ->
  py_eq h (Some y) (Some x) = true ->
  list_remove h x (l1 ++ y :: l2) = Some (l1 ++ l2).
Proof.
  intros Hne Hy. induction l1 as [|a l1 IH]; cbn [app list_remove].
  - now rewrite Hy.
  - rewrite (Hne a) by now left.
    rewrite IH; [reflexivity|]. intros b Hb. apply Hne. now right.
Qed.

Lemma combat_turn_defeat_first_equal g w w1 enemy room p e1 r l1 x l2 :
  stdin w (stdin_pos w) = 0 ->
  Combat.attack (Some (player g)) (Some enemy) (after_input w) = (Ok tt, w1) ->
  objects w1 !! enemy = Some (OEnemy e1) ->
  enemy_health e1 <= 0 ->
  objects w1 !! player g = Some (OPlayer p) ->
  current_room p = Some room ->
  objects w1 !! room = Some (ORoom r) ->
  npcs r = l1 ++ x :: l2 ->
  (forall a, a ∈ l1 -> py_eq (objects w1) (Some a) (Some enemy) = false) ->
  py_eq (objects w1) (Some x) (Some enemy) = true ->
  Game.combat_turn g enemy w = (Ok true, after_removal w1 room r (l1 ++ l2)).
Proof.
  intros Hin Hatt He1 Hdead Hp1 Hcur Hr1 Hnpcs Hbefore Hx.
  unfold Game.combat_turn.
  rewrite (bind_Ok _ _ _ _ _ (read_int_Ok w)). rewrite Hin. cbn [Z.eqb].
  rewrite (bind_Ok _ _ _ _ _ Hatt).
  rewrite (bind_Ok _ _ _ _ _ (is_alive_Some _ _ _ _ He1 eq_refl)).
  replace (0 <? enemy_health e1) with false by (symmetry; apply Z.ltb_ge; lia).
  rewrite (bind_Ok _ _ _ _ _ (get_description_enemy _ _ _ He1)).
  assert (Hrem : Game.remove_npc g enemy w1 = (Ok tt, after_removal w1 room r (l1 ++ l2))).
  { unfold Game.remove_npc.
    rewrite (bind_Ok _ _ _ _ _ (get_player_Some _ _ _ Hp1)). rewrite Hcur.
    rewrite (bind_Ok _ _ _ _ _ (get_room_Some _ _ _ Hr1)). rewrite Hnpcs.
    now rewrite (list_remove_first_equal _ _ _ _ _ Hbefore Hx). }
  now rewrite (bind_Ok _ _ _ _ _ Hrem).
Qed.

(** What the attack of the turn leaves in place: every object but the
    enemy, which is neither the player nor a room. *)
Lemma defeat_frame g w w1 enemy p e1 :
  objects w !! player g = Some (OPlayer p) ->
  Combat.attack (Some (player g)) (Some enemy) (after_input w) = (Ok tt, w1) ->
  objects w1 !! enemy = Some (OEnemy e1) ->
  (forall a, a <> enemy -> objects w1 !! a = objects w !! a)
  /\ player g <> enemy
  /\ (forall a ra, objects w !! a = Some (ORoom ra) -> a <> enemy).
Proof.
  intros Hp Hatt He1.
  pose proof (attack_frame _ _ _ _ Hatt) as Hframe. cbn [objects after_input] in Hframe.
  split; [exact Hframe|]. split.
  - intros E. apply attack_inv in Hatt as [-> | (ot & ht & dealt & Ho & Hh & ->)].
    + cbn in He1. rewrite E in Hp. congruence.
    + cbn in He1, Ho. rewrite E in Hp.
      rewrite list_lookup_insert_eq in He1 by (eapply lookup_lt_Some, Ho).
      rewrite Hp in Ho. injection Ho as <-. discriminate He1.
  - intros a ra Ha E. subst a.
    apply attack_inv in Hatt as [-> | (ot & ht & dealt & Ho & Hh & ->)].
    + cbn in He1. congruence.
    + cbn in Ho. rewrite Ha in Ho. injection Ho as <-. discriminate Hh.
Qed.

(** X19: the test that [main_loop] makes for victory looks for a dead
    vampire in the NPC lists of the rooms of the room table, but the turn
    that defeats an enemy removes it from its list.  Take a turn in which
    the player's attack leaves the enemy not alive, where the player's
    room lists the enemy once, no NPC listed before it is equal ([==]) to
    the defeated enemy, no other room of the table lists the enemy, and no
    other NPC listed by a room of the table is a dead vampire.  After the
    turn the enemy is dead and still in the store, but the player's room
    lists the other NPCs only, no room of the table lists the enemy, and
    the test answers False, also when the enemy is the vampire. *)
Theorem defeated_enemy_is_not_seen_by_win_test
  (g : Game) (w w1 : World) (enemy room : addr) (p : Player) (e1 : Enemy) (r : Room)
  (l1 l2 : list addr) :
  objects w !! player g = Some (OPlayer p) ->
  current_room p = Some room ->
  objects w !! room = Some (ORoom r) ->
  npcs r = l1 ++ enemy :: l2 ->
  (forall a, a ∈ l1 -> py_eq (objects w1) (Some a) (Some enemy) = false) ->
  enemy ∉ l2 ->
  (forall k a, (k, a) ∈ rooms g ->
     exists ra, objects w !! a = Some (ORoom ra)
       /\ forall n, n ∈ npcs ra ->
            (n = enemy /\ a = room)
            \/ (n <> enemy
                /\ exists o, objects w !! n = Some o /\ Game.is_defeated_vampire o = false)) ->
  stdin w (stdin_pos w) = 0 ->
  Combat.attack (Some (player g)) (Some enemy) (after_input w) = (Ok tt, w1) ->
  objects w1 !! enemy = Some (OEnemy e1) ->
  enemy_health e1 <= 0 ->
  exists w2,
    Game.combat_turn g enemy w = (Ok true, w2)
    /\ objects w2 !! enemy = Some (OEnemy e1)
    /\ objects w2 !! room
       = Some (ORoom (mkRoom (room_description r) (doors r) (l1 ++ l2) (room_id r)))
    /\ (enemy ∉ l1 ++ l2)
    /\ (forall k a ra,
          (k, a) ∈ rooms g -> objects w2 !! a = Some (ORoom ra) -> enemy ∉ npcs ra)
    /\ Game.vampire_defeated g w2 = (Ok false, w2).
Proof.
  intros Hp Hcur Hr Hnpcs Hbefore Hnot2 Htable Hin Hatt He1 Hdead.
  destruct (defeat_frame g w w1 enemy p e1 Hp Hatt He1) as (Hframe & Hne_p & Hroom_ne).
  pose proof (Hroom_ne _ _ Hr) as Hne_r.
  assert (Hnot1 : enemy ∉ l1).
  { intros Hin1. specialize (Hbefore enemy Hin1). now rewrite py_eq_refl in Hbefore. }
  assert (Hnot : enemy ∉ l1 ++ l2).
  { intros H. apply elem_of_app in H as [?|?]; contradiction. }
  set (w2 := after_removal w1 room r (l1 ++ l2)).
  assert (Hr1 : objects w1 !! room = Some (ORoom r)) by now rewrite Hframe.
  assert (Hr2 : objects w2 !! room
                = Some (ORoom (mkRoom (room_description r) (doors r) (l1 ++ l2) (room_id r)))).
  { cbn. apply list_lookup_insert_eq. eapply lookup_lt_Some, Hr1. }
  assert (Hlook : forall n o, n <> enemy -> objects w !! n = Some o ->
                  exists o', objects w2 !! n = Some o'
                             /\ (Game.is_defeated_vampire o = false ->
                                 Game.is_defeated_vampire o' = false)).
  { intros n o Hn Ho. destruct (decide (n = room)) as [->|Hnr].
    - eexists. split; [exact Hr2 | reflexivity].
    - exists o. split; [|trivial].
      cbn. rewrite list_lookup_insert_ne by congruence. now rewrite Hframe. }
  assert (Hrooms : forall k a, (k, a) ∈ rooms g ->
            exists ra', objects w2 !! a = Some (ORoom ra')
              /\ forall n, n ∈ npcs ra' ->
                   n <> enemy
                   /\ exists o, objects w !! n = Some o
                                /\ Game.is_defeated_vampire o = false).
  { intros k a Hka. destruct (Htable k a Hka) as (ra & Ha & Hn).
    destruct (decide (a = room)) as [->|Har].
    - rewrite Hr in Ha. injection Ha as <-.
      eexists. split; [exact Hr2|]. cbn [npcs]. intros n Hin'.
      assert (Hn_ne : n <> enemy) by (intros ->; contradiction).
      destruct (Hn n) as [[? _] | (_ & o & Ho & Hdv)]; [|contradiction|eauto].
      rewrite Hnpcs. apply elem_of_app in Hin' as [?|?]; apply elem_of_app;
        [now left | right; now right].
    - exists ra. split.
      { cbn. rewrite list_lookup_insert_ne by congruence.
        rewrite Hframe; [exact Ha | eapply Hroom_ne, Ha]. }
      intros n Hin'. destruct (Hn n Hin') as [[_ ?] | (Hn_ne & o & Ho & Hdv)];
        [contradiction | eauto]. }
  exists w2. split; [|split; [|split; [exact Hr2|split; [exact Hnot|split]]]].
  - apply combat_turn_defeat_first_equal with (p := p) (e1 := e1) (x := enemy); trivial.
    + now rewrite Hframe.
    + apply py_eq_refl.
  - cbn. now rewrite list_lookup_insert_ne.
  - intros k a ra Hka Ha Hlisted.
    destruct (Hrooms k a Hka) as (ra' & Ha' & Hn).
    rewrite Ha in Ha'. injection Ha' as <-.
    now destruct (Hn enemy Hlisted) as [? _].
  - apply vampire_defeated_false. intros k a Hka.
    destruct (Hrooms k a Hka) as (ra' & Ha' & Hn).
    exists ra'. split; [exact Ha'|]. intros n Hin'.
    destruct (Hn n Hin') as (Hn_ne & o & Ho & Hdv).
    destruct (Hlook n o Hn_ne Ho) as (o' & Ho' & Hdv'). eauto.
Qed.

Lemma defeated_enemy_is_not_seen_by_win_test_witness :
  exists w2,
    Game.combat_turn initial_game 8%nat vampire_fight_world = (Ok true, w2)
    /\ objects w2 !! 8%nat = Some (OEnemy (mkEnemy "A dangerous vampire" 0 100))
    /\ objects w2 !! 1%nat
       = Some (ORoom (mkRoom "A dark room with dark doors." [3%nat; 4%nat]
                        ([7%nat] ++ [9%nat]) 1))
    /\ (8%nat ∉ [7%nat] ++ [9%nat])
    /\ (forall k a ra,
          (k, a) ∈ rooms initial_game -> objects w2 !! a = Some (ORoom ra) ->
          8%nat ∉ npcs ra)
    /\ Game.vampire_defeated initial_game w2 = (Ok false, w2).
Proof.
  apply (defeated_enemy_is_not_seen_by_win_test initial_game vampire_fight_world
           (after_hit (after_input vampire_fight_world) 8%nat
              (OEnemy (mkEnemy "A dangerous vampire" 16 100)) 16 16)
           8%nat 1%nat (mkPlayer "Matthew" (Some 1%nat) 100 20)
           (mkEnemy "A dangerous vampire" 0 100)
           (mkRoom "A dark room with dark doors." [3%nat; 4%nat] [7%nat; 8%nat; 9%nat] 1)
           [7%nat] [9%nat]);
    try reflexivity.
  - intros a Ha. apply list_elem_of_singleton in Ha. subst a. reflexivity.
  - intros H. apply list_elem_of_singleton in H. discriminate H.
  - intros k a Hka.
    apply elem_of_cons in Hka as [[= -> ->] | Hka];
      [|apply list_elem_of_singleton in Hka; injection Hka as -> ->];
      eexists; (split; [reflexivity|]); cbn [npcs]; intros n Hn;
      repeat (apply elem_of_cons in Hn as [->|Hn]);
      try (now apply elem_of_nil in Hn);
      try (left; split; reflexivity);
      right; (split; [discriminate|]); eexists; split; reflexivity.
Defined.

(** ** The menus, in a game that has not been loaded *)

Lemma in_range_lookup (choice : Z) (items : list nat) :
  Game.in_range choice items = true ->
  exists item, items !! Z.to_nat choice = Some item.
Proof.
  unfold Game.in_range. intros H. apply andb_true_iff in H as [H0 H1].
  apply Z.leb_le in H0. apply Z.ltb_lt in H1.
  apply lookup_lt_is_Some. lia.
Qed.

Lemma show_items_after_input items w :
  Game.show_items items w = (Ok tt, w) ->
  (run Game.show_items items then Scanner.read_int) w
  = (Ok (stdin w (stdin_pos w)), after_input w).
Proof. intros H. now rewrite (bind_Ok _ _ _ _ _ H). Qed.

(** X20: [look_for_way_out], in a room that has doors, reads one choice.
    A choice that is the index of a door of the list does what
    [Door.interact] of that door does; any other choice, negative ones
    included, changes nothing. *)
Theorem look_for_way_out_choice
  (g : Game) (w : World) (p : Player) (room : addr) (r : Room) :
  objects w !! player g = Some (OPlayer p) ->
  current_room p = Some room ->
  objects w !! room = Some (ORoom r) ->
  doors r <> [] ->
  Forall (fun a => exists d, objects w !! a = Some (ODoor d)) (doors r) ->
  (Game.in_range (stdin w (stdin_pos w)) (doors r) = false ->
   Game.look_for_way_out g w = (Ok tt, after_input w))
  /\ (forall door,
        Game.in_range (stdin w (stdin_pos w)) (doors r) = true ->
        doors r !! Z.to_nat (stdin w (stdin_pos w)) = Some door ->
        Game.look_for_way_out g w
        = Door_interact (Some door) (Some (player g)) (after_input w)).
Proof.
  intros Hp Hcur Hr Hne Hdoors.
  assert (Hshow : Game.show_items (doors r) w = (Ok tt, w)).
  { apply show_items_Ok. eapply Forall_impl; [exact Hdoors|].
    intros a [d Ha]. eexists _, _. split; [exact Ha | reflexivity]. }
  assert (Hunfold : Game.look_for_way_out g w
                    = if Game.in_range (stdin w (stdin_pos w)) (doors r)
                      then match doors r !! Z.to_nat (stdin w (stdin_pos w)) with
                           | Some door => interact (Some door) (Some (player g)) (after_input w)
                           | None => (Raise IllFormedStore, after_input w)
                           end
                      else (Ok tt, after_input w)).
  { unfold Game.look_for_way_out.
    rewrite (bind_Ok _ _ _ _ _ (get_player_Some _ _ _ Hp)). rewrite Hcur.
    rewrite (bind_Ok _ _ _ _ _ (get_room_Some _ _ _ Hr)).
    destruct (doors r) as [|d0 ds] eqn:Ed; [congruence|]. rewrite <- Ed in *.
    rewrite (bind_Ok _ _ _ _ _ Hshow), (bind_Ok _ _ _ _ _ (read_int_Ok w)).
    destruct (Game.in_range _ _); [|reflexivity].
    now destruct (doors r !! _). }
  rewrite Hunfold. split.
  - now intros ->.
  - intros door Hrange Hdoor. rewrite Hrange, Hdoor.
    destruct (proj1 (Forall_forall _ _) Hdoors door) as [d Hd];
      [eapply list_elem_of_lookup_2, Hdoor|].
    unfold interact.
    now rewrite (bind_Ok _ _ _ _ _ (deref_Some (after_input w) _ _ Hd)).
Qed.

Lemma look_for_way_out_choice_witness :
  let w := mkWorld initial_objects (fun _ => 0) 0 (fun _ => 1) 0 in
  (Game.in_range 1 [3%nat; 4%nat] = false ->
   Game.look_for_way_out initial_game w = (Ok tt, after_input w))
  /\ (forall door,
        Game.in_range 1 [3%nat; 4%nat] = true ->
        [3%nat; 4%nat] !! Z.to_nat 1 = Some door ->
        Game.look_for_way_out initial_game w
        = Door_interact (Some door) (Some 2%nat) (after_input w)).
Proof.
  intros w.
  apply (look_for_way_out_choice initial_game w (mkPlayer "Matthew" (Some 0%nat) 100 20)
           0%nat
           (mkRoom "A dusty room full of old computers." [3%nat; 4%nat] [5%nat; 6%nat] 0));
    try reflexivity; [discriminate|].
  repeat constructor; eexists; reflexivity.
Defined.

(** X21: [look_for_company], in a room that is not empty, reads one
    choice.  The index of a wizard gives the player the wizard's bonus, as
    often as it is chosen; the index of an enemy starts the combat with
    it; the index of a plain NPC, like a choice that is no index of the
    list, changes nothing. *)
Theorem look_for_company_choice
  (g : Game) (w : World) (p : Player) (room : addr) (r : Room) (fuel : nat) :
  objects w !! player g = Some (OPlayer p) ->
  current_room p = Some room ->
  objects w !! room = Some (ORoom r) ->
  npcs r <> [] ->
  Forall (fun a => exists o s, objects w !! a = Some o /\ obj_description o = Some s)
         (npcs r) ->
  (Game.in_range (stdin w (stdin_pos w)) (npcs r) = false ->
   Game.look_for_company fuel g w = Some (Ok tt, after_input w))
  /\ (forall npc,
        Game.in_range (stdin w (stdin_pos w)) (npcs r) = true ->
        npcs r !! Z.to_nat (stdin w (stdin_pos w)) = Some npc ->
        Game.look_for_company fuel g w
        = match objects w !! npc with
          | Some (OEnemy _) => Game.combat fuel g npc (after_input w)
          | Some (OWizard z) => Some (Ok tt, after_bonus (after_input w) (player g) p z)
          | _ => Some (Ok tt, after_input w)
          end).
Proof.
  intros Hp Hcur Hr Hne Hnpcs.
  assert (Hshow : Game.show_items (npcs r) w = (Ok tt, w)) by now apply show_items_Ok.
  assert (Hunfold :
    Game.look_for_company fuel g w
    = if Game.in_range (stdin w (stdin_pos w)) (npcs r)
      then match npcs r !! Z.to_nat (stdin w (stdin_pos w)) with
           | Some npc =>
               match objects w !! npc with
               | Some (OEnemy _) => Game.combat fuel g npc (after_input w)
               | Some (OWizard _) =>
                   Some ((run Wizard.give_bonus (Some npc) (Some (player g)) then
                          interact (Some npc) (Some (player g))) (after_input w))
               | Some _ => Some (Ok tt, after_input w)
               | None => Some (Raise IllFormedStore, after_input w)
               end
           | None => Some (Raise IllFormedStore, after_input w)
           end
      else Some (Ok tt, after_input w)).
  { unfold Game.look_for_company.
    rewrite (bind_Ok _ _ _ _ _ (get_player_Some _ _ _ Hp)). rewrite Hcur.
    rewrite (get_room_Some _ _ _ Hr).
    destruct (npcs r) as [|n0 ns] eqn:En; [congruence|]. rewrite <- En in *.
    now rewrite (show_items_after_input _ _ Hshow). }
  rewrite Hunfold. split.
  - now intros ->.
  - intros npc Hrange Hnpc. rewrite Hrange, Hnpc.
    destruct (proj1 (Forall_forall _ _) Hnpcs npc) as (o & s & Ho & Hs);
      [eapply list_elem_of_lookup_2, Hnpc|].
    rewrite Ho. destruct o as [n|e|z|d|r'|p']; try reflexivity.
    assert (Hz : objects (after_input w) !! npc = Some (OWizard z)) by exact Ho.
    assert (Hp' : objects (after_input w) !! player g = Some (OPlayer p)) by exact Hp.
    rewrite (bind_Ok _ _ _ _ _ (give_bonus_once _ _ _ _ _ Hz Hp')).
    fold (after_bonus (after_input w) (player g) p z).
    assert (Hz' : objects (after_bonus (after_input w) (player g) p z) !! npc
                  = Some (OWizard z)).
    { cbn. rewrite list_lookup_insert_ne; [exact Ho | intros E; congruence]. }
    unfold interact. now rewrite (bind_Ok _ _ _ _ _ (deref_Some _ _ _ Hz')).
Qed.

Lemma look_for_company_choice_witness :
  let w := mkWorld (test_objects 50 10 100 20) (fun _ => 0) 0 (fun _ => 0) 0 in
  let g := mkGame [(0, 0%nat); (1, 1%nat)] 4%nat in
  (Game.in_range 0 [2%nat] = false ->
   Game.look_for_company 1 g w = Some (Ok tt, after_input w))
  /\ (forall npc,
        Game.in_range 0 [2%nat] = true ->
        [2%nat] !! Z.to_nat 0 = Some npc ->
        Game.look_for_company 1 g w
        = match objects w !! npc with
          | Some (OEnemy _) => Game.combat 1 g npc (after_input w)
          | Some (OWizard z) =>
              Some (Ok tt,
                    after_bonus (after_input w) 4%nat (mkPlayer "Hero" (Some 0%nat) 100 20) z)
          | _ => Some (Ok tt, after_input w)
          end).
Proof.
  intros w g.
  apply (look_for_company_choice g w (mkPlayer "Hero" (Some 0%nat) 100 20) 0%nat
           (mkRoom "Room 1" [] [2%nat] 0) 1);
    try reflexivity; [discriminate|].
  repeat constructor. eexists _, _. split; reflexivity.
Defined.

(** ** The removal of a defeated enemy *)

(** X22: in a turn where the player chooses to attack and the enemy is
    not alive after the attack, the room of the player loses the first
    NPC of its list that is equal ([==]) to the defeated enemy: the NPCs
    listed before and after that one stay, in their order.  The NPC that
    goes is the enemy itself when no NPC listed before it is equal to it.
    The attack changes no object but the enemy, and the removal no object
    but the room, whose description, doors and id are kept. *)
Theorem combat_turn_removes_first_equal_npc
  (g : Game) (w w1 : World) (enemy room : addr) (p : Player) (e1 : Enemy) (r : Room)
  (l1 l2 : list addr) (x : addr) :
  objects w !! player g = Some (OPlayer p) ->
  current_room p = Some room ->
  objects w !! room = Some (ORoom r) ->
  npcs r = l1 ++ x :: l2 ->
  (forall a, a ∈ l1 -> py_eq (objects w1) (Some a) (Some enemy) = false) ->
  py_eq (objects w1) (Some x) (Some enemy) = true ->
  stdin w (stdin_pos w) = 0 ->
  Combat.attack (Some (player g)) (Some enemy) (after_input w) = (Ok tt, w1) ->
  objects w1 !! enemy = Some (OEnemy e1) ->
  enemy_health e1 <= 0 ->
  Game.combat_turn g enemy w = (Ok true, after_removal w1 room r (l1 ++ l2))
  /\ (forall a, a <> enemy -> objects w1 !! a = objects w !! a)
  /\ objects (after_removal w1 room r (l1 ++ l2)) !! room
     = Some (ORoom (mkRoom (room_description r) (doors r) (l1 ++ l2) (room_id r)))
  /\ (forall a, a <> room ->
        objects (after_removal w1 room r (l1 ++ l2)) !! a = objects w1 !! a).
Proof.
  intros Hp Hcur Hr Hnpcs Hbefore Hx Hin Hatt He1 Hdead.
  destruct (defeat_frame g w w1 enemy p e1 Hp Hatt He1) as (Hframe & Hne_p & Hroom_ne).
  pose proof (Hroom_ne _ _ Hr) as Hne_r.
  split; [|split; [exact Hframe|split]].
  - apply combat_turn_defeat_first_equal with (p := p) (e1 := e1) (x := x); trivial;
      now rewrite Hframe.
  - cbn. apply list_lookup_insert_eq. apply lookup_lt_Some with (x := ORoom r).
    now rewrite Hframe.
  - intros a Ha. cbn. now rewrite list_lookup_insert_ne.
Qed.

Lemma combat_turn_removes_first_equal_npc_witness :
  let w1 := after_hit (after_input orc_world) 3%nat (OEnemy (mkEnemy "Goblin" 16 10)) 16 16 in
  let r := mkRoom "Room 1" [] [1%nat; 2%nat; 3%nat; 4%nat] 0 in
  Game.combat_turn (mkGame [(0, 0%nat)] 5%nat) 3%nat orc_world
  = (Ok true, after_removal w1 0%nat r ([1%nat; 2%nat] ++ [4%nat]))
  /\ (forall a, a <> 3%nat -> objects w1 !! a = objects orc_world !! a)
  /\ objects (after_removal w1 0%nat r ([1%nat; 2%nat] ++ [4%nat])) !! 0%nat
     = Some (ORoom (mkRoom "Room 1" [] ([1%nat; 2%nat] ++ [4%nat]) 0))
  /\ (forall a, a <> 0%nat ->
        objects (after_removal w1 0%nat r ([1%nat; 2%nat] ++ [4%nat])) !! a
        = objects w1 !! a).
Proof.
  intros w1 r.
  apply (combat_turn_removes_first_equal_npc (mkGame [(0, 0%nat)] 5%nat) orc_world w1
           3%nat 0%nat (mkPlayer "Hero" (Some 0%nat) 100 20) (mkEnemy "Goblin" 0 10) r
           [1%nat; 2%nat] [4%nat] 3%nat);
    try reflexivity.
  intros a Ha. repeat (apply elem_of_cons in Ha as [->|Ha]); try reflexivity.
  now apply elem_of_nil in Ha.
Defined.
